(** * ShortsBot backend (server.js): token lifecycle, draft store, scheduler

    A shallow embedding of the parts of [server.js] that own state: the
    persisted document ([loadDB]/[saveDB]), the OAuth token manager
    ([getValidToken]), the script generator ([generateScript],
    [parseGeneratedScript], [localGenerate]), the scheduler
    ([scheduleVideoPost]) and the routes that mutate the draft list.

    Conventions of the embedding
    - a JavaScript string is the list of its UTF-16 code units;
    - a JavaScript number that the program uses as an instant, a duration
      or a count is an integer ([Z]); a field that may hold [undefined],
      [null] or [NaN] is an [option];
    - what a request gives for the topic, the tone, the length and the
      requested time of a draft is a JSON value of any kind ([Json.t]):
      the routes do not check the kind;
    - an [async] function is a computation over the [World]: the two
      files, the clock and how far it moves between two readings, the
      scripted replies of the three remote services, the log of the
      requests sent to them, the files under [public/] and the number
      formatting of the runtime. *)

From Stdlib Require Import ZArith NArith QArith Qround List String Ascii Lia.
From Stdlib Require Import DecimalString DecimalPos DecimalZ.
From stdpp Require Import base decidable option numbers list.
Import ListNotations.

Local Open Scope Z_scope.
Local Open Scope list_scope.

(** ** JavaScript strings *)

Module Js.

Definition jsstring := list N.

(** An ASCII literal of the source, as code units. *)
Definition lit (s : string) : jsstring :=
  map N_of_ascii (list_ascii_of_string s).
Arguments lit s%_string : simpl never.

(** [WhiteSpace] and [LineTerminator] of ECMAScript: what [\s] matches
    and what [String.prototype.trim] strips. *)
Definition is_line_terminator (c : N) : bool :=
  ((c =? 10) || (c =? 13) || (c =? 8232) || (c =? 8233))%N.

Definition is_space (c : N) : bool :=
  ((c =? 9) || (c =? 11) || (c =? 12) || (c =? 32) || (c =? 160)
   || (c =? 5760) || ((8192 <=? c) && (c <=? 8202))
   || (c =? 8239) || (c =? 8287) || (c =? 12288) || (c =? 65279))%N
  || is_line_terminator c.

(** [.] of a regular expression without the [s] flag. *)
Definition is_dot (c : N) : bool := negb (is_line_terminator c).

(** [[\s\S]]. *)
Definition is_any (c : N) : bool := true.

Fixpoint drop_while (p : N -> bool) (s : jsstring) : jsstring :=
  match s with
  | [] => []
  | c :: s' => if p c then drop_while p s' else s
  end.

Fixpoint take_while (p : N -> bool) (s : jsstring) : jsstring :=
  match s with
  | [] => []
  | c :: s' => if p c then c :: take_while p s' else []
  end.

Definition trimStart (s : jsstring) : jsstring := drop_while is_space s.
Definition trimEnd (s : jsstring) : jsstring := rev (drop_while is_space (rev s)).
Definition trim (s : jsstring) : jsstring := trimEnd (trimStart s).

(** A string is truthy when it is not empty. *)
Definition truthy (s : jsstring) : bool :=
  match s with [] => false | _ :: _ => true end.

(** [a || b] on strings. *)
Definition or_else (a b : jsstring) : jsstring := if truthy a then a else b.

(** [s.split(sep)] for a separator of one code unit. *)
Fixpoint split (sep : N) (s : jsstring) : list jsstring :=
  match s with
  | [] => [[]]
  | c :: s' =>
      if (c =? sep)%N then [] :: split sep s'
      else match split sep s' with
           | t :: ts => (c :: t) :: ts
           | [] => [[c]]
           end
  end.

(** [parts.join(sep)]. *)
Fixpoint join (sep : jsstring) (parts : list jsstring) : jsstring :=
  match parts with
  | [] => []
  | [t] => t
  | t :: ts => t ++ sep ++ join sep ts
  end.

(** [n.toString()] for an integer [n]. *)
Definition toString (n : Z) : jsstring :=
  lit (NilZero.string_of_int (Z.to_int n)).

End Js.
Export Js.

(** ** Regular expressions of [parseGeneratedScript]

    The four patterns use literals under the [i] flag, a greedy [\s*],
    one capturing group holding a greedy or a lazy [+] over a class of
    single code units, and one lookahead over literal alternatives and
    [$].  The matcher below is a backtracking matcher for this fragment:
    alternatives are tried in the order the specification of
    [RegExp.prototype.exec] tries them. *)

Module Re.

Inductive alt :=
| ALit (cs : list (N -> bool))     (* a literal alternative *)
| AEnd.                            (* [$] *)

Inductive item :=
| Chr (c : N -> bool)              (* one code unit of the class *)
| StarG (c : N -> bool)            (* [c*], greedy *)
| PlusG (c : N -> bool)            (* [(c+)], greedy, captured *)
| PlusL (c : N -> bool)            (* [(c+?)], lazy, captured *)
| Ahead (alts : list alt).         (* [(?=a|b)] *)

(** Canonicalisation of the [i] flag, restricted to what decides a match
    against an ASCII pattern character: a code unit of 128 or more is
    never folded onto an ASCII one. *)
Definition canon (c : N) : N :=
  if ((97 <=? c) && (c <=? 122))%N then (c - 32)%N else c.

Definition ci (a : ascii) : N -> bool :=
  fun c => (canon c =? canon (N_of_ascii a))%N.

Definition ci_lit (s : string) : list (N -> bool) :=
  map ci (list_ascii_of_string s).
Arguments ci_lit s%_string.

Definition lits (s : string) : list item := map Chr (ci_lit s).
Arguments lits s%_string.

(** Does the input start with the literal? *)
Fixpoint starts (cs : list (N -> bool)) (s : jsstring) : bool :=
  match cs, s with
  | [], _ => true
  | c :: cs', x :: s' => c x && starts cs' s'
  | _ :: _, [] => false
  end.

Definition looks (a : alt) (s : jsstring) : bool :=
  match a with
  | ALit cs => starts cs s
  | AEnd => match s with [] => true | _ :: _ => false end
  end.

(** Greedy repetition: take one more code unit first, fall back to the
    continuation on what has been taken so far. *)
Fixpoint many_greedy {R} (c : N -> bool) (got s : jsstring)
    (k : jsstring -> jsstring -> option R) : option R :=
  match s with
  | x :: s' =>
      if c x then
        match many_greedy c (got ++ [x]) s' k with
        | Some r => Some r
        | None => k got s
        end
      else k got s
  | [] => k got []
  end.

(** Lazy repetition: try the continuation first, take one more code unit
    only when it fails. *)
Fixpoint many_lazy {R} (c : N -> bool) (got s : jsstring)
    (k : jsstring -> jsstring -> option R) : option R :=
  match k got s with
  | Some r => Some r
  | None =>
      match s with
      | x :: s' => if c x then many_lazy c (got ++ [x]) s' k else None
      | [] => None
      end
  end.

(** [run p s cap]: match the pattern at the start of [s]; the result is
    the content of capture group 1. *)
Fixpoint run (p : list item) (s : jsstring) (cap : option jsstring)
    : option (option jsstring) :=
  match p with
  | [] => Some cap
  | Chr c :: p' =>
      match s with
      | x :: s' => if c x then run p' s' cap else None
      | [] => None
      end
  | StarG c :: p' => many_greedy c [] s (fun _ rest => run p' rest cap)
  | PlusG c :: p' =>
      match s with
      | x :: s' =>
          if c x then many_greedy c [x] s' (fun got rest => run p' rest (Some got))
          else None
      | [] => None
      end
  | PlusL c :: p' =>
      match s with
      | x :: s' =>
          if c x then many_lazy c [x] s' (fun got rest => run p' rest (Some got))
          else None
      | [] => None
      end
  | Ahead alts :: p' =>
      if existsb (fun a => looks a s) alts then run p' s cap else None
  end.

(** [text.match(re)] without the [g] flag: the leftmost start position
    at which the pattern matches. *)
Fixpoint search (p : list item) (s : jsstring) : option (option jsstring) :=
  match run p s None with
  | Some cap => Some cap
  | None =>
      match s with
      | [] => None
      | _ :: s' => search p s'
      end
  end.

(** [m?.[1]]: capture group 1 of a match, [None] for [undefined]. *)
Definition group1 (m : option (option jsstring)) : option jsstring :=
  match m with Some (Some g) => Some g | _ => None end.

End Re.

(** ** JSON values

    What [JSON.parse] makes of the body of a request: a field of the
    body holds a value of any of these kinds.  A number is a double,
    given by its value when it is finite; a literal too large for a
    double is read as an infinity.  An object lists its properties in
    the order the engine enumerates them. *)

Module Json.

Local Unset Elimination Schemes.
Inductive t :=
| null
| boolean (b : bool)
| number (x : Q)
| infinity (negative : bool)
| str (s : jsstring)
| array (items : list t)
| object (fields : list (jsstring * t)).
Local Set Elimination Schemes.

(** Truthiness: [null], [false], [0] and [""] are falsy, everything
    else is truthy, arrays and objects included. *)
Definition truthy (v : t) : bool :=
  match v with
  | null => false
  | boolean b => b
  | number x => negb (Qnum x =? 0)%Z
  | infinity _ => true
  | str s => Js.truthy s
  | array _ => true
  | object _ => true
  end.

(** What [JSON.stringify] writes of a value, as [JSON.parse] reads it
    back: the value itself, but for a number that is not finite, which
    is written as [null]. *)
Fixpoint written (v : t) : t :=
  match v with
  | infinity _ => null
  | array items => array (map written items)
  | object fields => object (map (fun f => (fst f, written (snd f))) fields)
  | _ => v
  end.

(** Truthiness of a field that may be missing ([undefined]). *)
Definition truthy_opt (o : option t) : bool :=
  match o with Some v => truthy v | None => false end.

(** [v || null]. *)
Definition or_null (o : option t) : t :=
  match o with
  | Some v => if truthy v then v else null
  | None => null
  end.

Definition has_key (k : jsstring) (fields : list (jsstring * t)) : bool :=
  existsb (fun f => bool_decide (fst f = k)) fields.

End Json.

(** The number formatting of the engine, tables of the runtime:
    [Number::toString] on a finite number, and what
    [`${Math.round(v * 2.5)}`] prints for a value [v] of any kind that
    converts to a primitive. *)
Record Engine := {
  number_toString : Q -> jsstring;
  round_scaled : Json.t -> jsstring
}.

(** [ToString] of a value, as a template literal applies it; [None]
    when the conversion throws.  An array prints its elements separated
    by commas, [null] elements as nothing.  An object prints as
    ["[object Object]"] through [Object.prototype.toString], unless it
    has a property of its own named [toString]: that property, not being
    a function, is skipped, [valueOf] gives no primitive, and the
    conversion throws a [TypeError]. *)
Fixpoint ToString (e : Engine) (v : Json.t) : option jsstring :=
  match v with
  | Json.null => Some (lit "null")
  | Json.boolean b => Some (if b then lit "true" else lit "false")
  | Json.number x => Some (number_toString e x)
  | Json.infinity negative => Some (if negative then lit "-Infinity" else lit "Infinity")
  | Json.str s => Some s
  | Json.array items =>
      (fix elements (l : list Json.t) : option jsstring :=
         match l with
         | [] => Some []
         | x :: l' =>
             match match x with
                   | Json.null => Some []
                   | _ => ToString e x
                   end, l' with
             | None, _ => None
             | Some a, [] => Some a
             | Some a, _ :: _ =>
                 match elements l' with
                 | Some b => Some (a ++ lit "," ++ b)
                 | None => None
                 end
             end
         end) items
  | Json.object fields =>
      if Json.has_key (lit "toString") fields then None
      else Some (lit "[object Object]")
  end.

(** ** Data model: the two persisted documents *)

Module Tokens.
(** [db.tokens]: a missing field is [None]; an [expiry] that is not a
    number ([NaN] in memory, [null] once written) is [None] too. *)
Record t := mk {
  access_token : option jsstring;
  refresh_token : option jsstring;
  expiry : option Z
}.
End Tokens.

Module Channel.
Record t := mk {
  id : option jsstring;
  title : jsstring;
  handle : jsstring;
  thumbnail : option jsstring;
  subscribers : option jsstring;
  views : option jsstring;
  videoCount : option jsstring
}.
End Channel.

Module Status.
Inductive t := draft | scheduled | error.
End Status.

Module Metadata.
(** [video.youtubeMetadata]. *)
Record t := mk {
  title : Json.t;
  description : jsstring;
  tags : list jsstring;
  categoryId : jsstring;
  privacyStatus : jsstring
}.
End Metadata.

Module Video.
(** One entry of [db.videos].  [createdAt] and [scheduledAt] hold the
    instant that [toISOString] renders.  [topic], [tone], [length] and
    [scheduledFor] are stored as the request gave them, and [title] may
    be the topic: they hold a value of any kind. *)
Record t := mk {
  id : jsstring;
  topic : Json.t;
  tone : Json.t;
  length : Json.t;
  title : Json.t;
  hook : jsstring;
  script : jsstring;
  hashtags : jsstring;
  status : Status.t;
  createdAt : Z;
  scheduledFor : Json.t;
  emoji : jsstring;
  scheduledAt : option Z;
  error : option jsstring;
  youtubeMetadata : option Metadata.t
}.

Definition set_scheduled (at_ : Z) (md : Metadata.t) (v : t) : t :=
  mk (id v) (topic v) (tone v) (length v) (title v) (hook v) (script v)
     (hashtags v) Status.scheduled (createdAt v) (scheduledFor v) (emoji v)
     (Some at_) (error v) (Some md).

Definition set_error (message : jsstring) (v : t) : t :=
  mk (id v) (topic v) (tone v) (length v) (title v) (hook v) (script v)
     (hashtags v) Status.error (createdAt v) (scheduledFor v) (emoji v)
     (scheduledAt v) (Some message) (youtubeMetadata v).
End Video.

Module DB.
(** The content of [data.json]. *)
Record t := mk {
  videos : list Video.t;
  tokens : option Tokens.t;
  channel : option Channel.t
}.

(** What [loadDB] returns when the file does not exist. *)
Definition empty : t := mk [] None None.

Definition with_videos (vs : list Video.t) (db : t) : t :=
  mk vs (tokens db) (channel db).
Definition with_tokens (tk : option Tokens.t) (db : t) : t :=
  mk (videos db) tk (channel db).
Definition with_channel (ch : option Channel.t) (db : t) : t :=
  mk (videos db) (tokens db) ch.
End DB.

Module Config.
(** The content of [config.json]. *)
Record t := mk {
  clientId : option jsstring;
  clientSecret : option jsstring;
  claudeApiKey : option jsstring
}.
Definition empty : t := mk None None None.
End Config.

(** ** The world outside the process *)

(** How an awaited request ends. *)
Inductive HttpResult (A : Type) :=
| Resolved (body : A)
| Rejected (message : jsstring).
Arguments Resolved {A} body.
Arguments Rejected {A} message.

(** The body the token endpoint answers with, as [httpsPost] hands it
    over: the fields the program reads, or [null].  A body that is not a
    JSON object (it is handed over as a string) has none of the fields. *)
Inductive TokenBody :=
| TokenNull
| TokenObj (error access_token refresh_token : option jsstring)
           (expires_in : option Z).

(** The first item of the channel listing, when there is one. *)
Record ChannelItem := {
  ch_id : option jsstring;
  ch_title : jsstring;
  ch_customUrl : option jsstring;
  ch_thumbnail : option jsstring;
  ch_subscriberCount : option jsstring;
  ch_viewCount : option jsstring;
  ch_videoCount : option jsstring
}.

(** A request sent to a remote service. *)
Inductive Request :=
| ReqExchange (code : jsstring) (client_id client_secret : option jsstring)
| ReqRefresh (refresh_token client_id client_secret : option jsstring)
| ReqChannel (access_token : option jsstring)
| ReqMessages (api_key prompt : jsstring).

(** A scripted reply: the time the request takes, and how it ends. *)
Definition Reply (A : Type) : Type := Z * HttpResult A.

Record World := mkWorld {
  db_file : option DB.t;            (* data.json, when it exists *)
  config_file : option Config.t;    (* config.json, when it exists *)
  clock : Z;                        (* what Date.now() reads *)
  idp : list (Reply TokenBody);     (* oauth2.googleapis.com/token *)
  youtube : list (Reply (list ChannelItem));  (* the channel listing: data.items *)
  claude : list (Reply (option jsstring));
      (* api.anthropic.com: result.content?.[0]?.text when it is a
         string; None when the body could not be parsed or holds no
         string there: no text is found, or reading the body or
         text.match throws inside the try *)
  entropy : list Q;                 (* what Math.random() returns, in turn *)
  sent : list Request;              (* requests sent so far, latest first *)
  writes : nat;                     (* how often data.json has been written *)
  drift : list Z;
      (* how far the clock moves between two readings that no await
         separates, in turn *)
  public : jsstring -> bool;        (* is there such a file under public/ *)
  engine : Engine                   (* the number formatting of the runtime *)
}.

(** ** Computations: state and exceptions *)

Inductive Outcome (A : Type) :=
| Return (a : A)
| Throw (message : jsstring).
Arguments Return {A} a.
Arguments Throw {A} message.

Definition Eff (A : Type) : Type := World -> Outcome A * World.

Definition ret {A} (a : A) : Eff A := fun w => (Return a, w).
Definition throw {A} (message : jsstring) : Eff A := fun w => (Throw message, w).
Definition bind {A B} (m : Eff A) (k : A -> Eff B) : Eff B :=
  fun w => match m w with
           | (Return a, w') => k a w'
           | (Throw e, w') => (Throw e, w')
           end.
(** [try { m } catch (e) { h e.message }]. *)
Definition try_catch {A} (m : Eff A) (h : jsstring -> Eff A) : Eff A :=
  fun w => match m w with
           | (Return a, w') => (Return a, w')
           | (Throw e, w') => h e w'
           end.

Declare Scope eff_scope.
Delimit Scope eff_scope with eff.
Notation "x <- m ;; k" := (bind m (fun x => k))
  (at level 100, m at next level, right associativity) : eff_scope.
Notation "m ;; k" := (bind m (fun _ => k))
  (at level 100, right associativity) : eff_scope.
Local Open Scope eff_scope.

Definition loadDB : Eff DB.t :=
  fun w => (Return (default DB.empty (db_file w)), w).

Definition saveDB (db : DB.t) : Eff unit :=
  fun w => (Return tt,
            mkWorld (Some db) (config_file w) (clock w) (idp w) (youtube w)
                    (claude w) (entropy w) (sent w) (S (writes w))
                    (drift w) (public w) (engine w)).

Definition loadConfig : Eff Config.t :=
  fun w => (Return (default Config.empty (config_file w)), w).

Definition Date_now : Eff Z := fun w => (Return (clock w), w).

(** Between two readings of the clock in one synchronous block the
    clock may have moved on. *)
Definition elapse : Eff unit :=
  fun w => match drift w with
           | d :: rest =>
               (Return tt,
                mkWorld (db_file w) (config_file w) (clock w + d) (idp w) (youtube w)
                        (claude w) (entropy w) (sent w) (writes w)
                        rest (public w) (engine w))
           | [] => (Return tt, w)
           end.

(** [`${v}`] in a template literal. *)
Definition template (v : Json.t) : Eff jsstring :=
  fun w => match ToString (engine w) v with
           | Some s => (Return s, w)
           | None => (Throw (lit "Cannot convert object to primitive value"), w)
           end.

(** [`${Math.round(v * 2.5)}`], once [`${v}`] has been evaluated. *)
Definition rounded (v : Json.t) : Eff jsstring :=
  fun w => (Return (round_scaled (engine w) v), w).

(** The receiver of a call of a method of strings, [v.split(...)]: a
    value that is not a string has no such method, and the call throws a
    [TypeError] that names the callee. *)
Definition receiver (callee : string) (v : Json.t) : Eff jsstring :=
  match v with
  | Json.str s => ret s
  | _ => throw (lit callee ++ lit " is not a function")
  end.
Arguments receiver callee%_string v.

(** Time passes while the process is idle. *)
Definition advance (dt : Z) (w : World) : World :=
  mkWorld (db_file w) (config_file w) (clock w + dt) (idp w) (youtube w)
          (claude w) (entropy w) (sent w) (writes w)
          (drift w) (public w) (engine w).

(** [Math.random()]. *)
Definition Math_random : Eff Q :=
  fun w => match entropy w with
           | r :: rs =>
               (Return r,
                mkWorld (db_file w) (config_file w) (clock w) (idp w) (youtube w)
                        (claude w) rs (sent w) (writes w)
                        (drift w) (public w) (engine w))
           | [] => (Return 0%Q, w)
           end.

(** The message of the rejection when a service has no reply left. *)
Definition unreachable : jsstring := lit "connect ECONNREFUSED".

(** Awaiting a request: it is logged, its reply is taken from the script
    of the service, and the clock has moved on when the caller resumes. *)
Definition settle {A} (r : HttpResult A) : Outcome A :=
  match r with
  | Resolved body => Return body
  | Rejected message => Throw message
  end.

Definition post_token (rq : Request) : Eff TokenBody :=
  fun w => match idp w with
           | (dt, r) :: rest =>
               (settle r,
                mkWorld (db_file w) (config_file w) (clock w + dt) rest (youtube w)
                        (claude w) (entropy w) (rq :: sent w) (writes w)
                        (drift w) (public w) (engine w))
           | [] =>
               (Throw unreachable,
                mkWorld (db_file w) (config_file w) (clock w) [] (youtube w)
                        (claude w) (entropy w) (rq :: sent w) (writes w)
                        (drift w) (public w) (engine w))
           end.

Definition get_channels (rq : Request) : Eff (list ChannelItem) :=
  fun w => match youtube w with
           | (dt, r) :: rest =>
               (settle r,
                mkWorld (db_file w) (config_file w) (clock w + dt) (idp w) rest
                        (claude w) (entropy w) (rq :: sent w) (writes w)
                        (drift w) (public w) (engine w))
           | [] =>
               (Throw unreachable,
                mkWorld (db_file w) (config_file w) (clock w) (idp w) []
                        (claude w) (entropy w) (rq :: sent w) (writes w)
                        (drift w) (public w) (engine w))
           end.

Definition post_messages (rq : Request) : Eff (option jsstring) :=
  fun w => match claude w with
           | (dt, r) :: rest =>
               (settle r,
                mkWorld (db_file w) (config_file w) (clock w + dt) (idp w) (youtube w)
                        rest (entropy w) (rq :: sent w) (writes w)
                        (drift w) (public w) (engine w))
           | [] =>
               (Throw unreachable,
                mkWorld (db_file w) (config_file w) (clock w) (idp w) (youtube w)
                        [] (entropy w) (rq :: sent w) (writes w)
                        (drift w) (public w) (engine w))
           end.

(** ** OAuth helpers *)

Definition exchangeCode (code : jsstring) (clientId clientSecret : option jsstring)
    : Eff TokenBody :=
  post_token (ReqExchange code clientId clientSecret).

Definition refreshToken (refreshTok clientId clientSecret : option jsstring)
    : Eff TokenBody :=
  post_token (ReqRefresh refreshTok clientId clientSecret).

(** Truthiness of a field that holds a string or is missing. *)
Definition truthy_opt (o : option jsstring) : bool :=
  match o with Some s => truthy s | None => false end.

(** [now + expires_in * 1000]; [NaN] when [expires_in] is missing. *)
Definition expiry_from (now : Z) (expires_in : option Z) : option Z :=
  match expires_in with
  | Some n => Some (now + n * 1000)
  | None => None
  end.

Definition null_error_message : jsstring :=
  lit "Cannot read properties of null (reading 'error')".

Definition getValidToken : Eff (option jsstring) :=
  db <- loadDB ;;
  cfg <- loadConfig ;;
  match DB.tokens db with
  | None => throw (lit "Not authenticated")
  | Some tok =>
      (* Check if access token is still valid (with 60s buffer) *)
      let expiry := default 0 (Tokens.expiry tok) in
      now <- Date_now ;;
      if now <? expiry - 60000 then ret (Tokens.access_token tok)
      else
        (* Refresh it *)
        refreshed <- refreshToken (Tokens.refresh_token tok)
                       (Config.clientId cfg) (Config.clientSecret cfg) ;;
        match refreshed with
        | TokenNull => throw null_error_message
        | TokenObj err access _ expires_in =>
            if truthy_opt err
            then throw (lit "Token refresh failed: " ++ default [] err)
            else
              now' <- Date_now ;;
              let tok' := Tokens.mk access (Tokens.refresh_token tok)
                            (expiry_from now' expires_in) in
              saveDB (DB.with_tokens (Some tok') db) ;;
              ret access
        end
  end.

(** [getChannelInfo(accessToken)]. *)
Definition getChannelInfo (accessToken : option jsstring) : Eff (option Channel.t) :=
  items <- get_channels (ReqChannel accessToken) ;;
  match items with
  | ch :: _ =>
      ret (Some (Channel.mk (ch_id ch) (ch_title ch)
                   (if truthy_opt (ch_customUrl ch)
                    then default [] (ch_customUrl ch)
                    else lit "@" ++ ch_title ch)
                   (ch_thumbnail ch) (ch_subscriberCount ch) (ch_viewCount ch)
                   (ch_videoCount ch)))
  | [] => ret None
  end.

(** ** Script generation *)

Module Generated.
(** [title] may be the topic, a value of any kind. *)
Record t := mk {
  title : Json.t;
  hook : jsstring;
  script : jsstring;
  hashtags : jsstring
}.
End Generated.

Definition re_title : list Re.item :=
  Re.lits "TITLE:" ++ [Re.StarG is_space; Re.PlusG is_dot].
Definition re_hook : list Re.item :=
  Re.lits "HOOK:" ++ [Re.StarG is_space; Re.PlusG is_dot].
Definition re_script : list Re.item :=
  Re.lits "SCRIPT:"
  ++ [Re.StarG is_space; Re.PlusL is_any;
      Re.Ahead [Re.ALit (Re.ci_lit "HASHTAGS:"); Re.AEnd]].
Definition re_hashtags : list Re.item :=
  Re.lits "HASHTAGS:" ++ [Re.StarG is_space; Re.PlusG is_dot].

(** [m?.[1]?.trim() || dflt]. *)
Definition field_or (m : option (option jsstring)) (dflt : jsstring) : jsstring :=
  match Re.group1 m with
  | Some g => or_else (trim g) dflt
  | None => dflt
  end.

(** [titleMatch?.[1]?.trim() || topic], the topic being a value of any
    kind. *)
Definition title_or (m : option (option jsstring)) (topic : Json.t) : Json.t :=
  match Re.group1 m with
  | Some g => if truthy (trim g) then Json.str (trim g) else topic
  | None => topic
  end.

Definition parseGeneratedScript (text : jsstring) (topic : Json.t) : Generated.t :=
  let titleMatch := Re.search re_title text in
  let hookMatch := Re.search re_hook text in
  let scriptMatch := Re.search re_script text in
  let hashMatch := Re.search re_hashtags text in
  Generated.mk (title_or titleMatch topic)
               (field_or hookMatch [])
               (field_or scriptMatch text)
               (field_or hashMatch (lit "#shorts #viral #trending")).

Definition nl : jsstring := [10%N].
Definition dash : jsstring := [8212%N].      (* U+2014 *)
Definition dquote : jsstring := [34%N].

(** [xs[Math.floor(r * xs.length)]]; [Math.random()] is in [0, 1), so
    the index is in range and [d] is not used.  The product is the
    exact one; the runtime rounds it to a double, which is the next
    integer for some [r] whose exact product is just below it, and is
    below the length as the exact one is. *)
Definition pick {A} (r : Q) (xs : list A) (d : A) : A :=
  nth (Z.to_nat (Qfloor (r * inject_Z (Z.of_nat (length xs))))) xs d.

(** The content of the message, from the texts the template literal
    evaluates in turn: [length], [topic], [tone] and
    [Math.round(length * 2.5)]. *)
Definition prompt (length topic tone words : jsstring) : jsstring :=
  lit "Write a " ++ length
  ++ lit "-second YouTube Shorts script about: " ++ dquote ++ topic ++ dquote
  ++ lit ". Tone: " ++ tone ++ lit ". " ++ nl
  ++ lit "Format:" ++ nl
  ++ lit "TITLE: (catchy title under 60 chars, no quotes)" ++ nl
  ++ lit "HOOK: (first 3 seconds - one punchy sentence)" ++ nl
  ++ lit "SCRIPT: (the full spoken script, ~" ++ words
  ++ lit " words)" ++ nl
  ++ lit "HASHTAGS: (5 relevant hashtags)" ++ nl
  ++ nl
  ++ lit "Keep it punchy, mobile-first, no filler. End with a clear call to action.".

Definition message_content (topic tone length : Json.t) : Eff jsstring :=
  length_text <- template length ;;
  topic_text <- template topic ;;
  tone_text <- template tone ;;
  words <- rounded length ;;
  ret (prompt length_text topic_text tone_text words).

(** What [https.request] accepts as the value of a header: a tab, and
    the code units from 0x20 to 0x7e and from 0x80 to 0xff. *)
Definition legal_header_value (s : jsstring) : bool :=
  forallb (fun c => (c =? 9) || ((32 <=? c) && (c <=? 126))
                    || ((128 <=? c) && (c <=? 255)))%N s.

(** The request to the generation service: [https.request] throws, and
    nothing is sent, when the key is not a legal header value. *)
Definition request_messages (api_key content : jsstring) : Eff (option jsstring) :=
  if legal_header_value api_key
  then post_messages (ReqMessages api_key content)
  else throw (lit "Invalid character in header content [" ++ dquote
              ++ lit "x-api-key" ++ dquote ++ lit "]").

Section Generator.

(** [String.prototype.toLowerCase], a table of the runtime. *)
Variable toLowerCase : jsstring -> jsstring.

Definition hooks (topic : jsstring) : list jsstring :=
  [ lit "Nobody talks about this but it's the #1 thing you need to know about "
      ++ topic ++ lit ".";
    lit "Stop scrolling " ++ dash ++ lit " this " ++ topic
      ++ lit " tip will change how you think.";
    lit "I tried " ++ topic ++ lit " for 30 days. Here's what actually happened.";
    lit "The truth about " ++ topic ++ lit " that nobody tells you.";
    lit "If you care about " ++ topic ++ lit ", watch this right now." ].

Definition script_of (hook topic : jsstring) : jsstring :=
  hook ++ nl
  ++ nl
  ++ lit "Here's what I discovered:" ++ nl
  ++ nl
  ++ lit "First " ++ dash ++ lit " most people approach " ++ topic
  ++ lit " completely wrong. They focus on the wrong things and wonder why they're not seeing results." ++ nl
  ++ nl
  ++ lit "Second " ++ dash
  ++ lit " the secret is consistency. Not perfection. Not talent. Just showing up every single day and doing the work." ++ nl
  ++ nl
  ++ lit "Third " ++ dash
  ++ lit " track your progress. What gets measured gets improved. Start small, stay consistent, and the results will come." ++ nl
  ++ nl
  ++ lit "The bottom line? " ++ topic
  ++ lit " is simpler than you think. Most people overcomplicate it." ++ nl
  ++ nl
  ++ lit "Save this video and share it with someone who needs to hear this. And follow for more tips like this every day.".

Definition titles (titleWords : jsstring) : list jsstring :=
  [ lit "The Truth About " ++ titleWords;
    titleWords ++ lit ": What Nobody Tells You";
    lit "I Tried " ++ titleWords ++ lit " For 30 Days";
    lit "Stop Making This " ++ titleWords ++ lit " Mistake" ].

(** The topic is a value of any kind: the template literals convert it
    to a string, and [topic.split] throws unless it is a string. *)
Definition localGenerate (topic tone length : Json.t) : Eff Generated.t :=
  topic_text <- template topic ;;
  r1 <- Math_random ;;
  let hook := pick r1 (hooks topic_text) [] in
  let script := script_of hook topic_text in
  topic <- receiver "topic.split" topic ;;
  let titleWords := join (lit " ") (take 4 (split 32 topic)) in
  r2 <- Math_random ;;
  ret (Generated.mk
         (Json.str (pick r2 (titles titleWords) []))
         hook
         script
         (lit "#" ++ toLowerCase (List.filter (fun c => negb (is_space c)) topic)
          ++ lit " #shorts #viral #trending #fyp")).

(** Uses the external API if a key is provided, otherwise generates
    locally.  The inner computation yields [None] where the source falls
    out of the [if] without returning. *)
Definition generateScript (topic tone length : Json.t) : Eff Generated.t :=
  cfg <- loadConfig ;;
  early <-
    (if truthy_opt (Config.claudeApiKey cfg) then
       try_catch
         (content <- message_content topic tone length ;;
          text <- request_messages (default [] (Config.claudeApiKey cfg)) content ;;
          if truthy_opt text
          then ret (Some (parseGeneratedScript (default [] text) topic))
          else ret None)
         (fun _ => ret None)
     else ret None) ;;
  match early with
  | Some generated => ret generated
  | None => (* Fallback: local generation *) localGenerate topic tone length
  end.

End Generator.

(** ** Scheduling *)

Definition youtubeMetadata_of (video : Video.t) : Metadata.t :=
  Metadata.mk
    (Video.title video)
    (Video.script video ++ nl ++ nl ++ Video.hashtags video ++ nl ++ nl ++ lit "#Shorts")
    (map trim (List.filter (fun t => truthy (trim t)) (split 35 (Video.hashtags video))))
    (lit "22")
    (lit "public").

(** [db.videos.find(v => v.id === videoId)], with the position of the
    entry: [video] aliases that entry of [db.videos]. *)
Definition find_video (videoId : jsstring) (videos : list Video.t)
    : option (nat * Video.t) :=
  list_find (fun v => Video.id v = videoId) videos.

Definition scheduleVideoPost (videoId : jsstring) : Eff Video.t :=
  db <- loadDB ;;
  match find_video videoId (DB.videos db) with
  | None => throw (lit "Video not found")
  | Some (i, video) =>
      try_catch
        (token <- getValidToken ;;
         now <- Date_now ;;
         let video' := Video.set_scheduled now (youtubeMetadata_of video) video in
         saveDB (DB.with_videos (<[i := video']> (DB.videos db)) db) ;;
         ret video')
        (fun e =>
           let video' := Video.set_error e video in
           saveDB (DB.with_videos (<[i := video']> (DB.videos db)) db) ;;
           throw e)
  end.

(** ** The routes that read or write the two documents *)

(** The fields the route reads in the parsed body; [None] when the body
    has no such field ([undefined]): a body that is not JSON is read as
    [{}], and a body that is a number, a boolean, a string or an array
    has none of these fields.  A body that is [null] has no fields to
    read: reading one throws, see [null_body]. *)
Record GenerateBody := {
  g_topic : option Json.t;
  g_tone : option Json.t;
  g_length : option Json.t;
  g_scheduleFor : option Json.t
}.

Record SetupBody := {
  s_clientId : option jsstring;
  s_clientSecret : option jsstring;
  s_claudeApiKey : option jsstring
}.

Inductive Route :=
| GetStatus                                      (* /api/status *)
| PostSetup (body : SetupBody)                   (* POST /api/setup *)
| PostSetupNull                                  (* POST /api/setup, the body [null] *)
| AuthCallback (code error : option jsstring)    (* /auth/callback?code=&error= *)
| AuthDisconnect                                 (* POST /auth/disconnect *)
| PostGenerate (body : GenerateBody)             (* POST /api/generate *)
| PostGenerateNull                               (* POST /api/generate, the body [null] *)
| GetVideos                                      (* /api/videos *)
| DeleteVideo (rest : jsstring)                  (* DELETE /api/videos/<rest> *)
| PostSchedule (rest : jsstring)                 (* POST /api/videos/<rest>/schedule *)
| GetChannel.                                    (* /api/channel *)

Inductive Payload :=
| P_status (configured connected : bool) (channel : option Channel.t) (videoCount : nat)
| P_success
| P_error (message : jsstring)
| P_video (video : Video.t)
| P_videos (videos : list Video.t)
| P_channel (channel : option Channel.t)
| P_location (query : jsstring)
| P_file (path contentType : jsstring)   (* the content of a file under public/ *)
| P_text (text : jsstring).

Record Response := respond { code : Z; payload : Payload }.

Definition json (p : Payload) : Response := respond 200 p.
Definition html (p : Payload) : Response := respond 200 p.

Definition emojis : list jsstring :=
  [ [55357; 56613]; [55357; 56481]; [55357; 56960]; [55356; 57263]; [10024];
    [55357; 56491]; [9889]; [55356; 57260]; [55357; 56561]; [55358; 56800] ]%N.

(** [if (body.x) cfg.x = body.x.trim()]. *)
Definition setup_field (given old : option jsstring) : option jsstring :=
  if truthy_opt given then Some (trim (default [] given)) else old.

Definition api_status : Eff Response :=
  cfg <- loadConfig ;;
  db <- loadDB ;;
  ret (json (P_status
               (truthy_opt (Config.clientId cfg) && truthy_opt (Config.clientSecret cfg))
               (bool_decide (is_Some (DB.tokens db)))
               (DB.channel db)
               (length (DB.videos db)))).

Definition saveConfig (cfg : Config.t) : Eff unit :=
  fun w => (Return tt,
            mkWorld (db_file w) (Some cfg) (clock w) (idp w) (youtube w)
                    (claude w) (entropy w) (sent w) (writes w)
                    (drift w) (public w) (engine w)).

Definition api_setup (body : SetupBody) : Eff Response :=
  cfg <- loadConfig ;;
  saveConfig (Config.mk
                (setup_field (s_clientId body) (Config.clientId cfg))
                (setup_field (s_clientSecret body) (Config.clientSecret cfg))
                (setup_field (s_claudeApiKey body) (Config.claudeApiKey cfg))) ;;
  ret (json P_success).

Definition auth_callback (code error : option jsstring) : Eff Response :=
  if truthy_opt error
  then ret (html (P_location (lit "/?auth=error&reason=" ++ default [] error)))
  else if negb (truthy_opt code)
  then ret (html (P_location (lit "/?auth=error&reason=no_code")))
  else
    cfg <- loadConfig ;;
    tokens <- exchangeCode (default [] code) (Config.clientId cfg) (Config.clientSecret cfg) ;;
    match tokens with
    | TokenNull => throw null_error_message
    | TokenObj err access refresh expires_in =>
        if truthy_opt err
        then ret (html (P_location (lit "/?auth=error&reason=" ++ default [] err)))
        else
          db <- loadDB ;;
          now <- Date_now ;;
          let db1 := DB.with_tokens
                       (Some (Tokens.mk access refresh (expiry_from now expires_in))) db in
          (* Fetch channel info *)
          db2 <- try_catch
                   (ch <- getChannelInfo access ;; ret (DB.with_channel ch db1))
                   (fun _ => ret db1) ;;
          saveDB db2 ;;
          ret (html (P_location (lit "/?auth=success")))
    end.

Definition auth_disconnect : Eff Response :=
  db <- loadDB ;;
  saveDB (DB.with_channel None (DB.with_tokens None db)) ;;
  ret (json P_success).

Definition api_videos : Eff Response :=
  db <- loadDB ;;
  ret (json (P_videos (DB.videos db))).

Definition api_delete (id : jsstring) : Eff Response :=
  db <- loadDB ;;
  saveDB (DB.with_videos
            (List.filter (fun v => negb (bool_decide (Video.id v = id))) (DB.videos db))
            db) ;;
  ret (json P_success).

Definition api_schedule (id : jsstring) : Eff Response :=
  video <- scheduleVideoPost id ;;
  ret (json (P_video video)).

Definition api_channel : Eff Response :=
  db <- loadDB ;;
  match DB.tokens db with
  | None => ret (respond 401 (P_error (lit "Not connected")))
  | Some _ =>
      try_catch
        (token <- getValidToken ;;
         channel <- getChannelInfo token ;;
         saveDB (DB.with_channel channel db) ;;
         ret (json (P_channel channel)))
        (fun e => ret (respond 500 (P_error e)))
  end.

(** [s.endsWith(suffix)]. *)
Definition endsWith (suffix s : jsstring) : bool :=
  (length suffix <=? length s)%nat
  && bool_decide (drop (length s - length suffix) s = suffix).

(** [pathname.match(/\.(png|jpg|ico)$/)]. *)
Definition is_image (pathname : jsstring) : bool :=
  endsWith (lit ".png") pathname || endsWith (lit ".jpg") pathname
  || endsWith (lit ".ico") pathname.

Definition types : list (jsstring * jsstring) :=
  [ (lit "png", lit "image/png"); (lit "jpg", lit "image/jpeg");
    (lit "ico", lit "image/x-icon") ].

(** [types[ext] || 'application/octet-stream'] for
    [ext = pathname.split('.').pop()]. *)
Definition content_type (pathname : jsstring) : jsstring :=
  let ext := List.last (split 46 pathname) [] in
  match List.find (fun e => bool_decide (fst e = ext)) types with
  | Some e => snd e
  | None => lit "application/octet-stream"
  end.

Definition serveFile (filePath contentType : jsstring) : Eff Response :=
  fun w => if public w filePath
           then (Return (respond 200 (P_file filePath contentType)), w)
           else (Return (respond 404 (P_text (lit "Not found"))), w).

(** [db.videos.unshift(video); if (db.videos.length > 50) db.videos =
    db.videos.slice(0, 50)]. *)
Definition insert_video (video : Video.t) (videos : list Video.t) : list Video.t :=
  let videos' := video :: videos in
  if (50 <? length videos')%nat then take 50 videos' else videos'.

Section Routes.

Variable toLowerCase : jsstring -> jsstring.

(** The defaults of the destructuring apply to a field that is missing,
    not to one that is [null].  [Date.now()] for the id and [new Date()]
    for [createdAt] are two readings of the clock.  The draft is put
    into the response and into [data.json], and into nothing else: the
    fields that hold what the request gave are modelled as
    [JSON.stringify] writes them. *)
Definition api_generate (body : GenerateBody) : Eff Response :=
  let topic := default Json.null (g_topic body) in
  let tone := default (Json.str (lit "Engaging")) (g_tone body) in
  let length := default (Json.number 60) (g_length body) in
  if negb (Json.truthy_opt (g_topic body))
  then ret (respond 400 (P_error (lit "Topic required")))
  else
    generated <- generateScript toLowerCase topic tone length ;;
    db <- loadDB ;;
    now <- Date_now ;;
    elapse ;;
    created <- Date_now ;;
    r <- Math_random ;;
    let video :=
      Video.mk (toString now) (Json.written topic) (Json.written tone)
               (Json.written length)
               (Json.written (Generated.title generated)) (Generated.hook generated)
               (Generated.script generated) (Generated.hashtags generated)
               Status.draft created
               (Json.written (Json.or_null (g_scheduleFor body)))
               (pick r emojis [])
               None None None in
    saveDB (DB.with_videos (insert_video video (DB.videos db)) db) ;;
    ret (json (P_video video)).

(** Reading a field of a body that is [null] throws a [TypeError],
    before anything is drawn, sent or written: [body.clientId] in the
    setup route, the destructuring of [body] in the generation route. *)
Definition null_body (message : string) : Eff Response := throw (lit message).

Definition route (rq : Route) : Eff Response :=
  match rq with
  | GetStatus => api_status
  | PostSetup body => api_setup body
  | PostSetupNull =>
      loadConfig ;; null_body "Cannot read properties of null (reading 'clientId')"
  | AuthCallback code error => auth_callback code error
  | AuthDisconnect => auth_disconnect
  | PostGenerate body => api_generate body
  | PostGenerateNull =>
      null_body "Cannot destructure property 'topic' of 'body' as it is null."
  | GetVideos => api_videos
  | DeleteVideo rest =>
      (* a path that ends like an image is served as a static file;
         the id is [pathname.split('/').pop()] *)
      let pathname := lit "/api/videos/" ++ rest in
      if is_image pathname
      then serveFile (drop 1 pathname) (content_type pathname)
      else api_delete (List.last (split 47 pathname) [])
  | PostSchedule rest =>
      (* the id is [pathname.split('/')[3]] *)
      let pathname := lit "/api/videos/" ++ rest ++ lit "/schedule" in
      api_schedule (nth 3 (split 47 pathname) [])
  | GetChannel => api_channel
  end.

(** The request handler: a failure that escapes a route is answered with
    status 500 and its message. *)
Definition handle (rq : Route) (w : World) : Response * World :=
  match route rq w with
  | (Return r, w') => (r, w')
  | (Throw e, w') => (respond 500 (P_error e), w')
  end.

(** What happens to the server: a request is served, or time passes. *)
Inductive Event :=
| Serve (rq : Route)
| Tick (dt : Z).

Definition step (ev : Event) (w : World) : World :=
  match ev with
  | Serve rq => snd (handle rq w)
  | Tick dt => advance dt w
  end.

Definition run (evs : list Event) (w : World) : World :=
  fold_left (fun w ev => step ev w) evs w.

End Routes.

(** The draft list as the next request will load it. *)
Definition store (w : World) : list Video.t :=
  DB.videos (default DB.empty (db_file w)).

Definition stored_tokens (w : World) : option Tokens.t :=
  DB.tokens (default DB.empty (db_file w)).

(** ** Scenarios used by the properties *)

(** The instants at which calls are made when the process waits [dts]
    before each of them, starting at [t]. *)
Fixpoint call_times (t : Z) (dts : list Z) : list Z :=
  match dts with
  | [] => []
  | dt :: rest => (t + dt) :: call_times (t + dt) rest
  end.

(** Repeated calls of [getValidToken], the process idling before each. *)
Fixpoint poll (dts : list Z) (w : World)
    : list (Outcome (option jsstring)) * World :=
  match dts with
  | [] => ([], w)
  | dt :: rest =>
      let (r, w1) := getValidToken (advance dt w) in
      let (rs, w2) := poll rest w1 in
      (r :: rs, w2)
  end.

(** The expiry the validity check of [getValidToken] uses. *)
Definition expiry_of (tok : Tokens.t) : Z := default 0 (Tokens.expiry tok).

(** The identity provider's next answer is a token grant: no [error],
    an access token and a lifetime in seconds. *)
Definition idp_grants (w : World) (access : jsstring) (expires_in : Z) : Prop :=
  exists dt err refresh rest,
    idp w = (dt, Resolved (TokenObj err (Some access) refresh (Some expires_in))) :: rest
    /\ truthy_opt err = false.

(** The identity provider's next answer is an error payload. *)
Definition idp_rejects (w : World) (error : jsstring) : Prop :=
  exists dt access refresh expires_in rest,
    idp w = (dt, Resolved (TokenObj (Some error) access refresh expires_in)) :: rest
    /\ error <> [].

(** The time at which the process resumes after the next answer of the
    identity provider. *)
Definition idp_resume (w : World) : Z :=
  match idp w with
  | (dt, _) :: _ => clock w + dt
  | [] => clock w
  end.

(** An engine for the scenarios, which print integers of moderate size
    only: it prints an integer in decimal, as [Number::toString] does up
    to 21 digits, and rounds [x * 2.5] to the nearest integer, upwards
    from a half, as [Math.round] does. *)
Definition plain_engine : Engine :=
  {| number_toString := fun x => toString (Qfloor x);
     round_scaled := fun v =>
       match v with
       | Json.number x => toString (Qfloor (x * (5 # 2) + (1 # 2)))
       | _ => lit "NaN"
       end |}.

(** A [public] directory that holds no file. *)
Definition no_files : jsstring -> bool := fun _ => false.

(** A token that expired, and a provider that grants 30 seconds. *)
Definition short_grant_world : World :=
  mkWorld
    (Some (DB.mk [] (Some (Tokens.mk (Some (lit "old")) (Some (lit "R")) (Some 100000))) None))
    None 50000
    [(0, Resolved (TokenObj None (Some (lit "new")) None (Some 30)))]
    [] [] [] [] 0 [] no_files plain_engine.

(** No draft stored before position [i] has the id: [find] does not
    stop before [i]. *)
Definition unshadowed (id : jsstring) (i : nat) (videos : list Video.t) : Prop :=
  Forall (fun u => Video.id u <> id) (take i videos).

(** The world after [saveDB db]. *)
Definition saved (db : DB.t) (w : World) : World := snd (saveDB db w).

(** The document [scheduleVideoPost] writes back: the one it loaded
    before asking for a token, with entry [i] replaced. *)
Definition rescheduled_db (i : nat) (video : Video.t) (w : World) : DB.t :=
  DB.with_videos (<[i := video]> (store w)) (default DB.empty (db_file w)).

(** A draft whose hashtags are those of the specification's example. *)
Definition cooking_draft : Video.t :=
  Video.mk (lit "1730000000000") (Json.str (lit "cooking"))
    (Json.str (lit "Engaging")) (Json.number 60)
    (Json.str (lit "The Truth About cooking")) (lit "Hook.") (lit "Script.")
    (lit "#cooking #shorts #fyp") Status.draft 1730000000000 Json.null [10024%N]
    None None None.

(** A connected process holding [cooking_draft], its token still valid. *)
Definition connected_world : World :=
  mkWorld
    (Some (DB.mk [cooking_draft]
             (Some (Tokens.mk (Some (lit "ya29")) (Some (lit "R")) (Some 1730003600000)))
             None))
    None 1730000005000 [] [] [] [] [] 1 [] no_files plain_engine.

(** The same process before it was ever connected. *)
Definition unconnected_world : World :=
  mkWorld (Some (DB.mk [cooking_draft] None None))
    None 1730000005000
    [(300, Resolved (TokenObj None (Some (lit "ya29")) (Some (lit "R")) (Some 3599)))]
    [(200, Resolved [])] [] [] [] 1 [] no_files plain_engine.

(** A process that was never connected, and a provider that grants 30
    seconds at the callback and rejects the refresh that follows. *)
Definition short_lived_world : World :=
  mkWorld (Some (DB.mk [cooking_draft] None None))
    None 1730000005000
    [(300, Resolved (TokenObj None (Some (lit "ya29")) (Some (lit "R")) (Some 30)));
     (300, Resolved (TokenObj (Some (lit "invalid_grant")) None None None))]
    [(200, Resolved [])] [] [] [] 1 [] no_files plain_engine.

(** A process whose draft has been scheduled and whose connection has
    been removed since. *)
Definition disconnected_world : World :=
  mkWorld
    (Some (DB.mk
             [Video.set_scheduled 1730000001000 (youtubeMetadata_of cooking_draft)
                cooking_draft]
             None None))
    None 1730000005000 [] [] [] [] [] 3 [] no_files plain_engine.


(** The content of the message [generateScript] builds; [None] when one
    of the conversions of the template literal throws. *)
Definition generation_content (topic tone length : Json.t) (w : World)
    : option jsstring :=
  match ToString (engine w) length, ToString (engine w) topic,
        ToString (engine w) tone with
  | Some length_text, Some topic_text, Some tone_text =>
      Some (prompt length_text topic_text tone_text (round_scaled (engine w) length))
  | _, _, _ => None
  end.

(** The configured key. *)
Definition api_key (w : World) : jsstring :=
  default [] (Config.claudeApiKey (default Config.empty (config_file w))).

(** [generateScript] sends a request when a key is configured, the
    content of the message can be built and the key is a legal header
    value. *)
Definition generation_sends (topic tone length : Json.t) (w : World) : bool :=
  truthy (api_key w)
  && bool_decide (is_Some (generation_content topic tone length w))
  && legal_header_value (api_key w).

(** The request it sends then. *)
Definition generation_request (topic tone length : Json.t) (w : World) : Request :=
  ReqMessages (api_key w) (default [] (generation_content topic tone length w)).

(** The text the generation service delivers next, if it does. *)
Definition delivered (w : World) : option jsstring :=
  match claude w with
  | (_, Resolved (Some (c :: text))) :: _ => Some (c :: text)
  | _ => None
  end.

(** The world after the attempt at the external call. *)
Definition after_attempt (topic tone length : Json.t) (w : World) : World :=
  if generation_sends topic tone length w
  then snd (post_messages (generation_request topic tone length w) w)
  else w.

(** [toLowerCase] on ASCII input, for the scenarios. *)
Definition lower_ascii (s : jsstring) : jsstring :=
  map (fun c => if ((65 <=? c) && (c <=? 90))%N then (c + 32)%N else c) s.

(** A process with a generation key whose provider is down. *)
Definition keyed_world : World :=
  mkWorld None (Some (Config.mk None None (Some (lit "sk-ant"))))
    1730000000000 [] []
    [(1500, Rejected (lit "socket hang up"))]
    [(1 # 2)%Q; (3 # 4)%Q; (1 # 8)%Q] [] 0 [] no_files plain_engine.

(** ** Invariants of the draft list *)

(** No scripted reply takes a negative time, and the clock does not run
    backwards between two readings. *)
Definition latencies_ok (w : World) : Prop :=
  Forall (fun r => 0 <= fst r) (idp w)
  /\ Forall (fun r => 0 <= fst r) (youtube w)
  /\ Forall (fun r => 0 <= fst r) (claude w)
  /\ Forall (fun d => 0 <= d) (drift w).

(** [w'] is a later state of a world whose replies take time. *)
Definition later (w w' : World) : Prop :=
  latencies_ok w -> latencies_ok w' /\ clock w <= clock w'.

(** What a request other than a request for a script can do to the
    draft list. *)
Inductive store_edit (vs : list Video.t) : list Video.t -> Prop :=
| edit_same : store_edit vs vs
| edit_delete (id : jsstring) :
    store_edit vs
      (List.filter (fun v => negb (bool_decide (Video.id v = id))) vs)
| edit_update (i : nat) (v v' : Video.t) :
    vs !! i = Some v ->
    Video.id v' = Video.id v ->
    store_edit vs (<[i := v']> vs).

(** A request for a script, served from [w] to [w'], inserts a draft
    named after an instant [t] at which the clock was read in between. *)
Definition store_insert (w w' : World) (vs vs' : list Video.t) : Prop :=
  exists t v,
    (latencies_ok w -> clock w <= t /\ t <= clock w')
    /\ Video.id v = toString t /\ vs' = insert_video v vs.

(** What an event can do to the draft list. *)
Definition store_step (ev : Event) (w w' : World) (vs vs' : list Video.t) : Prop :=
  store_edit vs vs'
  \/ ((exists body, ev = Serve (PostGenerate body)) /\ store_insert w w' vs vs').

Definition ids (vs : list Video.t) : list jsstring := map Video.id vs.

(** A process started on an empty directory, served at a steady pace. *)
Definition fresh_world : World :=
  mkWorld None None 1730000000000 [] [] [] [] [] 0 [] no_files plain_engine.

Definition request_for (topic : string) : Event :=
  Serve (PostGenerate {| g_topic := Some (Json.str (lit topic)); g_tone := None;
                         g_length := None; g_scheduleFor := None |}).

(** [n] requests for a script, one every second. *)
Fixpoint paced_requests (n : nat) : list Event :=
  match n with
  | O => []
  | S n' => Tick 1000 :: request_for "cooking" :: paced_requests n'
  end.

(** Every request for a script is served after the clock has moved on
    since the previous one was; [ticked] tells whether it has moved on
    already. *)
Fixpoint paced (ticked : bool) (evs : list Event) : Prop :=
  match evs with
  | [] => True
  | Tick dt :: rest => 0 <= dt /\ paced (ticked || (0 <? dt)) rest
  | Serve (PostGenerate _) :: rest => ticked = true /\ paced false rest
  | Serve _ :: rest => paced ticked rest
  end.

(** Every id in the list renders an instant that is not later than the
    clock, or, when [strict], that is earlier. *)
Definition ids_dated (strict : bool) (w : World) : Prop :=
  Forall (fun id => exists t, id = toString t
                              /\ if strict then t < clock w else t <= clock w)
         (ids (store w)).

(** Two requests for a script served within the same millisecond. *)
Definition same_millisecond : list Event :=
  [request_for "cooking"; request_for "baking"].

(** ** What [parseGeneratedScript] extracts, in words

    A labelled line: what follows the first occurrence of the label
    (whatever its case) once white space is skipped, up to the end of
    that line, trimmed; the default when the text has no such label or
    nothing but white space follows it. *)

(** The text after the first occurrence of the label. *)
Fixpoint after_label (cs : list (N -> bool)) (text : jsstring) : option jsstring :=
  if Re.starts cs text then Some (drop (length cs) text)
  else match text with
       | [] => None
       | _ :: text' => after_label cs text'
       end.

Definition labelled (cs : list (N -> bool)) (capture : jsstring -> jsstring)
    (text dflt : jsstring) : jsstring :=
  match after_label cs text with
  | None => dflt
  | Some after =>
      match drop_while is_space after with
      | [] => dflt
      | rest => trim (capture rest)
      end
  end.

Definition labelled_line (label : string) (text dflt : jsstring) : jsstring :=
  labelled (Re.ci_lit label) (take_while is_dot) text dflt.
Arguments labelled_line label%_string text dflt.

(** The title: the labelled line when there is one, the topic as it is
    otherwise. *)
Definition labelled_title (text : jsstring) (topic : Json.t) : Json.t :=
  match labelled_line "TITLE:" text [] with
  | [] => topic
  | title => Json.str title
  end.

(** The text up to the next ["HASHTAGS:"], or to the end. *)
Fixpoint until_hashtags (s : jsstring) : jsstring :=
  if Re.starts (Re.ci_lit "HASHTAGS:") s then []
  else match s with
       | [] => []
       | c :: s' => c :: until_hashtags s'
       end.

(** A labelled block: what follows ["SCRIPT:"] once white space is
    skipped, at least one code unit and then up to the next
    ["HASHTAGS:"] or the end, trimmed. *)
Definition block_capture (rest : jsstring) : jsstring :=
  match rest with
  | [] => []
  | c :: r => c :: until_hashtags r
  end.

Definition labelled_block (text dflt : jsstring) : jsstring :=
  labelled (Re.ci_lit "SCRIPT:") block_capture text dflt.

(** C8 as the specification states it: every field that fails to parse
    falls back to a default derived from the topic. *)
Definition field_fails (re : list Re.item) (text : jsstring) : Prop :=
  match Re.group1 (Re.search re text) with
  | None => True
  | Some g => trim g = []
  end.

Definition topic_derived_defaults : Prop :=
  exists (d_title : Json.t -> Json.t) (d_hook d_script d_hashtags : Json.t -> jsstring),
    forall text topic,
      (field_fails re_title text ->
       Generated.title (parseGeneratedScript text topic) = d_title topic)
      /\ (field_fails re_hook text ->
          Generated.hook (parseGeneratedScript text topic) = d_hook topic)
      /\ (field_fails re_script text ->
          Generated.script (parseGeneratedScript text topic) = d_script topic)
      /\ (field_fails re_hashtags text ->
          Generated.hashtags (parseGeneratedScript text topic) = d_hashtags topic).

(** ** Further notions and scenarios *)

Definition stored_channel (w : World) : option Channel.t :=
  DB.channel (default DB.empty (db_file w)).

Definition config (w : World) : Config.t := default Config.empty (config_file w).

(** The request [getValidToken] sends for the record [tok]. *)
Definition refresh_request (w : World) (tok : Tokens.t) : Request :=
  ReqRefresh (Tokens.refresh_token tok) (Config.clientId (config w))
             (Config.clientSecret (config w)).

(** An expired token, and a provider that cannot be reached. *)
Definition offline_world : World :=
  mkWorld
    (Some (DB.mk [cooking_draft]
             (Some (Tokens.mk (Some (lit "old")) (Some (lit "R")) (Some 100000))) None))
    (Some (Config.mk (Some (lit "id")) (Some (lit "secret")) None))
    50000 [(30000, Rejected (lit "getaddrinfo ENOTFOUND"))] [] [] [] [] 4 [] no_files plain_engine.

(** An expired token, and a provider whose grant says nothing of a lifetime. *)
Definition no_lifetime_world : World :=
  mkWorld
    (Some (DB.mk [] (Some (Tokens.mk (Some (lit "old")) (Some (lit "R")) (Some 100000))) None))
    None 50000
    [(10, Resolved (TokenObj None (Some (lit "new")) None None));
     (10, Resolved (TokenObj None (Some (lit "newer")) None (Some 3599)))]
    [] [] [] [] 0 [] no_files plain_engine.

(** The fields of a draft that scheduling never writes. *)
Definition same_content (v v' : Video.t) : Prop :=
  Video.id v' = Video.id v
  /\ Video.topic v' = Video.topic v
  /\ Video.tone v' = Video.tone v
  /\ Video.length v' = Video.length v
  /\ Video.title v' = Video.title v
  /\ Video.hook v' = Video.hook v
  /\ Video.script v' = Video.script v
  /\ Video.hashtags v' = Video.hashtags v
  /\ Video.createdAt v' = Video.createdAt v
  /\ Video.scheduledFor v' = Video.scheduledFor v
  /\ Video.emoji v' = Video.emoji v.

(** A connected process whose token has to be refreshed, and a provider
    that grants the refresh. *)
Definition expired_world : World :=
  mkWorld
    (Some (DB.mk [cooking_draft]
             (Some (Tokens.mk (Some (lit "old")) (Some (lit "R")) (Some 1730000000000)))
             None))
    None 1730000005000
    [(200, Resolved (TokenObj None (Some (lit "new")) None (Some 3599)))]
    [] [] [] [] 1 [] no_files plain_engine.

(** [GET /api/videos] as a client reads it. *)
Definition listed (r : Response) : list Video.t :=
  match payload r with
  | P_videos vs => vs
  | _ => []
  end.

(** A request for a script with the defaults of the route. *)
Definition cooking_body : GenerateBody :=
  {| g_topic := Some (Json.str (lit "cooking")); g_tone := None; g_length := None;
     g_scheduleFor := None |}.

(** A request for a script without a topic. *)
Definition empty_body : GenerateBody :=
  {| g_topic := Some (Json.str []); g_tone := Some (Json.str (lit "Calm"));
     g_length := Some (Json.number 30); g_scheduleFor := None |}.

(** The channel record [getChannelInfo] builds from the first item. *)
Definition channel_of (ch : ChannelItem) : Channel.t :=
  Channel.mk (ch_id ch) (ch_title ch)
    (if truthy_opt (ch_customUrl ch) then default [] (ch_customUrl ch)
     else lit "@" ++ ch_title ch)
    (ch_thumbnail ch) (ch_subscriberCount ch) (ch_viewCount ch) (ch_videoCount ch).

(** The time the next channel listing takes. *)
Definition youtube_latency (w : World) : Z :=
  match youtube w with
  | (dt, _) :: _ => dt
  | [] => 0
  end.

(** The page the callback answers with: a script that sends the browser
    to [query]. *)
Definition redirect_page (query : jsstring) : jsstring :=
  lit "<script>window.location='" ++ query ++ lit "'</script>".

Definition page_of (r : Response) : jsstring :=
  match payload r with
  | P_location query => redirect_page query
  | _ => []
  end.


(** A process that was connected to one account and is being connected
    to another; the provider grants no refresh token this time, and the
    channel listing fails. *)
Definition reconnect_world : World :=
  mkWorld
    (Some (DB.mk [cooking_draft]
             (Some (Tokens.mk (Some (lit "old")) (Some (lit "R")) (Some 100000)))
             (Some (Channel.mk (Some (lit "UC1")) (lit "First") (lit "@first")
                      None None None None))))
    (Some (Config.mk (Some (lit "id")) (Some (lit "secret")) None))
    1730000000000
    [(300, Resolved (TokenObj None (Some (lit "ya29")) None (Some 3599)))]
    [(150, Rejected (lit "socket hang up"))]
    [] [] [] 7 [] no_files plain_engine.


(** [Math.random()] returns numbers in [0, 1). *)
Definition unit_interval (r : Q) : Prop := (0 <= r)%Q /\ (r < 1)%Q.

Definition fair (w : World) : Prop := Forall unit_interval (entropy w).

(** [topic.split(' ').slice(0, 4).join(' ')]. *)
Definition titleWords (topic : jsstring) : jsstring :=
  join (lit " ") (take 4 (split 32 topic)).

(** The hashtags [localGenerate] returns. *)
Definition local_hashtags (toLowerCase : jsstring -> jsstring) (topic : jsstring)
    : jsstring :=
  lit "#" ++ toLowerCase (List.filter (fun c => negb (is_space c)) topic)
  ++ lit " #shorts #viral #trending #fyp".

(** No line break in the string. *)
Definition single_line (s : jsstring) : Prop :=
  Forall (fun c => is_line_terminator c = false) s.

(** A field as [parseGeneratedScript] leaves it when it was found in the
    text: not empty, nothing to trim. *)
Definition extracted (s : jsstring) : Prop := s <> [] /\ trim s = s.

(** The id that [DELETE /api/videos/<rest>] deletes: the last segment of
    the path. *)
Definition deleted_id (rest : jsstring) : jsstring :=
  List.last (split 47 (lit "/api/videos/" ++ rest)) [].

(** The id that [POST /api/videos/<rest>/schedule] schedules: the
    segment of the path that follows [/api/videos/]. *)
Definition scheduled_id (rest : jsstring) : jsstring :=
  nth 3 (split 47 (lit "/api/videos/" ++ rest ++ lit "/schedule")) [].

(** The draft [POST /api/generate] builds from the body, the generated
    script [g], the two readings of the clock and the random number. *)
Definition draft_of (body : GenerateBody) (g : Generated.t) (now created : Z) (r : Q)
    : Video.t :=
  Video.mk (toString now)
    (Json.written (default Json.null (g_topic body)))
    (Json.written (default (Json.str (lit "Engaging")) (g_tone body)))
    (Json.written (default (Json.number 60) (g_length body)))
    (Json.written (Generated.title g))
    (Generated.hook g) (Generated.script g) (Generated.hashtags g)
    Status.draft created (Json.written (Json.or_null (g_scheduleFor body)))
    (pick r emojis []) None None None.

(** Two drafts under one id: the process has served two requests for a
    script within the same millisecond. *)
Definition twins_connected : World := run lower_ascii same_millisecond connected_world.

Definition twins_unconnected : World :=
  run lower_ascii same_millisecond unconnected_world.

(** ** The service worker (sw.js)

    The cache storage of the browser is an ordered list of named caches
    (in the order of their creation); a cache maps the URL of a GET
    request to the response stored for it.  The network is a function
    from a URL to the response it gives, [None] when the request fails. *)

Module Sw.

Record Page := mkPage { ok : bool; body : jsstring }.

Definition Cache : Type := list (jsstring * Page).
Definition CacheStorage : Type := list (jsstring * Cache).
Definition Network : Type := jsstring -> option Page.

Definition CACHE : jsstring := lit "shortsbot-v2".

Fixpoint is_prefix (p s : jsstring) : bool :=
  match p, s with
  | [], _ => true
  | a :: p', b :: s' => (a =? b)%N && is_prefix p' s'
  | _ :: _, [] => false
  end.

(** [s.includes(p)]. *)
Fixpoint includes (p s : jsstring) : bool :=
  is_prefix p s
  || match s with
     | [] => false
     | _ :: s' => includes p s'
     end.

(** [cache.match(url)]. *)
Fixpoint lookup (url : jsstring) (c : Cache) : option Page :=
  match c with
  | [] => None
  | (u, p) :: c' => if bool_decide (u = url) then Some p else lookup url c'
  end.

(** [caches.match(url)]: the first cache, in the order of creation, that
    holds the URL. *)
Fixpoint match_all (url : jsstring) (cs : CacheStorage) : option Page :=
  match cs with
  | [] => None
  | (_, c) :: cs' =>
      match lookup url c with
      | Some p => Some p
      | None => match_all url cs'
      end
  end.

(** [cache.put(url, page)]: replaces what the cache held for the URL. *)
Definition put (url : jsstring) (page : Page) (c : Cache) : Cache :=
  List.filter (fun e => negb (bool_decide (fst e = url))) c ++ [(url, page)].

Definition has_cache (name : jsstring) (cs : CacheStorage) : bool :=
  existsb (fun e => bool_decide (fst e = name)) cs.

(** [caches.open(name)]: creates the cache when there is none. *)
Definition open (name : jsstring) (cs : CacheStorage) : CacheStorage :=
  if has_cache name cs then cs else cs ++ [(name, [])].

Definition update (name : jsstring) (f : Cache -> Cache) (cs : CacheStorage)
    : CacheStorage :=
  map (fun e => if bool_decide (fst e = name) then (fst e, f (snd e)) else e) cs.

(** What [cache.addAll] accepts: a response with an ok status. *)
Definition fetch_ok (net : Network) (url : jsstring) : option Page :=
  match net url with
  | Some p => if ok p then Some p else None
  | None => None
  end.

(** The URLs the worker precaches, resolved against its origin. *)
Definition precached (origin : jsstring) : list jsstring :=
  [origin ++ lit "/"; origin ++ lit "/index.html"].

(** The install event: [caches.open(CACHE).then(c => c.addAll([...]))].
    [addAll] stores all responses or none; the result tells whether the
    promise given to [waitUntil] is fulfilled. *)
Definition install (origin : jsstring) (net : Network) (cs : CacheStorage)
    : bool * CacheStorage :=
  let cs1 := open CACHE cs in
  match fetch_ok net (origin ++ lit "/"), fetch_ok net (origin ++ lit "/index.html") with
  | Some p1, Some p2 =>
      (true,
       update CACHE (fun c => put (origin ++ lit "/index.html") p2
                                (put (origin ++ lit "/") p1 c)) cs1)
  | _, _ => (false, cs1)
  end.

(** The activate event: every cache whose name is not [CACHE] is deleted. *)
Definition activate (cs : CacheStorage) : CacheStorage :=
  List.filter (fun e => bool_decide (fst e = CACHE)) cs.

(** What the fetch handler does with a request: it returns without
    answering (the browser then goes to the network as usual), or it
    answers with a response, [None] when its promise is rejected. *)
Inductive Handled :=
| PassThrough
| Respond (r : option Page).

Definition on_fetch (net : Network) (cs : CacheStorage) (url : jsstring) : Handled :=
  if includes (lit "/api/") url || includes (lit "/auth/") url then PassThrough
  else Respond (match match_all url cs with
                | Some cached => Some cached
                | None => net url
                end).

(** A network that is down. *)
Definition offline : Network := fun _ => None.

(** A network that serves one page for every URL. *)
Definition serving (page : Page) : Network := fun _ => Some page.

End Sw.

(** * Properties *)

(** ** Token manager *)

Lemma getValidToken_fresh (w : World) (tok : Tokens.t) :
  stored_tokens w = Some tok ->
  clock w < expiry_of tok - 60000 ->
  getValidToken w = (Return (Tokens.access_token tok), w).
Proof.
  unfold stored_tokens, expiry_of, getValidToken, bind, loadDB, loadConfig, Date_now, ret.
  intros Htok Hlt. rewrite Htok.
  apply Z.ltb_lt in Hlt. now rewrite Hlt.
Qed.

Lemma stored_tokens_advance (dt : Z) (w : World) :
  stored_tokens (advance dt w) = stored_tokens w.
Proof. reflexivity. Qed.

(** C1. While the call time is strictly earlier than the stored expiry
    minus 60 seconds, every call of [getValidToken] returns the stored
    access token; however often it is called in that window, no request
    is sent to the identity provider and nothing is written. *)
Theorem getValidToken_within_window (w : World) (tok : Tokens.t) (dts : list Z) :
  stored_tokens w = Some tok ->
  Forall (fun t => t < expiry_of tok - 60000) (call_times (clock w) dts) ->
  fst (poll dts w) = map (fun _ => Return (Tokens.access_token tok)) dts
  /\ sent (snd (poll dts w)) = sent w
  /\ idp (snd (poll dts w)) = idp w
  /\ db_file (snd (poll dts w)) = db_file w
  /\ writes (snd (poll dts w)) = writes w.
Proof.
  revert w. induction dts as [|dt rest IH]; intros w Htok Hall; simpl.
  - now repeat split.
  - simpl in Hall. apply Forall_cons in Hall as [Hnow Hlater].
    rewrite (getValidToken_fresh (advance dt w) tok); [|assumption|exact Hnow].
    specialize (IH (advance dt w) Htok Hlater).
    destruct (poll rest (advance dt w)) as [rs w2]. simpl in *.
    destruct IH as (-> & -> & -> & -> & ->). now repeat split.
Qed.

Lemma getValidToken_within_window_witness :
  let tok := Tokens.mk (Some (lit "old")) (Some (lit "R")) (Some 100000) in
  let w := advance (-40000) short_grant_world in
  let dts := [0; 10000; 19999] in
  (stored_tokens w = Some tok
   /\ Forall (fun t => t < expiry_of tok - 60000) (call_times (clock w) dts))
  /\ fst (poll dts w) = map (fun _ => Return (Tokens.access_token tok)) dts
  /\ sent (snd (poll dts w)) = sent w
  /\ idp (snd (poll dts w)) = idp w
  /\ db_file (snd (poll dts w)) = db_file w
  /\ writes (snd (poll dts w)) = writes w.
Proof.
  intros tok w dts.
  assert (H1 : stored_tokens w = Some tok) by reflexivity.
  assert (H2 : Forall (fun t => t < expiry_of tok - 60000) (call_times (clock w) dts))
    by (repeat constructor).
  split; [split; assumption|].
  exact (getValidToken_within_window w tok dts H1 H2).
Defined.

Lemma getValidToken_refreshes (w : World) (tok : Tokens.t)
    (dt : Z) (err access refresh : option jsstring) (expires_in : option Z)
    (rest : list (Reply TokenBody)) :
  stored_tokens w = Some tok ->
  expiry_of tok - 60000 <= clock w ->
  idp w = (dt, Resolved (TokenObj err access refresh expires_in)) :: rest ->
  truthy_opt err = false ->
  getValidToken w =
    (Return access,
     mkWorld
       (Some (DB.with_tokens
                (Some (Tokens.mk access (Tokens.refresh_token tok)
                         (expiry_from (clock w + dt) expires_in)))
                (default DB.empty (db_file w))))
       (config_file w) (clock w + dt) rest (youtube w) (claude w) (entropy w)
       (ReqRefresh (Tokens.refresh_token tok)
                   (Config.clientId (default Config.empty (config_file w)))
                   (Config.clientSecret (default Config.empty (config_file w)))
        :: sent w)
       (S (writes w)) (drift w) (public w) (engine w)).
Proof.
  unfold stored_tokens, expiry_of, getValidToken, bind, loadDB, loadConfig, Date_now, ret,
    refreshToken, post_token, saveDB.
  intros Htok Hge Hidp Herr. rewrite Htok.
  apply Z.ltb_ge in Hge. rewrite Hge, Hidp. simpl. now rewrite Herr.
Qed.

Lemma getValidToken_rejected (w : World) (tok : Tokens.t)
    (dt : Z) (e : jsstring) (access refresh : option jsstring) (expires_in : option Z)
    (rest : list (Reply TokenBody)) :
  stored_tokens w = Some tok ->
  expiry_of tok - 60000 <= clock w ->
  idp w = (dt, Resolved (TokenObj (Some e) access refresh expires_in)) :: rest ->
  e <> [] ->
  getValidToken w =
    (Throw (lit "Token refresh failed: " ++ e),
     mkWorld (db_file w) (config_file w) (clock w + dt) rest (youtube w) (claude w)
       (entropy w)
       (ReqRefresh (Tokens.refresh_token tok)
                   (Config.clientId (default Config.empty (config_file w)))
                   (Config.clientSecret (default Config.empty (config_file w)))
        :: sent w)
       (writes w) (drift w) (public w) (engine w)).
Proof.
  unfold stored_tokens, expiry_of, getValidToken, bind, loadDB, loadConfig, Date_now, ret,
    refreshToken, post_token, saveDB, throw.
  intros Htok Hge Hidp Hne. rewrite Htok.
  apply Z.ltb_ge in Hge. rewrite Hge, Hidp. simpl.
  destruct e; [congruence | reflexivity].
Qed.

(** C2 (amended). A refresh that the identity provider grants replaces
    [access_token] and [expiry] together, [expiry] becoming the time at
    which the answer arrived plus [expires_in] seconds, keeps the stored
    [refresh_token], and writes the record once; the new expiry is
    strictly later than the old one when the granted lifetime is longer
    than the 60-second buffer (the clock not running backwards while the
    request is under way). *)
Theorem getValidToken_refresh_granted (w : World) (tok : Tokens.t)
    (access : jsstring) (expires_in : Z) :
  stored_tokens w = Some tok ->
  expiry_of tok - 60000 <= clock w ->
  idp_grants w access expires_in ->
  fst (getValidToken w) = Return (Some access)
  /\ stored_tokens (snd (getValidToken w)) =
       Some (Tokens.mk (Some access) (Tokens.refresh_token tok)
               (Some (idp_resume w + expires_in * 1000)))
  /\ writes (snd (getValidToken w)) = S (writes w)
  /\ (60 < expires_in -> clock w <= idp_resume w ->
      expiry_of tok < idp_resume w + expires_in * 1000).
Proof.
  intros Htok Hge (dt & err & refresh & rest & Hidp & Herr).
  rewrite (getValidToken_refreshes w tok dt err (Some access) refresh (Some expires_in) rest)
    by assumption.
  unfold idp_resume. rewrite Hidp. simpl.
  repeat split. lia.
Qed.

Lemma getValidToken_refresh_granted_witness :
  let w := mkWorld
             (Some (DB.mk [] (Some (Tokens.mk (Some (lit "old")) (Some (lit "R")) (Some 100000))) None))
             None 50000
             [(250, Resolved (TokenObj None (Some (lit "new")) None (Some 3599)))]
             [] [] [] [] 0 [] no_files plain_engine in
  let tok := Tokens.mk (Some (lit "old")) (Some (lit "R")) (Some 100000) in
  (stored_tokens w = Some tok
   /\ expiry_of tok - 60000 <= clock w
   /\ idp_grants w (lit "new") 3599)
  /\ fst (getValidToken w) = Return (Some (lit "new"))
  /\ stored_tokens (snd (getValidToken w)) =
       Some (Tokens.mk (Some (lit "new")) (Some (lit "R")) (Some 3649250))
  /\ writes (snd (getValidToken w)) = 1%nat
  /\ (60 < 3599 -> 50000 <= 50250 -> 100000 < 3649250).
Proof.
  intros w tok.
  assert (H1 : stored_tokens w = Some tok) by reflexivity.
  assert (H2 : expiry_of tok - 60000 <= clock w) by (vm_compute; discriminate).
  assert (H3 : idp_grants w (lit "new") 3599).
  { exists 250, None, None, []. repeat split. }
  split; [repeat split; assumption|].
  exact (getValidToken_refresh_granted w tok (lit "new") 3599 H1 H2 H3).
Defined.

(** C2, as stated, fails: the provider grants a lifetime of 30 seconds to
    a process whose stored token expires in 50 seconds; the refresh moves
    the expiry from 100000 back to 80000. *)
Lemma getValidToken_refresh_expiry_backwards :
  let tok := Tokens.mk (Some (lit "old")) (Some (lit "R")) (Some 100000) in
  stored_tokens short_grant_world = Some tok
  /\ expiry_of tok - 60000 <= clock short_grant_world
  /\ idp_grants short_grant_world (lit "new") 30
  /\ stored_tokens (snd (getValidToken short_grant_world)) =
       Some (Tokens.mk (Some (lit "new")) (Some (lit "R")) (Some 80000))
  /\ ~ (100000 < 80000).
Proof.
  cbv zeta. split; [reflexivity|]. split; [vm_compute; discriminate|].
  split; [exists 0, None, None, []; repeat split|].
  split; [reflexivity | lia].
Qed.

(** C3. A refresh that the identity provider answers with an error
    payload fails with the message ["Token refresh failed: "] followed by
    the error, and [data.json] is not written: the token record is the
    one stored before. *)
Theorem getValidToken_refresh_rejected (w : World) (tok : Tokens.t) (e : jsstring) :
  stored_tokens w = Some tok ->
  expiry_of tok - 60000 <= clock w ->
  idp_rejects w e ->
  fst (getValidToken w) = Throw (lit "Token refresh failed: " ++ e)
  /\ db_file (snd (getValidToken w)) = db_file w
  /\ writes (snd (getValidToken w)) = writes w
  /\ stored_tokens (snd (getValidToken w)) = Some tok.
Proof.
  intros Htok Hge (dt & access & refresh & expires_in & rest & Hidp & Hne).
  rewrite (getValidToken_rejected w tok dt e access refresh expires_in rest) by assumption.
  simpl. repeat split. exact Htok.
Qed.

Lemma getValidToken_refresh_rejected_witness :
  let tok := Tokens.mk (Some (lit "old")) (Some (lit "R")) (Some 100000) in
  let w := mkWorld
             (Some (DB.mk [] (Some tok) None)) None 50000
             [(120, Resolved (TokenObj (Some (lit "invalid_grant")) None None None))]
             [] [] [] [] 0 [] no_files plain_engine in
  (stored_tokens w = Some tok
   /\ expiry_of tok - 60000 <= clock w
   /\ idp_rejects w (lit "invalid_grant"))
  /\ fst (getValidToken w) = Throw (lit "Token refresh failed: invalid_grant")
  /\ db_file (snd (getValidToken w)) = db_file w
  /\ writes (snd (getValidToken w)) = writes w
  /\ stored_tokens (snd (getValidToken w)) = Some tok.
Proof.
  intros tok w.
  assert (H1 : stored_tokens w = Some tok) by reflexivity.
  assert (H2 : expiry_of tok - 60000 <= clock w) by (vm_compute; discriminate).
  assert (H3 : idp_rejects w (lit "invalid_grant")).
  { exists 120, None, None, None, []. split; [reflexivity | discriminate]. }
  split; [repeat split; assumption|].
  exact (getValidToken_refresh_rejected w tok (lit "invalid_grant") H1 H2 H3).
Defined.

(** ** Strings *)

Lemma drop_while_nil (p : N -> bool) (s : jsstring) :
  drop_while p s = [] <-> forallb p s = true.
Proof.
  induction s as [|c s IH]; simpl.
  - tauto.
  - destruct (p c); simpl; [exact IH | split; discriminate].
Qed.

Lemma forallb_rev (p : N -> bool) (s : jsstring) :
  forallb p (rev s) = forallb p s.
Proof.
  induction s as [|c s IH]; simpl; [reflexivity|].
  rewrite forallb_app, IH. simpl. rewrite andb_true_r. apply andb_comm.
Qed.

Lemma drop_while_keeps (p : N -> bool) (s : jsstring) :
  forallb p s = false -> forallb p (drop_while p s) = false.
Proof.
  induction s as [|c s IH]; simpl; [discriminate|].
  destruct (p c) eqn:Hc; simpl; [exact IH | now rewrite Hc].
Qed.

(** What is left of a trimmed string is white space only when it is empty. *)
Lemma trim_nil (s : jsstring) :
  trim s = [] <-> forallb is_space s = true.
Proof.
  unfold trim, trimEnd, trimStart. split.
  - intros H. apply (f_equal (@rev N)) in H. rewrite rev_involutive in H. simpl in H.
    apply drop_while_nil in H. rewrite forallb_rev in H.
    destruct (forallb is_space s) eqn:Hs; [reflexivity|].
    apply drop_while_keeps in Hs. congruence.
  - intros H. apply drop_while_nil in H. now rewrite H.
Qed.

Lemma truthy_trim (s : jsstring) :
  truthy (trim s) = negb (forallb is_space s).
Proof.
  destruct (forallb is_space s) eqn:Hs.
  - apply trim_nil in Hs. now rewrite Hs.
  - destruct (trim s) eqn:Ht; [|reflexivity].
    apply trim_nil in Ht. congruence.
Qed.

(** ** Splitting and joining *)

Lemma split_not_nil (sep : N) (s : jsstring) : split sep s <> [].
Proof.
  induction s as [|c s IH]; simpl; [discriminate|].
  destruct (c =? sep)%N; [discriminate|]. now destruct (split sep s).
Qed.

Lemma join_cons (sep : jsstring) (c : N) (t : jsstring) (ts : list jsstring) :
  join sep ((c :: t) :: ts) = c :: join sep (t :: ts).
Proof. destruct ts; reflexivity. Qed.

Lemma join_unfold (sep t : jsstring) (ts : list jsstring) :
  join sep (t :: ts)
  = t ++ match ts with [] => [] | _ :: _ => sep ++ join sep ts end.
Proof. destruct ts; simpl; [now rewrite app_nil_r | reflexivity]. Qed.

(** [s.split(c).slice(0, n).join(c)] is the beginning of [s]. *)
Lemma join_take_split (sep : N) (n : nat) (s : jsstring) :
  join [sep] (take n (split sep s)) `prefix_of` s.
Proof.
  revert n. induction s as [|c s IH]; intros n.
  - destruct n as [|[|n]]; now exists [].
  - destruct n as [|n]; [now exists (c :: s)|].
    cbn [split]. destruct (c =? sep)%N eqn:Hc.
    + apply N.eqb_eq in Hc as ->.
      change (take (S n) ([] :: split sep s)) with ([] :: take n (split sep s)).
      rewrite join_unfold. specialize (IH n).
      destruct (take n (split sep s)) as [|t ts]; [now exists (sep :: s)|].
      destruct IH as [k Hk]. exists k. simpl. now rewrite Hk at 1.
    + destruct (split sep s) as [|t ts] eqn:Hs; [now apply split_not_nil in Hs|].
      specialize (IH (S n)).
      change (take (S n) ((c :: t) :: ts)) with ((c :: t) :: take n ts).
      change (take (S n) (t :: ts)) with (t :: take n ts) in IH.
      rewrite join_cons. destruct IH as [k Hk]. exists k. simpl. now rewrite Hk at 1.
Qed.

Lemma join_split (sep : N) (s : jsstring) : join [sep] (split sep s) = s.
Proof.
  induction s as [|c s IH]; [reflexivity|]. cbn [split].
  destruct (c =? sep)%N eqn:Hc.
  - apply N.eqb_eq in Hc as ->. rewrite join_unfold.
    destruct (split sep s) as [|t ts] eqn:Hs; [now apply split_not_nil in Hs|].
    cbn [app]. now rewrite IH.
  - destruct (split sep s) as [|t ts] eqn:Hs; [now apply split_not_nil in Hs|].
    rewrite join_cons. now rewrite IH.
Qed.

(** No token of [s.split(c)] holds [c]. *)
Lemma split_tokens (sep : N) (s : jsstring) :
  Forall (fun t => sep ∉ t) (split sep s).
Proof.
  induction s as [|c s IH]; simpl.
  - constructor; [apply not_elem_of_nil | constructor].
  - destruct (c =? sep)%N eqn:Hc.
    + constructor; [apply not_elem_of_nil | exact IH].
    + destruct (split sep s) as [|t ts]; [now constructor; [|constructor];
        intros H; apply list_elem_of_singleton in H; subst; rewrite N.eqb_refl in Hc|].
      apply Forall_cons in IH as [Ht Hts]. constructor; [|exact Hts].
      intros H. apply elem_of_cons in H as [->|H]; [now rewrite N.eqb_refl in Hc|].
      now apply Ht.
Qed.

Lemma split_join (sep : N) (parts : list jsstring) :
  parts <> [] -> Forall (fun t => sep ∉ t) parts ->
  split sep (join [sep] parts) = parts.
Proof.
  induction parts as [|t ts IH]; [congruence|]. intros _ Hall.
  apply Forall_cons in Hall as [Ht Hts].
  induction t as [|c t IHt].
  - destruct ts as [|t' ts]; [reflexivity|].
    rewrite join_unfold. cbn [app split]. rewrite N.eqb_refl. f_equal.
    apply IH; [discriminate | exact Hts].
  - rewrite join_cons. cbn [split].
    apply not_elem_of_cons in Ht as [Hc Ht].
    destruct (c =? sep)%N eqn:Hcs; [apply N.eqb_eq in Hcs; congruence|].
    now rewrite (IHt Ht).
Qed.

Lemma route_schedule (toLowerCase : jsstring -> jsstring) (rest : jsstring) :
  route toLowerCase (PostSchedule rest) = api_schedule (scheduled_id rest).
Proof. reflexivity. Qed.

(** The segment that follows [/api/videos/] in the path of a request to
    schedule: the whole of what stands before [/schedule] when that
    holds no ['/']. *)
Lemma first_segment (t : jsstring) : 47%N ∉ t -> scheduled_id t = t.
Proof.
  intros Ht. unfold scheduled_id.
  change (lit "/api/videos/" ++ t ++ lit "/schedule")
    with (join [47%N] [[]; lit "api"; lit "videos"; t; lit "schedule"]).
  rewrite split_join; [reflexivity | discriminate|].
  repeat constructor; try exact Ht;
    intros H; vm_compute in H;
    repeat (apply elem_of_cons in H as [H|H]; [discriminate|]);
    now apply not_elem_of_nil in H.
Qed.

(** ** Scheduler *)

Lemma find_video_Some (videoId : jsstring) (videos : list Video.t) (i : nat) (v : Video.t) :
  find_video videoId videos = Some (i, v) ->
  videos !! i = Some v /\ Video.id v = videoId.
Proof.
  unfold find_video. intros H. apply list_find_Some in H. tauto.
Qed.

Lemma store_saved (db : DB.t) (w : World) : store (saved db w) = DB.videos db.
Proof. reflexivity. Qed.

Lemma scheduleVideoPost_token (videoId : jsstring) (w w1 : World) (i : nat)
    (v : Video.t) (token : option jsstring) :
  find_video videoId (store w) = Some (i, v) ->
  getValidToken w = (Return token, w1) ->
  scheduleVideoPost videoId w =
    let v' := Video.set_scheduled (clock w1) (youtubeMetadata_of v) v in
    (Return v', saved (rescheduled_db i v' w) w1).
Proof.
  intros Hfind Hget.
  unfold scheduleVideoPost, bind, loadDB. unfold store in Hfind. simpl.
  rewrite Hfind. unfold try_catch, bind. now rewrite Hget.
Qed.

Lemma scheduleVideoPost_no_token (videoId : jsstring) (w w1 : World) (i : nat)
    (v : Video.t) (e : jsstring) :
  find_video videoId (store w) = Some (i, v) ->
  getValidToken w = (Throw e, w1) ->
  scheduleVideoPost videoId w =
    (Throw e, saved (rescheduled_db i (Video.set_error e v) w) w1).
Proof.
  intros Hfind Hget.
  unfold scheduleVideoPost, bind, loadDB. unfold store in Hfind. simpl.
  rewrite Hfind. unfold try_catch, bind. now rewrite Hget.
Qed.

Lemma rescheduled_lookup (i : nat) (v v' : Video.t) (w w1 : World) :
  store w !! i = Some v ->
  store (saved (rescheduled_db i v' w) w1) !! i = Some v'.
Proof.
  intros Hi. rewrite store_saved. unfold rescheduled_db. simpl.
  apply list_lookup_insert_eq. now apply lookup_lt_Some in Hi.
Qed.

(** The document written back by [scheduleVideoPost] is the one it loaded
    before asking for a token: a token refreshed during the call is
    written by [getValidToken] and then replaced by the record loaded
    earlier. *)
Remark scheduleVideoPost_writes_back_loaded_tokens (videoId : jsstring) (w : World)
    (i : nat) (v : Video.t) :
  find_video videoId (store w) = Some (i, v) ->
  stored_tokens (snd (scheduleVideoPost videoId w)) = stored_tokens w.
Proof.
  intros Hfind.
  destruct (getValidToken w) as [[token|e] w1] eqn:Hget.
  - now rewrite (scheduleVideoPost_token videoId w w1 i v token Hfind Hget).
  - now rewrite (scheduleVideoPost_no_token videoId w w1 i v e Hfind Hget).
Qed.

Lemma getValidToken_unauthenticated (w : World) :
  stored_tokens w = None ->
  getValidToken w = (Throw (lit "Not authenticated"), w).
Proof.
  unfold stored_tokens, getValidToken, bind, loadDB, loadConfig, throw.
  intros H. now rewrite H.
Qed.

Lemma find_video_insert (videoId : jsstring) (videos : list Video.t) (i : nat)
    (v v' : Video.t) :
  find_video videoId videos = Some (i, v) ->
  Video.id v' = videoId ->
  find_video videoId (<[i := v']> videos) = Some (i, v').
Proof.
  unfold find_video. intros H Hid.
  apply list_find_Some in H as (Hi & _ & Hleast).
  apply list_find_Some. split; [|split; [exact Hid|]].
  - apply list_lookup_insert_eq. now apply lookup_lt_Some in Hi.
  - intros j y Hj Hlt. rewrite list_lookup_insert_ne in Hj by lia.
    now apply (Hleast j y).
Qed.

Lemma find_video_unshadowed (i : nat) (v : Video.t) (videos : list Video.t) :
  videos !! i = Some v ->
  unshadowed (Video.id v) i videos ->
  find_video (Video.id v) videos = Some (i, v).
Proof.
  intros Hi Hun. unfold find_video. apply list_find_Some.
  split; [exact Hi|]. split; [reflexivity|].
  intros j y Hj Hlt. unfold unshadowed in Hun. rewrite Forall_lookup in Hun.
  apply (Hun j y). rewrite lookup_take_lt by exact Hlt. exact Hj.
Qed.

Lemma find_video_shadowed (i : nat) (v : Video.t) (videos : list Video.t) :
  videos !! i = Some v ->
  ~ unshadowed (Video.id v) i videos ->
  exists k u, (k < i)%nat /\ find_video (Video.id v) videos = Some (k, u).
Proof.
  intros Hi Hnot. unfold find_video.
  destruct (list_find (fun u => Video.id u = Video.id v) videos) as [[k u]|] eqn:Hfind.
  - exists k, u. split; [|reflexivity].
    apply list_find_Some in Hfind as (Hk & _ & Hleast).
    destruct (decide (k < i)%nat) as [Hlt|Hge]; [exact Hlt|].
    exfalso. apply Hnot. unfold unshadowed. apply Forall_lookup.
    intros j y Hj. pose proof (lookup_lt_Some _ _ _ Hj) as Hlen.
    rewrite length_take in Hlen.
    rewrite lookup_take_lt in Hj by lia. apply (Hleast j y Hj). lia.
  - exfalso. apply list_find_None in Hfind. rewrite Forall_lookup in Hfind.
    now apply (Hfind i v Hi).
Qed.

(** A draft that follows another one with the same id is out of reach:
    a call on its id rewrites the other one. *)
Lemma scheduleVideoPost_shadowed (w : World) (i : nat) (v : Video.t) :
  store w !! i = Some v ->
  ~ unshadowed (Video.id v) i (store w) ->
  store (snd (scheduleVideoPost (Video.id v) w)) !! i = Some v.
Proof.
  intros Hi Hnot.
  destruct (find_video_shadowed i v (store w) Hi Hnot) as (k & u & Hk & Hfind).
  destruct (getValidToken w) as [[token|e] w1] eqn:Hget.
  - rewrite (scheduleVideoPost_token _ w w1 k u token Hfind Hget). cbv zeta.
    cbn [snd]. rewrite store_saved. unfold rescheduled_db. cbn [DB.videos DB.with_videos].
    rewrite list_lookup_insert_ne by lia. exact Hi.
  - rewrite (scheduleVideoPost_no_token _ w w1 k u e Hfind Hget).
    cbn [snd]. rewrite store_saved. unfold rescheduled_db. cbn [DB.videos DB.with_videos].
    rewrite list_lookup_insert_ne by lia. exact Hi.
Qed.

(** C10 (amended). [scheduleVideoPost] does not look at the status of
    the draft.  For every draft in the list that no earlier draft shares
    its id with, whatever its status, a call on its id that obtains a
    token stores it as [scheduled], stamped with the current time and
    with metadata computed afresh, and a call that obtains none stores
    it as [error] with the message of the failure, which it raises
    again.  A draft that follows one with the same id is left as it is:
    [find] selects the earlier one. *)
Theorem scheduleVideoPost_any_status (w : World) (i : nat) (v : Video.t) (s : Status.t) :
  store w !! i = Some v ->
  Video.status v = s ->
  (unshadowed (Video.id v) i (store w) ->
   (forall token w1, getValidToken w = (Return token, w1) ->
      exists v',
        store (snd (scheduleVideoPost (Video.id v) w)) !! i = Some v'
        /\ Video.status v' = Status.scheduled
        /\ Video.scheduledAt v' = Some (clock w1)
        /\ Video.youtubeMetadata v' = Some (youtubeMetadata_of v))
   /\ (forall e w1, getValidToken w = (Throw e, w1) ->
      exists v',
        fst (scheduleVideoPost (Video.id v) w) = Throw e
        /\ store (snd (scheduleVideoPost (Video.id v) w)) !! i = Some v'
        /\ Video.status v' = Status.error
        /\ Video.error v' = Some e))
  /\ (~ unshadowed (Video.id v) i (store w) ->
      store (snd (scheduleVideoPost (Video.id v) w)) !! i = Some v).
Proof.
  intros Hi _. split; [|now apply scheduleVideoPost_shadowed].
  intros Hun. pose proof (find_video_unshadowed i v (store w) Hi Hun) as Hfind. split.
  - intros token w1 Hget.
    rewrite (scheduleVideoPost_token _ w w1 i v token Hfind Hget). cbv zeta.
    eexists. split; [now apply rescheduled_lookup with (v := v)|].
    repeat split.
  - intros e w1 Hget.
    rewrite (scheduleVideoPost_no_token _ w w1 i v e Hfind Hget).
    eexists. split; [reflexivity|].
    split; [now apply rescheduled_lookup with (v := v)|].
    repeat split.
Qed.

Lemma scheduleVideoPost_any_status_witness :
  let v := Video.set_scheduled 1730000001000 (youtubeMetadata_of cooking_draft)
             cooking_draft in
  (store disconnected_world !! 0%nat = Some v
   /\ Video.status v = Status.scheduled
   /\ unshadowed (Video.id v) 0 (store disconnected_world))
  /\ exists v',
       fst (scheduleVideoPost (Video.id v) disconnected_world)
       = Throw (lit "Not authenticated")
       /\ store (snd (scheduleVideoPost (Video.id v) disconnected_world)) !! 0%nat = Some v'
       /\ Video.status v' = Status.error
       /\ Video.error v' = Some (lit "Not authenticated").
Proof.
  intros v.
  assert (H1 : store disconnected_world !! 0%nat = Some v) by reflexivity.
  assert (H2 : Video.status v = Status.scheduled) by reflexivity.
  assert (H3 : unshadowed (Video.id v) 0 (store disconnected_world)) by constructor.
  split; [exact (conj H1 (conj H2 H3))|].
  destruct (scheduleVideoPost_any_status disconnected_world 0 v Status.scheduled H1 H2)
    as [Hfirst _].
  destruct (Hfirst H3) as [_ Hfail].
  apply (Hfail (lit "Not authenticated") disconnected_world).
  now apply getValidToken_unauthenticated.
Defined.

(** C10, as stated, fails: of two drafts stored under one id the second
    is present in the list, a call on its id obtains a token and
    returns, and the draft is still a [draft]. *)
Lemma shadowed_draft_stays_draft :
  exists v token w1,
    store twins_connected !! 1%nat = Some v
    /\ Video.status v = Status.draft
    /\ getValidToken twins_connected = (Return token, w1)
    /\ (exists v0, fst (scheduleVideoPost (Video.id v) twins_connected) = Return v0)
    /\ store (snd (scheduleVideoPost (Video.id v) twins_connected)) !! 1%nat = Some v
    /\ ~ (exists v',
            store (snd (scheduleVideoPost (Video.id v) twins_connected)) !! 1%nat = Some v'
            /\ Video.status v' = Status.scheduled).
Proof.
  eexists _, _, _. split; [vm_compute; reflexivity|].
  split; [reflexivity|]. split; [vm_compute; reflexivity|].
  split; [eexists; vm_compute; reflexivity|].
  split; [vm_compute; reflexivity|].
  intros (v' & Hv' & Hst). vm_compute in Hv'. injection Hv' as <-. discriminate.
Qed.

Lemma getChannelInfo_result (token : option jsstring) (w : World) :
  getChannelInfo token w
  = match youtube w with
    | (dt, Resolved (ch :: _)) :: _ =>
        (Return (Some (channel_of ch)), snd (get_channels (ReqChannel token) w))
    | (dt, Resolved []) :: _ =>
        (Return None, snd (get_channels (ReqChannel token) w))
    | (dt, Rejected e) :: _ => (Throw e, snd (get_channels (ReqChannel token) w))
    | [] => (Throw unreachable, snd (get_channels (ReqChannel token) w))
    end.
Proof.
  unfold getChannelInfo, bind, get_channels.
  destruct (youtube w) as [|[dt [[|ch items]|e]] rest]; reflexivity.
Qed.

Lemma auth_callback_granted (code error : option jsstring) (w : World) (dt : Z)
    (err access refresh : option jsstring) (expires_in : option Z)
    (rest : list (Reply TokenBody)) :
  truthy_opt error = false ->
  truthy_opt code = true ->
  idp w = (dt, Resolved (TokenObj err access refresh expires_in)) :: rest ->
  truthy_opt err = false ->
  fst (auth_callback code error w) = Return (html (P_location (lit "/?auth=success")))
  /\ stored_tokens (snd (auth_callback code error w))
     = Some (Tokens.mk access refresh (expiry_from (clock w + dt) expires_in))
  /\ store (snd (auth_callback code error w)) = store w
  /\ clock (snd (auth_callback code error w)) = clock w + dt + youtube_latency w
  /\ stored_channel (snd (auth_callback code error w))
     = match youtube w with
       | (_, Resolved (ch :: _)) :: _ => Some (channel_of ch)
       | (_, Resolved []) :: _ => None
       | _ => stored_channel w
       end.
Proof.
  intros Herror Hcode Hidp Herr.
  destruct (auth_callback code error w) as [r w'] eqn:H. cbn [fst snd].
  unfold auth_callback in H. rewrite Herror, Hcode in H. cbn [negb] in H.
  unfold bind at 1 in H. unfold loadConfig at 1 in H.
  unfold exchangeCode, bind at 1 in H.
  unfold post_token in H. rewrite Hidp in H. cbn [settle] in H. rewrite Herr in H.
  unfold bind at 1 in H. unfold loadDB at 1 in H. unfold bind at 1 in H.
  unfold Date_now at 1 in H. unfold bind at 1, try_catch, bind at 1 in H.
  rewrite getChannelInfo_result in H.
  unfold get_channels, youtube_latency, stored_channel, stored_tokens, store in *.
  cbn [youtube clock db_file snd] in H.
  destruct (youtube w) as [|[dt2 [[|ch items]|e]] rest2]; cbn in H;
    injection H as <- <-; cbn; repeat split; lia.
Qed.

(** C4 (amended). For every draft in the list that no earlier draft
    shares its id with: when no token can be obtained,
    [scheduleVideoPost] stores the draft with status [error] and the
    message of the failure, and raises the failure again; the message is
    not empty when the process is not authenticated or the identity
    provider rejected the refresh.  Called again on the same id when a
    token can be obtained, it stores that draft as [scheduled]; a token
    can be obtained once the process has been authenticated (the
    callback is granted a token that outlives the 60-second buffer by
    more than the time spent since it arrived). *)
Theorem scheduleVideoPost_error_then_retry (w w1 : World) (i : nat) (v : Video.t)
    (e : jsstring) :
  store w !! i = Some v ->
  unshadowed (Video.id v) i (store w) ->
  getValidToken w = (Throw e, w1) ->
  fst (scheduleVideoPost (Video.id v) w) = Throw e
  /\ (exists v1,
        store (snd (scheduleVideoPost (Video.id v) w)) !! i = Some v1
        /\ Video.id v1 = Video.id v
        /\ Video.status v1 = Status.error
        /\ Video.error v1 = Some e)
  /\ (stored_tokens w = None
      \/ (exists tok err, stored_tokens w = Some tok
                          /\ expiry_of tok - 60000 <= clock w
                          /\ idp_rejects w err)
      -> e <> [])
  /\ (forall w3 token w4,
        store w3 = store (snd (scheduleVideoPost (Video.id v) w)) ->
        getValidToken w3 = (Return token, w4) ->
        exists v2,
          fst (scheduleVideoPost (Video.id v) w3) = Return v2
          /\ store (snd (scheduleVideoPost (Video.id v) w3)) !! i = Some v2
          /\ Video.id v2 = Video.id v
          /\ Video.status v2 = Status.scheduled)
  /\ (forall wa code dt err access refresh expires_in rest idle,
        store wa = store (snd (scheduleVideoPost (Video.id v) w)) ->
        truthy_opt code = true ->
        idp wa = (dt, Resolved (TokenObj err (Some access) refresh (Some expires_in)))
                 :: rest ->
        truthy_opt err = false ->
        youtube_latency wa + idle < expires_in * 1000 - 60000 ->
        let wb := advance idle (snd (auth_callback code None wa)) in
        exists v2,
          fst (scheduleVideoPost (Video.id v) wb) = Return v2
          /\ store (snd (scheduleVideoPost (Video.id v) wb)) !! i = Some v2
          /\ Video.id v2 = Video.id v
          /\ Video.status v2 = Status.scheduled).
Proof.
  intros Hi Hun Hget.
  pose proof (find_video_unshadowed i v (store w) Hi Hun) as Hfind.
  rewrite (scheduleVideoPost_no_token _ w w1 i v e Hfind Hget).
  assert (Hagain : forall w3 token w4,
            store w3 = store (saved (rescheduled_db i (Video.set_error e v) w) w1) ->
            getValidToken w3 = (Return token, w4) ->
            exists v2,
              fst (scheduleVideoPost (Video.id v) w3) = Return v2
              /\ store (snd (scheduleVideoPost (Video.id v) w3)) !! i = Some v2
              /\ Video.id v2 = Video.id v
              /\ Video.status v2 = Status.scheduled).
  { intros w3 token w4 Hstore Hget3.
    rewrite store_saved in Hstore.
    unfold rescheduled_db in Hstore. cbn [DB.videos DB.with_videos] in Hstore.
    assert (Hfind3 : find_video (Video.id v) (store w3)
                     = Some (i, Video.set_error e v)).
    { rewrite Hstore. now apply find_video_insert with (v := v). }
    rewrite (scheduleVideoPost_token _ w3 w4 i _ token Hfind3 Hget3). cbv zeta.
    apply find_video_Some in Hfind3 as [Hi3 _].
    eexists. split; [reflexivity|].
    split; [now apply rescheduled_lookup with (v := Video.set_error e v)|].
    split; reflexivity. }
  cbn [fst snd].
  split; [reflexivity|]. split; [|split; [|split; [exact Hagain|]]].
  - exists (Video.set_error e v).
    split; [now apply rescheduled_lookup with (v := v)|].
    repeat split.
  - intros [Hnone | (tok & err & Htok & Hexp & Hrej)].
    + rewrite (getValidToken_unauthenticated w Hnone) in Hget.
      injection Hget as <- _. discriminate.
    + destruct Hrej as (dt & access & refresh & expires_in & rest & Hidp & Hne).
      rewrite (getValidToken_rejected w tok dt err access refresh expires_in rest)
        in Hget by assumption.
      injection Hget as <- _. discriminate.
  - intros wa code dt err access refresh expires_in rest idle Hstore Hcode Hidp Herr
      Hlife.
    set (wb := advance idle (snd (auth_callback code None wa))).
    destruct (auth_callback_granted code None wa dt err (Some access) refresh
                (Some expires_in) rest eq_refl Hcode Hidp Herr)
      as (_ & Htok & Hst & Hclock & _).
    apply (Hagain wb (Some access) wb).
    + change (store wb) with (store (snd (auth_callback code None wa))).
      now rewrite Hst.
    + apply (getValidToken_fresh wb _ Htok).
      change (clock wb) with (clock (snd (auth_callback code None wa)) + idle).
      rewrite Hclock. unfold expiry_of. cbn. lia.
Qed.

Lemma scheduleVideoPost_error_then_retry_witness :
  let w := unconnected_world in
  let wf := snd (scheduleVideoPost (Video.id cooking_draft) w) in
  let wb := advance 60000 (snd (auth_callback (Some (lit "4/0Ab")) None wf)) in
  (store w !! 0%nat = Some cooking_draft
   /\ unshadowed (Video.id cooking_draft) 0 (store w)
   /\ getValidToken w = (Throw (lit "Not authenticated"), w))
  /\ fst (scheduleVideoPost (Video.id cooking_draft) w) = Throw (lit "Not authenticated")
  /\ lit "Not authenticated" <> []
  /\ (exists v1, store wf !! 0%nat = Some v1
                 /\ Video.status v1 = Status.error
                 /\ Video.error v1 = Some (lit "Not authenticated"))
  /\ (exists v2, store (snd (scheduleVideoPost (Video.id cooking_draft) wb)) !! 0%nat
                 = Some v2
                 /\ Video.status v2 = Status.scheduled).
Proof.
  intros w wf wb.
  assert (H1 : store w !! 0%nat = Some cooking_draft) by reflexivity.
  assert (H2 : unshadowed (Video.id cooking_draft) 0 (store w)) by constructor.
  assert (H3 : getValidToken w = (Throw (lit "Not authenticated"), w))
    by (vm_compute; reflexivity).
  split; [exact (conj H1 (conj H2 H3))|].
  destruct (scheduleVideoPost_error_then_retry w w 0 cooking_draft _ H1 H2 H3)
    as (Hthrow & (v1 & Hv1 & _ & Hst1 & Herr1) & Hmsg & _ & Hretry).
  split; [exact Hthrow|]. split; [apply Hmsg; left; reflexivity|].
  split; [exists v1; repeat split; assumption|].
  destruct (Hretry wf (Some (lit "4/0Ab")) 300 None (lit "ya29") (Some (lit "R")) 3599 []
              60000)
    as (v2 & _ & Hv2 & _ & Hst2).
  - reflexivity.
  - reflexivity.
  - vm_compute. reflexivity.
  - reflexivity.
  - vm_compute. reflexivity.
  - exists v2. split; assumption.
Defined.

(** C4, as stated, fails, twice over.  Of two drafts stored under one id
    the second is present in the list: a call on its id fails for want
    of a token and the draft is stored as it was, a [draft] without a
    message; once the process is authenticated a call on the same id
    returns, and the draft is still a [draft].  And an authentication
    that succeeds is not enough for the retry: when the token granted
    lives for 30 seconds and the provider rejects the refresh, the call
    that follows the authentication fails again and the draft stays in
    [error]. *)
Lemma error_then_retry_refuted :
  (exists v,
     store twins_unconnected !! 1%nat = Some v
     /\ Video.status v = Status.draft
     /\ Video.error v = None
     /\ fst (scheduleVideoPost (Video.id v) twins_unconnected)
        = Throw (lit "Not authenticated")
     /\ let wf := snd (scheduleVideoPost (Video.id v) twins_unconnected) in
        store wf !! 1%nat = Some v
        /\ ~ (exists v1, store wf !! 1%nat = Some v1 /\ Video.status v1 = Status.error)
        /\ let wb := snd (auth_callback (Some (lit "4/0Ab")) None wf) in
           getValidToken wb = (Return (Some (lit "ya29")), wb)
           /\ (exists v2, fst (scheduleVideoPost (Video.id v) wb) = Return v2)
           /\ store (snd (scheduleVideoPost (Video.id v) wb)) !! 1%nat = Some v)
  /\ (let w := short_lived_world in
      let wf := snd (scheduleVideoPost (Video.id cooking_draft) w) in
      let wb := snd (auth_callback (Some (lit "4/0Ab")) None wf) in
      let wc := snd (scheduleVideoPost (Video.id cooking_draft) wb) in
      store w !! 0%nat = Some cooking_draft
      /\ fst (scheduleVideoPost (Video.id cooking_draft) w) = Throw (lit "Not authenticated")
      /\ fst (auth_callback (Some (lit "4/0Ab")) None wf)
         = Return (html (P_location (lit "/?auth=success")))
      /\ stored_tokens wb
         = Some (Tokens.mk (Some (lit "ya29")) (Some (lit "R")) (Some 1730000035300))
      /\ fst (scheduleVideoPost (Video.id cooking_draft) wb)
         = Throw (lit "Token refresh failed: invalid_grant")
      /\ (exists v2, store wc !! 0%nat = Some v2 /\ Video.status v2 = Status.error)
      /\ ~ (exists v2, store wc !! 0%nat = Some v2 /\ Video.status v2 = Status.scheduled)).
Proof.
  split.
  - eexists. split; [vm_compute; reflexivity|].
    split; [reflexivity|]. split; [reflexivity|].
    split; [vm_compute; reflexivity|].
    cbv zeta. split; [vm_compute; reflexivity|].
    split; [intros (v1 & Hv1 & Hst); vm_compute in Hv1; injection Hv1 as <-; discriminate|].
    split; [vm_compute; reflexivity|].
    split; [eexists; vm_compute; reflexivity | vm_compute; reflexivity].
  - cbv zeta. split; [reflexivity|]. split; [vm_compute; reflexivity|].
    split; [vm_compute; reflexivity|]. split; [vm_compute; reflexivity|].
    split; [vm_compute; reflexivity|].
    split; [eexists; split; [vm_compute; reflexivity | reflexivity]|].
    intros (v2 & Hv2 & Hst). vm_compute in Hv2. injection Hv2 as <-. discriminate.
Qed.

(** ** Script generator *)

Section GeneratorProperties.

Variable toLowerCase : jsstring -> jsstring.

Lemma truthy_api_key (w : World) :
  truthy_opt (Config.claudeApiKey (default Config.empty (config_file w)))
  = truthy (api_key w).
Proof.
  unfold api_key.
  now destruct (Config.claudeApiKey (default Config.empty (config_file w))).
Qed.

Lemma message_content_eq (topic tone length : Json.t) (w : World) :
  message_content topic tone length w
  = match generation_content topic tone length w with
    | Some content => (Return content, w)
    | None => (Throw (lit "Cannot convert object to primitive value"), w)
    end.
Proof.
  unfold message_content, generation_content, bind, template, rounded, ret.
  destruct (ToString (engine w) length); [|reflexivity].
  destruct (ToString (engine w) topic); [|reflexivity].
  destruct (ToString (engine w) tone); reflexivity.
Qed.

Lemma generateScript_eq (topic tone length : Json.t) (w : World) :
  generateScript toLowerCase topic tone length w
  = match (if generation_sends topic tone length w then delivered w else None) with
    | Some text =>
        (Return (parseGeneratedScript text topic), after_attempt topic tone length w)
    | None => localGenerate toLowerCase topic tone length (after_attempt topic tone length w)
    end.
Proof.
  unfold generateScript, after_attempt, generation_sends, generation_request.
  unfold bind at 1. unfold loadConfig at 1. rewrite truthy_api_key.
  destruct (truthy (api_key w)) eqn:Hkey; cbn [andb]; [|reflexivity].
  unfold bind at 1, try_catch, bind at 1. rewrite message_content_eq.
  destruct (generation_content topic tone length w) as [content|]; cbn [andb default];
    [|reflexivity].
  rewrite bool_decide_eq_true_2 by eauto. cbn [andb].
  unfold request_messages. fold (api_key w).
  destruct (legal_header_value (api_key w)); [|reflexivity].
  unfold delivered, post_messages, ret, bind.
  destruct (claude w) as [|[dt [[[|c text]|]|msg]] rest]; reflexivity.
Qed.


(** The local generator leaves the world alone but for the random
    numbers it draws, whatever it is given. *)
Lemma localGenerate_touches (topic tone length : Json.t) (w : World) :
  exists n,
    snd (localGenerate toLowerCase topic tone length w)
    = mkWorld (db_file w) (config_file w) (clock w) (idp w) (youtube w) (claude w)
              (drop n (entropy w)) (sent w) (writes w) (drift w) (public w) (engine w).
Proof.
  unfold localGenerate, bind, template, Math_random, receiver, ret, throw.
  destruct (ToString (engine w) topic) as [text|];
    [|exists 0%nat; destruct w; reflexivity].
  destruct (entropy w) as [|r1 [|r2 rs]] eqn:He; destruct topic; cbn; rewrite ?He;
    cbn;
    first [ exists 0%nat; destruct w; cbn in *; subst; reflexivity
          | exists 1%nat; reflexivity
          | exists 2%nat; reflexivity ].
Qed.

(** Given a string for a topic, the local generator returns. *)
Lemma localGenerate_returns (topic : jsstring) (tone length : Json.t) (w : World) :
  exists g w', localGenerate toLowerCase (Json.str topic) tone length w = (Return g, w').
Proof.
  unfold localGenerate, bind, template, Math_random, receiver, ret.
  cbn [ToString].
  destruct (entropy w) as [|r1 [|r2 rs]] eqn:He; cbn; rewrite ?He; cbn; eauto.
Qed.



(** Given a string for a topic, [generateScript] returns. *)
Lemma generateScript_returns (topic : jsstring) (tone length : Json.t) (w : World) :
  exists g w', generateScript toLowerCase (Json.str topic) tone length w = (Return g, w').
Proof.
  rewrite generateScript_eq.
  destruct (if generation_sends (Json.str topic) tone length w then delivered w else None)
    as [text|]; [eauto|].
  apply localGenerate_returns.
Qed.


End GeneratorProperties.



(** ** What the routes do to the draft list and to the clock *)

Ltac later_tac :=
  unfold later, latencies_ok; simpl;
  intros (Hidp & Hyt & Hcl & Hdr);
  repeat match goal with
         | E : ?l = _ :: _, H : Forall _ ?l |- _ =>
             rewrite E in H; apply Forall_cons in H as [? ?]
         end;
  simpl in *; repeat split; try assumption; try lia; try (apply List.Forall_nil).

Lemma later_refl (w : World) : later w w.
Proof. unfold later. intros H. split; [exact H | lia]. Qed.

Lemma later_trans (w1 w2 w3 : World) : later w1 w2 -> later w2 w3 -> later w1 w3.
Proof.
  unfold later. intros H12 H23 H1.
  destruct (H12 H1) as [H2 Hc12]. destruct (H23 H2) as [H3 Hc23].
  split; [exact H3 | lia].
Qed.

Lemma post_token_effect (rq : Request) (w : World) :
  db_file (snd (post_token rq w)) = db_file w /\ later w (snd (post_token rq w)).
Proof.
  unfold post_token. destruct (idp w) as [|[dt r] rest] eqn:E; simpl.
  - split; [reflexivity|]. later_tac.
  - split; [reflexivity|]. later_tac.
Qed.

Lemma get_channels_effect (rq : Request) (w : World) :
  db_file (snd (get_channels rq w)) = db_file w /\ later w (snd (get_channels rq w)).
Proof.
  unfold get_channels. destruct (youtube w) as [|[dt r] rest] eqn:E; simpl.
  - split; [reflexivity|]. later_tac.
  - split; [reflexivity|]. later_tac.
Qed.

Lemma post_messages_effect (rq : Request) (w : World) :
  db_file (snd (post_messages rq w)) = db_file w /\ later w (snd (post_messages rq w)).
Proof.
  unfold post_messages. destruct (claude w) as [|[dt r] rest] eqn:E; simpl.
  - split; [reflexivity|]. later_tac.
  - split; [reflexivity|]. later_tac.
Qed.

Lemma later_saved (db : DB.t) (w w1 : World) : later w w1 -> later w (saved db w1).
Proof. unfold later, latencies_ok. simpl. tauto. Qed.

Lemma getChannelInfo_effect (token : option jsstring) (w : World) :
  db_file (snd (getChannelInfo token w)) = db_file w
  /\ later w (snd (getChannelInfo token w)).
Proof.
  unfold getChannelInfo, bind.
  pose proof (get_channels_effect (ReqChannel token) w) as H.
  destruct (get_channels (ReqChannel token) w) as [[[|ch items]|e] w1]; exact H.
Qed.

(** [getValidToken] may replace the token record; it never touches the
    draft list. *)
Lemma getValidToken_effect (w : World) :
  store (snd (getValidToken w)) = store w /\ later w (snd (getValidToken w)).
Proof.
  unfold getValidToken, bind, loadDB, loadConfig, Date_now, refreshToken, throw, ret.
  destruct (DB.tokens (default DB.empty (db_file w))) as [tok|]; simpl;
    [|split; [reflexivity | apply later_refl]].
  destruct (clock w <? default 0 (Tokens.expiry tok) - 60000); simpl;
    [split; [reflexivity | apply later_refl]|].
  match goal with |- context [post_token ?rq w] =>
    pose proof (post_token_effect rq w) as [Hdb Hlater];
    destruct (post_token rq w) as [[[|err access refresh expires_in]|e] w1]
  end; simpl in *; unfold store; try (rewrite Hdb; split; [reflexivity | exact Hlater]).
  destruct (truthy_opt err); simpl.
  - rewrite Hdb. split; [reflexivity | exact Hlater].
  - split; [reflexivity|]. now apply (later_saved _ w w1).
Qed.

Lemma scheduleVideoPost_effect (videoId : jsstring) (w : World) :
  store_edit (store w) (store (snd (scheduleVideoPost videoId w)))
  /\ later w (snd (scheduleVideoPost videoId w)).
Proof.
  destruct (find_video videoId (store w)) as [[i v]|] eqn:Hfind.
  - pose proof (find_video_Some _ _ _ _ Hfind) as [Hi _].
    pose proof (getValidToken_effect w) as [_ Hlater].
    destruct (getValidToken w) as [[token|e] w1] eqn:Hget; simpl in Hlater.
    + rewrite (scheduleVideoPost_token videoId w w1 i v token Hfind Hget). cbv zeta.
      cbn [snd]. rewrite store_saved. split; [|now apply later_saved].
      unfold rescheduled_db. simpl. now apply edit_update with (v := v).
    + rewrite (scheduleVideoPost_no_token videoId w w1 i v e Hfind Hget).
      cbn [snd]. rewrite store_saved. split; [|now apply later_saved].
      unfold rescheduled_db. simpl. now apply edit_update with (v := v).
  - unfold scheduleVideoPost, bind, loadDB. unfold store in Hfind. simpl.
    rewrite Hfind. simpl. split; [apply edit_same | apply later_refl].
Qed.

Lemma auth_callback_effect (code error : option jsstring) (w : World) :
  store (snd (auth_callback code error w)) = store w
  /\ later w (snd (auth_callback code error w)).
Proof.
  destruct (auth_callback code error w) as [r w'] eqn:H. cbn [snd].
  unfold auth_callback in H.
  destruct (truthy_opt error);
    [injection H as _ <-; split; [reflexivity | apply later_refl]|].
  destruct (truthy_opt code); cbn [negb] in H;
    [|injection H as _ <-; split; [reflexivity | apply later_refl]].
  unfold bind at 1 in H. unfold loadConfig at 1 in H.
  unfold exchangeCode, bind at 1 in H.
  match type of H with context [post_token ?rq w] =>
    pose proof (post_token_effect rq w) as [Hdb Hlater];
    destruct (post_token rq w) as [[[|err access refresh expires_in]|e] w1]
  end; cbn [snd] in Hdb, Hlater; unfold store;
    try (injection H as _ <-; rewrite Hdb; split; [reflexivity | exact Hlater]).
  destruct (truthy_opt err);
    [injection H as _ <-; rewrite Hdb; split; [reflexivity | exact Hlater]|].
  unfold bind, loadDB, Date_now, try_catch, ret in H.
  pose proof (getChannelInfo_effect access w1) as [Hdb2 Hlater2].
  destruct (getChannelInfo access w1) as [[ch|e] w2]; cbn [snd] in *;
    injection H as _ <-; cbn; (rewrite Hdb; split; [reflexivity|]);
    apply (later_saved _ w w2); now apply later_trans with (w2 := w1).
Qed.

Lemma api_channel_effect (w : World) :
  store (snd (api_channel w)) = store w /\ later w (snd (api_channel w)).
Proof.
  destruct (api_channel w) as [r w'] eqn:H. cbn [snd].
  unfold api_channel, bind at 1 in H. unfold loadDB at 1 in H.
  destruct (DB.tokens (default DB.empty (db_file w)));
    [|injection H as _ <-; split; [reflexivity | apply later_refl]].
  unfold try_catch, bind in H.
  pose proof (getValidToken_effect w) as [Hst Hlater].
  destruct (getValidToken w) as [[token|e] w1]; cbn [snd] in Hst, Hlater;
    [|injection H as _ <-; split; assumption].
  pose proof (getChannelInfo_effect token w1) as [Hdb2 Hlater2].
  destruct (getChannelInfo token w1) as [[ch|e] w2]; cbn [snd] in *;
    injection H as _ <-.
  - split; [reflexivity|]. apply (later_saved _ w w2).
    now apply later_trans with (w2 := w1).
  - unfold store in *. rewrite Hdb2. split; [exact Hst|].
    now apply later_trans with (w2 := w1).
Qed.

Section RouteProperties.

Variable toLowerCase : jsstring -> jsstring.

Lemma after_attempt_effect (topic tone length : Json.t) (w : World) :
  db_file (after_attempt topic tone length w) = db_file w
  /\ later w (after_attempt topic tone length w).
Proof.
  unfold after_attempt. destruct (generation_sends topic tone length w).
  - apply post_messages_effect.
  - split; [reflexivity | apply later_refl].
Qed.

(** Whether it returns or throws, [generateScript] writes nothing. *)
Lemma generateScript_effect (topic tone length : Json.t) (w : World) :
  db_file (snd (generateScript toLowerCase topic tone length w)) = db_file w
  /\ later w (snd (generateScript toLowerCase topic tone length w)).
Proof.
  rewrite generateScript_eq.
  destruct (after_attempt_effect topic tone length w) as [Hdb Hlater].
  destruct (if generation_sends topic tone length w then delivered w else None)
    as [text|]; cbn [snd]; [split; assumption|].
  destruct (localGenerate_touches toLowerCase topic tone length
              (after_attempt topic tone length w)) as [n ->].
  cbn [db_file]. split; [exact Hdb|].
  apply later_trans with (w2 := after_attempt topic tone length w); [exact Hlater|].
  unfold later, latencies_ok. cbn. intros H. split; [exact H | lia].
Qed.

(** A request for a script whose generation fails is answered with the
    failure. *)
Lemma api_generate_throws (body : GenerateBody) (w w1 : World) (e : jsstring) :
  Json.truthy_opt (g_topic body) = true ->
  generateScript toLowerCase (default Json.null (g_topic body))
    (default (Json.str (lit "Engaging")) (g_tone body))
    (default (Json.number 60) (g_length body)) w = (Throw e, w1) ->
  api_generate toLowerCase body w = (Throw e, w1).
Proof.
  intros Htopic Hg. unfold api_generate. rewrite Htopic. cbn [negb].
  unfold bind at 1. now rewrite Hg.
Qed.

(** A request for a script whose generation returns stores the draft
    built from the body, the script, the clock and a random number. *)
Lemma api_generate_returns (body : GenerateBody) (w w1 : World) (g : Generated.t) :
  Json.truthy_opt (g_topic body) = true ->
  generateScript toLowerCase (default Json.null (g_topic body))
    (default (Json.str (lit "Engaging")) (g_tone body))
    (default (Json.number 60) (g_length body)) w = (Return g, w1) ->
  let video := draft_of body g (clock w1) (clock w1 + hd 0 (drift w1))
                 (hd 0%Q (entropy w1)) in
  exists w',
    api_generate toLowerCase body w = (Return (json (P_video video)), w')
    /\ db_file w'
       = Some (DB.with_videos (insert_video video (store w)) (default DB.empty (db_file w)))
    /\ clock w' = clock w1 + hd 0 (drift w1)
    /\ idp w' = idp w1 /\ youtube w' = youtube w1 /\ claude w' = claude w1
    /\ drift w' = drop 1 (drift w1)
    /\ entropy w' = drop 1 (entropy w1).
Proof.
  intros Htopic Hg video.
  pose proof (generateScript_effect (default Json.null (g_topic body))
                (default (Json.str (lit "Engaging")) (g_tone body))
                (default (Json.number 60) (g_length body)) w) as [Hdb _].
  rewrite Hg in Hdb. cbn [snd] in Hdb.
  unfold api_generate. rewrite Htopic. cbn [negb].
  unfold bind at 1. rewrite Hg.
  unfold bind, loadDB, Date_now, elapse, Math_random, saveDB, ret, store.
  subst video. unfold draft_of. rewrite <- Hdb.
  destruct (drift w1) as [|d ds] eqn:Hd; destruct (entropy w1) as [|r rs] eqn:He;
    cbn -[pick emojis insert_video toString]; rewrite ?He, ?Hd;
    cbn -[pick emojis insert_video toString]; rewrite ?Z.add_0_r;
    eexists; (split; [reflexivity|]); repeat split; assumption.
Qed.

Lemma hd_drift (w : World) : latencies_ok w -> 0 <= hd 0 (drift w).
Proof.
  intros (_ & _ & _ & H). destruct (drift w) as [|d ds]; [simpl; lia|].
  now apply Forall_cons in H as [H _].
Qed.

Lemma api_generate_effect (body : GenerateBody) (w : World) :
  (store (snd (api_generate toLowerCase body w)) = store w
   \/ store_insert w (snd (api_generate toLowerCase body w)) (store w)
                   (store (snd (api_generate toLowerCase body w))))
  /\ later w (snd (api_generate toLowerCase body w)).
Proof.
  destruct (Json.truthy_opt (g_topic body)) eqn:Htopic.
  - pose proof (generateScript_effect (default Json.null (g_topic body))
                  (default (Json.str (lit "Engaging")) (g_tone body))
                  (default (Json.number 60) (g_length body)) w) as [Hdb Hlater].
    destruct (generateScript toLowerCase (default Json.null (g_topic body))
                (default (Json.str (lit "Engaging")) (g_tone body))
                (default (Json.number 60) (g_length body)) w) as [[g|e] w1] eqn:Hg;
      cbn [snd] in Hdb, Hlater.
    + destruct (api_generate_returns body w w1 g Htopic Hg)
        as (w' & -> & Hfile & Hclock & Hidp & Hyt & Hcl & Hdr & _).
      cbn [snd].
      assert (Hl : later w w').
      { intros Hok. destruct (Hlater Hok) as [Hok1 Hc1].
        pose proof (hd_drift w1 Hok1) as Hd.
        destruct Hok1 as (H1 & H2 & H3 & H4).
        unfold latencies_ok. rewrite Hidp, Hyt, Hcl, Hdr, Hclock.
        repeat split; try assumption; [now apply Forall_drop | lia]. }
      split; [right | exact Hl].
      exists (clock w1), (draft_of body g (clock w1) (clock w1 + hd 0 (drift w1))
                            (hd 0%Q (entropy w1))).
      split; [|split; [reflexivity|]].
      * intros Hok. destruct (Hlater Hok) as [Hok1 Hc1].
        pose proof (hd_drift w1 Hok1) as Hd. rewrite Hclock. lia.
      * unfold store at 1. now rewrite Hfile.
    + rewrite (api_generate_throws body w w1 e Htopic Hg). cbn [snd].
      split; [left; unfold store; now rewrite Hdb | exact Hlater].
  - unfold api_generate. rewrite Htopic. cbn.
    split; [now left | apply later_refl].
Qed.

Lemma route_effect (rq : Route) (w : World) :
  store_step (Serve rq) w (snd (route toLowerCase rq w)) (store w)
             (store (snd (route toLowerCase rq w)))
  /\ later w (snd (route toLowerCase rq w)).
Proof.
  unfold store_step.
  destruct rq as [|body| |code error| |body| | |id|id|]; cbn [route].
  - split; [left; apply edit_same | apply later_refl].
  - split; [left; apply edit_same|].
    unfold later, latencies_ok; simpl; intros H; split; [exact H | lia].
  - split; [left; apply edit_same | apply later_refl].
  - destruct (auth_callback_effect code error w) as [-> Hlater].
    split; [left; apply edit_same | exact Hlater].
  - split; [left; apply edit_same|].
    unfold later, latencies_ok; simpl; intros H; split; [exact H | lia].
  - destruct (api_generate_effect body w) as [[-> | Hins] Hlater].
    + split; [left; apply edit_same | exact Hlater].
    + split; [right; split; [now exists body | exact Hins] | exact Hlater].
  - split; [left; apply edit_same | apply later_refl].
  - split; [left; apply edit_same | apply later_refl].
  - cbv zeta. destruct (is_image (lit "/api/videos/" ++ id)).
    + unfold serveFile.
      match goal with |- context [public w ?path] => destruct (public w path) end;
        cbn [snd]; (split; [left; apply edit_same | apply later_refl]).
    + split; [left; apply edit_delete|].
      unfold later, latencies_ok; simpl; intros H; split; [exact H | lia].
  - cbv zeta. fold (scheduled_id id). unfold api_schedule, bind.
    pose proof (scheduleVideoPost_effect (scheduled_id id) w) as [Hs Hl].
    destruct (scheduleVideoPost (scheduled_id id) w) as [[v|e] w1];
      (split; [left; exact Hs | exact Hl]).
  - destruct (api_channel_effect w) as [-> Hlater].
    split; [left; apply edit_same | exact Hlater].
Qed.

Lemma step_effect (ev : Event) (w : World) :
  store_step ev w (step toLowerCase ev w) (store w) (store (step toLowerCase ev w))
  /\ (match ev with Tick dt => 0 <= dt | Serve _ => True end ->
      later w (step toLowerCase ev w)).
Proof.
  destruct ev as [rq|dt]; simpl.
  - unfold handle. pose proof (route_effect rq w) as [Hs Hl].
    destruct (route toLowerCase rq w) as [[r|e] w1]; simpl in *; auto.
  - split; [left; apply edit_same|].
    intros Hdt. unfold later, latencies_ok. simpl. intros H. split; [exact H | lia].
Qed.

End RouteProperties.

(** ** The draft list is bounded *)

Lemma insert_video_take (video : Video.t) (videos : list Video.t) :
  insert_video video videos = take 50 (video :: videos).
Proof.
  unfold insert_video. cbv zeta.
  destruct (50 <? length (video :: videos))%nat eqn:Hlen; [reflexivity|].
  apply Nat.ltb_ge in Hlen. symmetry. now apply take_ge.
Qed.

Lemma insert_video_length (video : Video.t) (videos : list Video.t) :
  (length (insert_video video videos) <= 50)%nat.
Proof. rewrite insert_video_take, length_take. lia. Qed.

Lemma insert_video_full (video : Video.t) (videos : list Video.t) :
  length videos = 50%nat ->
  insert_video video videos = video :: removelast videos.
Proof.
  intros Hlen. rewrite insert_video_take.
  change (take 50 (video :: videos)) with (video :: take 49 videos).
  f_equal. rewrite removelast_firstn_len, Hlen. reflexivity.
Qed.

Lemma store_step_length (ev : Event) (w w' : World) (vs vs' : list Video.t) :
  store_step ev w w' vs vs' -> (length vs <= 50)%nat -> (length vs' <= 50)%nat.
Proof.
  intros [[|id|i v v' Hi Hid] | [_ (t & v & _ & _ & ->)]] Hlen.
  - exact Hlen.
  - pose proof (filter_length_le (fun v => negb (bool_decide (Video.id v = id))) vs). lia.
  - now rewrite length_insert.
  - apply insert_video_length.
Qed.

Section StoreProperties.

Variable toLowerCase : jsstring -> jsstring.

(** A request for a script that returns a draft has stored it. *)
Lemma api_generate_inserts (body : GenerateBody) (w : World) (video : Video.t) :
  fst (api_generate toLowerCase body w) = Return (json (P_video video)) ->
  store (snd (api_generate toLowerCase body w)) = insert_video video (store w)
  /\ Video.status video = Status.draft
  /\ stored_tokens (snd (api_generate toLowerCase body w)) = stored_tokens w
  /\ stored_channel (snd (api_generate toLowerCase body w)) = stored_channel w
  /\ exists t, Video.id video = toString t.
Proof.
  intros Hret.
  destruct (Json.truthy_opt (g_topic body)) eqn:Htopic.
  - destruct (generateScript toLowerCase (default Json.null (g_topic body))
                (default (Json.str (lit "Engaging")) (g_tone body))
                (default (Json.number 60) (g_length body)) w) as [[g|e] w1] eqn:Hg.
    + destruct (api_generate_returns toLowerCase body w w1 g Htopic Hg)
        as (w' & Heq & Hfile & _).
      rewrite Heq in Hret |- *. cbn [fst snd] in *. injection Hret as <-.
      unfold store at 1, stored_tokens at 1, stored_channel at 1. rewrite Hfile.
      repeat split. eexists. reflexivity.
    + rewrite (api_generate_throws toLowerCase body w w1 e Htopic Hg) in Hret.
      discriminate.
  - unfold api_generate in Hret. rewrite Htopic in Hret. discriminate.
Qed.

(** A request for a script on a topic that is a string, not empty,
    returns a draft. *)
Lemma api_generate_string (body : GenerateBody) (w : World) (topic : jsstring) :
  g_topic body = Some (Json.str topic) -> topic <> [] ->
  exists video, fst (api_generate toLowerCase body w) = Return (json (P_video video)).
Proof.
  intros Hbody Hne.
  assert (Htopic : Json.truthy_opt (g_topic body) = true).
  { rewrite Hbody. now destruct topic. }
  destruct (generateScript_returns toLowerCase topic
              (default (Json.str (lit "Engaging")) (g_tone body))
              (default (Json.number 60) (g_length body)) w) as (g & w1 & Hg).
  assert (Hg' : generateScript toLowerCase (default Json.null (g_topic body))
                  (default (Json.str (lit "Engaging")) (g_tone body))
                  (default (Json.number 60) (g_length body)) w = (Return g, w1))
    by now rewrite Hbody.
  destruct (api_generate_returns toLowerCase body w w1 g Htopic Hg') as (w' & Heq & _).
  rewrite Heq. eauto.
Qed.

Lemma run_cons (ev : Event) (evs : list Event) (w : World) :
  run toLowerCase (ev :: evs) w = run toLowerCase evs (step toLowerCase ev w).
Proof. reflexivity. Qed.

Lemma run_length (evs : list Event) (w : World) :
  (length (store w) <= 50)%nat ->
  (length (store (run toLowerCase evs w)) <= 50)%nat.
Proof.
  revert w. induction evs as [|ev evs IH]; intros w Hlen; [exact Hlen|].
  rewrite run_cons. apply IH.
  destruct (step_effect toLowerCase ev w) as [Hstep _].
  now apply (store_step_length _ _ _ _ _ Hstep).
Qed.

(** C6. Whatever the server is asked to do, the draft list never holds
    more than 50 entries.  A request for a script that returns a draft
    has put it at position 0 and kept the first 50 entries of the
    result: on a list of 50 it has dropped the last, which is the
    oldest, and only that one.  A request whose topic is a string, not
    empty, returns a draft. *)
Theorem store_at_most_50 (evs : list Event) (w : World) :
  (length (store w) <= 50)%nat ->
  (length (store (run toLowerCase evs w)) <= 50)%nat
  /\ (forall body w0 video,
        fst (api_generate toLowerCase body w0) = Return (json (P_video video)) ->
        store (snd (api_generate toLowerCase body w0)) = take 50 (video :: store w0)
        /\ store (snd (api_generate toLowerCase body w0)) !! 0%nat = Some video
        /\ ((length (store w0) < 50)%nat ->
            store (snd (api_generate toLowerCase body w0)) = video :: store w0)
        /\ (length (store w0) = 50%nat ->
            store (snd (api_generate toLowerCase body w0))
            = video :: removelast (store w0)))
  /\ (forall body w0 topic,
        g_topic body = Some (Json.str topic) -> topic <> [] ->
        exists video,
          fst (api_generate toLowerCase body w0) = Return (json (P_video video))).
Proof.
  intros Hlen. split; [now apply run_length|]. split; [|apply api_generate_string].
  intros body w0 video Hret.
  destruct (api_generate_inserts body w0 video Hret) as (Hstore & _).
  rewrite Hstore.
  split; [apply insert_video_take|].
  split; [now rewrite insert_video_take|]. split.
  - intros Hlt. rewrite insert_video_take. apply take_ge. simpl. lia.
  - apply insert_video_full.
Qed.

End StoreProperties.

Lemma store_at_most_50_witness :
  let evs := paced_requests 51 in
  (length (store fresh_world) <= 50)%nat
  /\ (length (store (run lower_ascii evs fresh_world)) <= 50)%nat.
Proof.
  intros evs.
  assert (H : (length (store fresh_world) <= 50)%nat) by (simpl; lia).
  split; [exact H|].
  exact (proj1 (store_at_most_50 lower_ascii evs fresh_world H)).
Defined.

(** Fifty-one drafts are requested; the list holds the fifty latest, the
    newest first, and the first one is gone. *)
Example fifty_first_evicts_oldest :
  map Video.id (store (run lower_ascii (paced_requests 50) fresh_world))
    = map (fun k => toString (1730000000000 + 1000 * Z.of_nat (50 - k))) (seq 0 50)
  /\ map Video.id (store (run lower_ascii (paced_requests 51) fresh_world))
    = map (fun k => toString (1730000000000 + 1000 * Z.of_nat (51 - k))) (seq 0 50).
Proof. split; vm_compute; reflexivity. Qed.

(** ** Ids of drafts *)

Lemma lit_inj (s1 s2 : string) : lit s1 = lit s2 -> s1 = s2.
Proof.
  unfold lit. intros H.
  rewrite <- (string_of_list_ascii_of_string s1), <- (string_of_list_ascii_of_string s2).
  f_equal. revert H. generalize (list_ascii_of_string s2).
  induction (list_ascii_of_string s1) as [|a l1 IH]; intros [|b l2] H;
    try discriminate; [reflexivity|].
  injection H as Hab Hl. f_equal; [|now apply IH].
  rewrite <- (ascii_N_embedding a), <- (ascii_N_embedding b). now f_equal.
Qed.

Lemma to_int_proper (n : Z) :
  Z.to_int n <> Decimal.Pos Decimal.Nil /\ Z.to_int n <> Decimal.Neg Decimal.Nil.
Proof.
  destruct n as [|p|p]; simpl; split; try discriminate;
    intros [= H]; now apply (Unsigned.to_uint_nonnil p).
Qed.

(** Two instants that render the same are the same. *)
Lemma toString_inj (a b : Z) : toString a = toString b -> a = b.
Proof.
  unfold toString. intros H. apply lit_inj in H.
  apply DecimalZ.to_int_inj.
  destruct (to_int_proper a) as [Ha1 Ha2]. destruct (to_int_proper b) as [Hb1 Hb2].
  pose proof (NilZero.isi (Z.to_int a) Ha1 Ha2) as Ea.
  pose proof (NilZero.isi (Z.to_int b) Hb1 Hb2) as Eb.
  rewrite H in Ea. congruence.
Qed.

Lemma ids_insert (vs : list Video.t) (i : nat) (v v' : Video.t) :
  vs !! i = Some v -> Video.id v' = Video.id v -> ids (<[i := v']> vs) = ids vs.
Proof.
  revert i. induction vs as [|x vs IH]; intros [|i] Hi Hid; simpl in *;
    try discriminate.
  - injection Hi as ->. now rewrite Hid.
  - f_equal. now apply IH.
Qed.

Lemma ids_filter (p : Video.t -> bool) (vs : list Video.t) :
  ids (List.filter p vs) `sublist_of` ids vs.
Proof.
  induction vs as [|x vs IH]; simpl; [constructor|].
  destruct (p x); simpl; now constructor.
Qed.

Lemma ids_insert_video (v : Video.t) (vs : list Video.t) :
  ids (insert_video v vs) `sublist_of` (Video.id v :: ids vs).
Proof.
  rewrite insert_video_take. unfold ids. rewrite <- firstn_map.
  apply sublist_take.
Qed.

Lemma store_edit_ids (vs vs' : list Video.t) :
  store_edit vs vs' -> ids vs' `sublist_of` ids vs.
Proof.
  intros [|id|i v v' Hi Hid].
  - reflexivity.
  - apply ids_filter.
  - now rewrite (ids_insert vs i v v').
Qed.

Lemma Forall_sublist_of {A} (P : A -> Prop) (l1 l2 : list A) :
  l1 `sublist_of` l2 -> Forall P l2 -> Forall P l1.
Proof.
  intros Hsub Hall. apply Forall_forall. intros x Hx.
  rewrite Forall_forall in Hall. apply Hall. eapply elem_of_sublist; eassumption.
Qed.

Section IdProperties.

Variable toLowerCase : jsstring -> jsstring.

(** One event keeps the ids apart and dated, provided a request for a
    script is served at an instant later than those of the ids. *)
Lemma step_ids (ev : Event) (ticked : bool) (w : World) :
  match ev with
  | Tick dt => 0 <= dt
  | Serve (PostGenerate _) => ticked = true
  | Serve _ => True
  end ->
  latencies_ok w -> NoDup (ids (store w)) -> ids_dated ticked w ->
  let ticked' := match ev with
                 | Tick dt => ticked || (0 <? dt)
                 | Serve (PostGenerate _) => false
                 | Serve _ => ticked
                 end in
  latencies_ok (step toLowerCase ev w)
  /\ NoDup (ids (store (step toLowerCase ev w)))
  /\ ids_dated ticked' (step toLowerCase ev w).
Proof.
  intros Hev Hlat Hnd Hdated. cbv zeta.
  destruct (step_effect toLowerCase ev w) as [Hstep Hlater].
  assert (Hl : later w (step toLowerCase ev w)).
  { apply Hlater. destruct ev as [rq|dt]; [exact I | exact Hev]. }
  destruct (Hl Hlat) as [Hlat' Hclock]. split; [exact Hlat'|].
  unfold ids_dated in *.
  destruct Hstep as [Hedit | [[body ->] (t0 & v & Hwhen & Hid & Hstore)]].
  - apply store_edit_ids in Hedit. split; [now apply (sublist_NoDup _ _ Hnd)|].
    apply (Forall_sublist_of _ _ _ Hedit).
    eapply Forall_impl; [exact Hdated|]. cbv beta.
    intros id (t & -> & Ht). exists t. split; [reflexivity|].
    destruct ev as [rq|dt].
    + destruct rq; simpl in Hev; try subst ticked; try lia; destruct ticked; lia.
    + cbn [step advance clock] in *. destruct ticked; simpl; [lia|].
      destruct (0 <? dt) eqn:Hdt; [apply Z.ltb_lt in Hdt; lia | lia].
  - simpl in Hev. subst ticked. rewrite Hstore.
    destruct (Hwhen Hlat) as [Hlo Hhi].
    assert (Hfresh : Video.id v ∉ ids (store w)).
    { intros Hin. rewrite Forall_forall in Hdated.
      destruct (Hdated _ Hin) as (t & Ht & Hlt).
      rewrite Hid in Ht. apply toString_inj in Ht. lia. }
    split.
    + apply (sublist_NoDup _ (Video.id v :: ids (store w)));
        [now apply NoDup_cons | apply ids_insert_video].
    + apply (Forall_sublist_of _ _ _ (ids_insert_video v (store w))).
      constructor; [exists t0; split; [exact Hid | lia]|].
      eapply Forall_impl; [exact Hdated|]. cbv beta.
      intros id (t & -> & Ht). exists t. split; [reflexivity | lia].
Qed.

(** C9 (amended). The id of a draft is the decimal rendering of the
    clock at its creation.  As long as every request for a script is
    served after the clock has moved on since the previous one, the ids
    in the draft list are pairwise distinct, whatever else the server is
    asked to do in between. *)
Theorem ids_unique_when_paced (evs : list Event) (ticked : bool) (w : World) :
  paced ticked evs ->
  latencies_ok w ->
  NoDup (ids (store w)) ->
  ids_dated ticked w ->
  NoDup (ids (store (run toLowerCase evs w))).
Proof.
  revert ticked w. induction evs as [|ev evs IH]; intros ticked w Hp Hlat Hnd Hd;
    [exact Hnd|].
  rewrite run_cons.
  destruct ev as [rq|dt].
  - destruct rq; cbn [paced] in Hp;
      match goal with
      | |- context [step toLowerCase (Serve (PostGenerate ?b)) w] =>
          destruct Hp as [Ht Hp];
          destruct (step_ids (Serve (PostGenerate b)) ticked w Ht Hlat Hnd Hd)
            as (H1 & H2 & H3);
          exact (IH false _ Hp H1 H2 H3)
      | |- context [step toLowerCase (Serve ?rq) w] =>
          destruct (step_ids (Serve rq) ticked w I Hlat Hnd Hd) as (H1 & H2 & H3);
          exact (IH ticked _ Hp H1 H2 H3)
      end.
  - cbn [paced] in Hp. destruct Hp as [Hdt Hp].
    destruct (step_ids (Tick dt) ticked w Hdt Hlat Hnd Hd) as (H1 & H2 & H3).
    exact (IH _ _ Hp H1 H2 H3).
Qed.

End IdProperties.

Lemma ids_unique_when_paced_witness :
  let evs := paced_requests 3 ++ [Serve (DeleteVideo (lit "1730000002000"))] in
  (paced false evs
   /\ latencies_ok fresh_world
   /\ NoDup (ids (store fresh_world))
   /\ ids_dated false fresh_world)
  /\ NoDup (ids (store (run lower_ascii evs fresh_world))).
Proof.
  intros evs.
  assert (H1 : paced false evs) by (simpl; repeat split; lia).
  assert (H2 : latencies_ok fresh_world) by (repeat split; apply List.Forall_nil).
  assert (H3 : NoDup (ids (store fresh_world))) by constructor.
  assert (H4 : ids_dated false fresh_world) by apply List.Forall_nil.
  split; [exact (conj H1 (conj H2 (conj H3 H4)))|].
  exact (ids_unique_when_paced lower_ascii evs false fresh_world H1 H2 H3 H4).
Defined.

(** C9, as stated, fails: two requests for a script served within the
    same millisecond store two drafts under one id. *)
Lemma same_millisecond_same_id :
  exists v1 v2,
    store (run lower_ascii same_millisecond fresh_world) = [v1; v2]
    /\ Video.topic v1 <> Video.topic v2
    /\ Video.id v1 = Video.id v2
    /\ ~ NoDup (ids (store (run lower_ascii same_millisecond fresh_world))).
Proof.
  eexists _, _. split; [vm_compute; reflexivity|].
  split; [discriminate|]. split; [reflexivity|].
  intros Hnd. vm_compute in Hnd.
  apply NoDup_cons in Hnd as [Hnotin _]. apply Hnotin. left.
Qed.

(** ** The patterns of [parseGeneratedScript] *)

Lemma run_lits (cs : list (N -> bool)) (p : list Re.item) (s : jsstring)
    (cap : option jsstring) :
  Re.run (map Re.Chr cs ++ p) s cap
  = if Re.starts cs s then Re.run p (drop (length cs) s) cap else None.
Proof.
  revert s. induction cs as [|c cs IH]; intros s; [reflexivity|].
  destruct s as [|x s]; [reflexivity|]. cbn [map app Re.run Re.starts length drop].
  destruct (c x); [apply IH | reflexivity].
Qed.

(** A greedy repetition whose continuation accepts anything takes all it can. *)
Lemma many_greedy_total {R} (c : N -> bool) (got s : jsstring) (f : jsstring -> R) :
  Re.many_greedy c got s (fun g _ => Some (f g)) = Some (f (got ++ take_while c s)).
Proof.
  revert got. induction s as [|x s IH]; intros got; simpl.
  - now rewrite app_nil_r.
  - destruct (c x).
    + rewrite IH. now rewrite <- app_assoc.
    + now rewrite app_nil_r.
Qed.

(** A greedy repetition stops where the class stops, if the continuation
    accepts there. *)
Lemma many_greedy_skip {R} (c : N -> bool) (got pre post : jsstring)
    (k : jsstring -> jsstring -> option R) (r : R) :
  forallb c pre = true ->
  match post with [] => True | x :: _ => c x = false end ->
  k (got ++ pre) post = Some r ->
  Re.many_greedy c got (pre ++ post) k = Some r.
Proof.
  revert got. induction pre as [|a pre IH]; intros got Hpre Hpost Hk; simpl in *.
  - rewrite app_nil_r in Hk. destruct post as [|x post]; [exact Hk|].
    simpl. now rewrite Hpost.
  - apply andb_true_iff in Hpre as [Ha Hpre]. rewrite Ha.
    rewrite (IH (got ++ [a])); [reflexivity | exact Hpre | exact Hpost|].
    now rewrite <- app_assoc.
Qed.

(** Whatever a greedy repetition returns, its continuation returned it
    after some prefix within the class. *)
Lemma many_greedy_origin {R} (c : N -> bool) (got s : jsstring)
    (k : jsstring -> jsstring -> option R) (r : R) :
  Re.many_greedy c got s k = Some r ->
  exists pre post, s = pre ++ post /\ forallb c pre = true /\ k (got ++ pre) post = Some r.
Proof.
  revert got. induction s as [|x s IH]; intros got H; simpl in H.
  - exists [], []. rewrite (app_nil_r got). repeat split. exact H.
  - destruct (c x) eqn:Hx.
    + destruct (Re.many_greedy c (got ++ [x]) s k) as [r'|] eqn:Hrec.
      * injection H as ->. destruct (IH _ Hrec) as (pre & post & -> & Hpre & Hk).
        exists (x :: pre), post. simpl. rewrite Hx, Hpre.
        rewrite <- app_assoc in Hk. repeat split. exact Hk.
      * exists [], (x :: s). rewrite (app_nil_r got). repeat split. exact H.
    + exists [], (x :: s). rewrite (app_nil_r got). repeat split. exact H.
Qed.

(** The lazy repetition of [re_script] stops at the first ["HASHTAGS:"],
    or at the end. *)
Lemma many_lazy_until (got s : jsstring) :
  Re.many_lazy is_any got s
    (fun g rest => Re.run [Re.Ahead [Re.ALit (Re.ci_lit "HASHTAGS:"); Re.AEnd]] rest (Some g))
  = Some (Some (got ++ until_hashtags s)).
Proof.
  revert got. induction s as [|x s IH]; intros got.
  - simpl. now rewrite app_nil_r.
  - cbn [Re.many_lazy Re.run existsb Re.looks until_hashtags].
    destruct (Re.starts (Re.ci_lit "HASHTAGS:") (x :: s)); cbn [orb].
    + now rewrite app_nil_r.
    + cbn [is_any]. rewrite IH. now rewrite <- app_assoc.
Qed.

Lemma take_while_forallb (p q : N -> bool) (s : jsstring) :
  forallb p s = true -> forallb p (take_while q s) = true.
Proof.
  induction s as [|x s IH]; simpl; [reflexivity|].
  intros H. apply andb_true_iff in H as [Hx Hs].
  destruct (q x); simpl; [now rewrite Hx, IH | reflexivity].
Qed.

Lemma until_hashtags_forallb (p : N -> bool) (s : jsstring) :
  forallb p s = true -> forallb p (until_hashtags s) = true.
Proof.
  induction s as [|x s IH]; intros H.
  - reflexivity.
  - cbn [until_hashtags]. destruct (Re.starts _ _); [reflexivity|].
    simpl in *. apply andb_true_iff in H as [Hx Hs]. now rewrite Hx, IH.
Qed.

Lemma take_drop_while (p : N -> bool) (s : jsstring) :
  s = take_while p s ++ drop_while p s.
Proof.
  induction s as [|x s IH]; simpl; [reflexivity|].
  destruct (p x); simpl; [now f_equal | reflexivity].
Qed.

Lemma take_while_all (p : N -> bool) (s : jsstring) :
  forallb p (take_while p s) = true.
Proof.
  induction s as [|x s IH]; simpl; [reflexivity|].
  destruct (p x) eqn:Hx; simpl; [now rewrite Hx | reflexivity].
Qed.

Lemma drop_while_head (p : N -> bool) (s r : jsstring) (c : N) :
  drop_while p s = c :: r -> p c = false.
Proof.
  induction s as [|x s IH]; simpl; [discriminate|].
  destruct (p x) eqn:Hx; [exact IH | congruence].
Qed.

Lemma not_space_is_dot (c : N) : is_space c = false -> is_dot c = true.
Proof.
  unfold is_space, is_dot. intros H. apply orb_false_iff in H as [_ ->]. reflexivity.
Qed.

Lemma forallb_drop (p : N -> bool) (n : nat) (s : jsstring) :
  forallb p s = true -> forallb p (drop n s) = true.
Proof.
  revert s. induction n as [|n IH]; intros [|x s] H; simpl in *; try assumption.
  apply andb_true_iff in H as [_ H]. now apply IH.
Qed.

Lemma trim_keeps_head (c : N) (r : jsstring) :
  is_space c = false -> truthy (trim (c :: r)) = true.
Proof. intros Hc. rewrite truthy_trim. simpl. now rewrite Hc. Qed.

Lemma search_step (p : list Re.item) (s : jsstring) :
  Re.search p s
  = match Re.run p s None with
    | Some cap => Some cap
    | None => match s with [] => None | _ :: s' => Re.search p s' end
    end.
Proof. destruct s; reflexivity. Qed.

Lemma after_label_step (cs : list (N -> bool)) (text : jsstring) :
  after_label cs text
  = if Re.starts cs text then Some (drop (length cs) text)
    else match text with [] => None | _ :: text' => after_label cs text' end.
Proof. destruct text; reflexivity. Qed.

(** A pattern made of a label and a tail that skips white space and then
    captures: what [field_or] makes of its match is the labelled field. *)
Section LabelledField.

Variable cs : list (N -> bool).
Variable tail : list Re.item.
Variable capture : jsstring -> jsstring.

Hypothesis tail_blank :
  forall x r, forallb is_space x = true -> Re.run tail x None = Some r ->
              exists g, r = Some g /\ forallb is_space g = true.
Hypothesis tail_rest :
  forall x c r, drop_while is_space x = c :: r ->
                Re.run tail x None = Some (Some (capture (c :: r))).
Hypothesis capture_head :
  forall c r, is_space c = false -> exists r', capture (c :: r) = c :: r'.

Lemma search_blank (s d : jsstring) :
  forallb is_space (drop (length cs) s) = true ->
  field_or (Re.search (map Re.Chr cs ++ tail) s) d = d.
Proof.
  induction s as [|x s IH]; intros Hblank; rewrite search_step, run_lits.
  - destruct (Re.starts cs []); [|reflexivity].
    destruct (Re.run tail (drop (length cs) []) None) as [r|] eqn:Hrun; [|reflexivity].
    destruct (tail_blank _ _ Hblank Hrun) as (g & -> & Hg).
    unfold field_or. cbn [Re.group1]. apply trim_nil in Hg. now rewrite Hg.
  - assert (Hnext : field_or (Re.search (map Re.Chr cs ++ tail) s) d = d).
    { apply IH. change s with (drop 1 (x :: s)). rewrite drop_drop.
      replace (1 + length cs)%nat with (length cs + 1)%nat by lia.
      rewrite <- drop_drop. now apply forallb_drop. }
    destruct (Re.starts cs (x :: s)); [|exact Hnext].
    destruct (Re.run tail (drop (length cs) (x :: s)) None) as [r|] eqn:Hrun;
      [|exact Hnext].
    destruct (tail_blank _ _ Hblank Hrun) as (g & -> & Hg).
    unfold field_or. cbn [Re.group1]. apply trim_nil in Hg. now rewrite Hg.
Qed.

Lemma search_labelled (text d : jsstring) :
  field_or (Re.search (map Re.Chr cs ++ tail) text) d = labelled cs capture text d.
Proof.
  unfold labelled.
  induction text as [|x text IH]; rewrite after_label_step.
  - destruct (Re.starts cs []) eqn:Hstarts.
    + destruct (drop_while is_space (drop (length cs) [])) as [|c r] eqn:Hrest.
      * apply search_blank. now apply drop_while_nil.
      * rewrite search_step, run_lits, Hstarts, (tail_rest _ c r Hrest).
        unfold field_or. cbn [Re.group1].
        pose proof (drop_while_head _ _ _ _ Hrest) as Hc.
        destruct (capture_head c r Hc) as [r' ->]. unfold or_else.
        now rewrite (trim_keeps_head c r' Hc).
    + rewrite search_step, run_lits, Hstarts. reflexivity.
  - destruct (Re.starts cs (x :: text)) eqn:Hstarts.
    + destruct (drop_while is_space (drop (length cs) (x :: text))) as [|c r] eqn:Hrest.
      * apply search_blank. now apply drop_while_nil.
      * rewrite search_step, run_lits, Hstarts, (tail_rest _ c r Hrest).
        unfold field_or. cbn [Re.group1].
        pose proof (drop_while_head _ _ _ _ Hrest) as Hc.
        destruct (capture_head c r Hc) as [r' ->]. unfold or_else.
        now rewrite (trim_keeps_head c r' Hc).
    + rewrite search_step, run_lits, Hstarts. exact IH.
Qed.

End LabelledField.

Lemma line_tail_blank (x : jsstring) (r : option jsstring) :
  forallb is_space x = true ->
  Re.run [Re.StarG is_space; Re.PlusG is_dot] x None = Some r ->
  exists g, r = Some g /\ forallb is_space g = true.
Proof.
  intros Hx Hrun. cbn [Re.run] in Hrun.
  apply many_greedy_origin in Hrun as (pre & post & -> & _ & Hk).
  rewrite forallb_app in Hx. apply andb_true_iff in Hx as [_ Hpost].
  destruct post as [|y post]; [discriminate|].
  destruct (is_dot y); [|discriminate].
  rewrite (many_greedy_total is_dot [y] post Some) in Hk. injection Hk as <-.
  eexists. split; [reflexivity|]. simpl in *.
  apply andb_true_iff in Hpost as [-> Hpost]. now apply take_while_forallb.
Qed.

Lemma line_tail_rest (x : jsstring) (c : N) (r : jsstring) :
  drop_while is_space x = c :: r ->
  Re.run [Re.StarG is_space; Re.PlusG is_dot] x None
  = Some (Some (take_while is_dot (c :: r))).
Proof.
  intros Hrest. cbn [Re.run].
  rewrite (take_drop_while is_space x) at 1. rewrite Hrest.
  pose proof (drop_while_head _ _ _ _ Hrest) as Hc.
  apply many_greedy_skip; [apply take_while_all | exact Hc|].
  rewrite (not_space_is_dot c Hc).
  rewrite (many_greedy_total is_dot [c] r Some).
  simpl. now rewrite (not_space_is_dot c Hc).
Qed.

Lemma block_tail_blank (x : jsstring) (r : option jsstring) :
  forallb is_space x = true ->
  Re.run [Re.StarG is_space; Re.PlusL is_any;
          Re.Ahead [Re.ALit (Re.ci_lit "HASHTAGS:"); Re.AEnd]] x None = Some r ->
  exists g, r = Some g /\ forallb is_space g = true.
Proof.
  intros Hx Hrun. cbn [Re.run] in Hrun.
  apply many_greedy_origin in Hrun as (pre & post & -> & _ & Hk).
  rewrite forallb_app in Hx. apply andb_true_iff in Hx as [_ Hpost].
  destruct post as [|y post]; [discriminate|]. cbn [is_any] in Hk.
  pose proof (many_lazy_until [y] post) as Hlazy. cbn [Re.run] in Hlazy.
  rewrite Hlazy in Hk. injection Hk as <-.
  eexists. split; [reflexivity|]. simpl in *.
  apply andb_true_iff in Hpost as [-> Hpost]. now apply until_hashtags_forallb.
Qed.

Lemma block_tail_rest (x : jsstring) (c : N) (r : jsstring) :
  drop_while is_space x = c :: r ->
  Re.run [Re.StarG is_space; Re.PlusL is_any;
          Re.Ahead [Re.ALit (Re.ci_lit "HASHTAGS:"); Re.AEnd]] x None
  = Some (Some (block_capture (c :: r))).
Proof.
  intros Hrest. cbn [Re.run].
  rewrite (take_drop_while is_space x) at 1. rewrite Hrest.
  pose proof (drop_while_head _ _ _ _ Hrest) as Hc.
  apply many_greedy_skip; [apply take_while_all | exact Hc|].
  cbn [is_any]. pose proof (many_lazy_until [c] r) as Hlazy. cbn [Re.run] in Hlazy.
  exact Hlazy.
Qed.

Lemma line_field (label : string) (text d : jsstring) :
  field_or (Re.search (Re.lits label ++ [Re.StarG is_space; Re.PlusG is_dot]) text) d
  = labelled_line label text d.
Proof.
  unfold labelled_line, Re.lits.
  apply search_labelled.
  - apply line_tail_blank.
  - apply line_tail_rest.
  - intros c r Hc. simpl. rewrite (not_space_is_dot c Hc). eauto.
Qed.

Lemma block_field (text d : jsstring) :
  field_or (Re.search re_script text) d = labelled_block text d.
Proof.
  unfold labelled_block, re_script, Re.lits.
  apply search_labelled.
  - apply block_tail_blank.
  - apply block_tail_rest.
  - intros c r _. simpl. eauto.
Qed.

Lemma title_or_labelled (m : option (option jsstring)) (topic : Json.t) :
  title_or m topic = match field_or m [] with
                     | [] => topic
                     | title => Json.str title
                     end.
Proof.
  unfold title_or, field_or, or_else. destruct (Re.group1 m) as [g|]; [|reflexivity].
  now destruct (trim g).
Qed.

Lemma title_or_str (m : option (option jsstring)) (topic : jsstring) :
  title_or m (Json.str topic) = Json.str (field_or m topic).
Proof.
  unfold title_or, field_or, or_else. destruct (Re.group1 m) as [g|]; [|reflexivity].
  now destruct (trim g).
Qed.

(** C8 (amended). Each of the four fields is found on its own, by its
    own label: what follows the first occurrence of the label, white
    space skipped, up to the end of the line (for the script: up to the
    next ["HASHTAGS:"] or the end of the text), trimmed.  A field whose
    label is missing, or is followed by white space only, gets its own
    default and leaves the other fields as they are: the topic for the
    title (as it is, of whatever kind), the empty string for the hook,
    the whole text for the script and ["#shorts #viral #trending"] for
    the hashtags. *)
Theorem parseGeneratedScript_fields (text : jsstring) (topic : Json.t) (s : jsstring) :
  let g := parseGeneratedScript text topic in
  Generated.title g = labelled_title text topic
  /\ Generated.title (parseGeneratedScript text (Json.str s))
     = Json.str (labelled_line "TITLE:" text s)
  /\ Generated.hook g = labelled_line "HOOK:" text []
  /\ Generated.script g = labelled_block text text
  /\ Generated.hashtags g = labelled_line "HASHTAGS:" text (lit "#shorts #viral #trending").
Proof.
  cbv zeta. unfold parseGeneratedScript, labelled_title. cbn [Generated.title Generated.hook
    Generated.script Generated.hashtags].
  rewrite title_or_labelled, title_or_str.
  unfold re_title, re_hook, re_hashtags.
  rewrite !line_field, block_field. repeat split.
Qed.

(** C8, as stated, fails: a text without ["SCRIPT:"] becomes the script
    itself, so the fallback of the script is not derived from the topic;
    the fallbacks of the hook and of the hashtags do not depend on the
    topic either. *)
Lemma script_default_is_the_text :
  let cats := Json.str (lit "cats") in
  let dogs := Json.str (lit "dogs") in
  Generated.script (parseGeneratedScript (lit "a") cats) = lit "a"
  /\ Generated.script (parseGeneratedScript (lit "b") cats) = lit "b"
  /\ Generated.hook (parseGeneratedScript (lit "a") cats) = []
  /\ Generated.hook (parseGeneratedScript (lit "a") dogs) = []
  /\ ~ topic_derived_defaults.
Proof.
  cbv zeta.
  split; [vm_compute; reflexivity|]. split; [vm_compute; reflexivity|].
  split; [vm_compute; reflexivity|]. split; [vm_compute; reflexivity|].
  intros (d_title & d_hook & d_script & d_hashtags & H).
  destruct (H (lit "a") (Json.str (lit "cats"))) as (_ & _ & Ha & _).
  destruct (H (lit "b") (Json.str (lit "cats"))) as (_ & _ & Hb & _).
  assert (Fa : field_fails re_script (lit "a")) by (vm_compute; exact I).
  assert (Fb : field_fails re_script (lit "b")) by (vm_compute; exact I).
  specialize (Ha Fa). specialize (Hb Fb).
  rewrite <- Hb in Ha. vm_compute in Ha. discriminate.
Qed.

(** * Further properties *)

(** ** Token manager: what it touches, and when it asks the provider *)

Lemma getValidToken_touches (w : World) :
  stored_channel (snd (getValidToken w)) = stored_channel w
  /\ sent (snd (getValidToken w))
     = match stored_tokens w with
       | Some tok =>
           if clock w <? expiry_of tok - 60000 then sent w
           else refresh_request w tok :: sent w
       | None => sent w
       end.
Proof.
  unfold getValidToken, bind, loadDB, loadConfig, Date_now, refreshToken, throw, ret,
    stored_tokens, stored_channel, expiry_of, refresh_request, config.
  destruct (DB.tokens (default DB.empty (db_file w))) as [tok|] eqn:Htok; simpl;
    [|now split].
  destruct (clock w <? default 0 (Tokens.expiry tok) - 60000); simpl; [now split|].
  unfold post_token.
  destruct (idp w) as [|[dt [[|err access refresh expires_in]|e]] rest]; simpl;
    try (now split).
  destruct (truthy_opt err); simpl; now split.
Qed.

(** X1. Whatever the provider answers, [getValidToken] leaves the drafts,
    the channel, the configuration and the stored [refresh_token] as
    they are.  It sends a request, and then exactly one, exactly when a
    token record exists and the clock has reached its expiry minus 60
    seconds (that instant included); the request carries the stored
    refresh token and the configured client id and secret. *)
Theorem getValidToken_frame (w : World) :
  store (snd (getValidToken w)) = store w
  /\ stored_channel (snd (getValidToken w)) = stored_channel w
  /\ config_file (snd (getValidToken w)) = config_file w
  /\ Tokens.refresh_token <$> stored_tokens (snd (getValidToken w))
     = Tokens.refresh_token <$> stored_tokens w
  /\ sent (snd (getValidToken w))
     = match stored_tokens w with
       | Some tok =>
           if clock w <? expiry_of tok - 60000 then sent w
           else refresh_request w tok :: sent w
       | None => sent w
       end.
Proof.
  unfold getValidToken, bind, loadDB, loadConfig, Date_now, refreshToken, throw, ret,
    stored_tokens, stored_channel, store, expiry_of, refresh_request, config.
  destruct (DB.tokens (default DB.empty (db_file w))) as [tok|] eqn:Htok; simpl;
    [|now rewrite Htok].
  destruct (clock w <? default 0 (Tokens.expiry tok) - 60000); simpl;
    [now rewrite Htok|].
  unfold post_token.
  destruct (idp w) as [|[dt [[|err access refresh expires_in]|e]] rest]; simpl;
    try (now rewrite Htok).
  destruct (truthy_opt err); simpl; [now rewrite Htok|].
  repeat split.
Qed.

(** X2. When [getValidToken] fails, for whatever reason, [data.json] has
    not been written; without a token record the failure is
    ["Not authenticated"] and no request has been sent. *)
Theorem getValidToken_failure_writes_nothing (w w' : World) (e : jsstring) :
  getValidToken w = (Throw e, w') ->
  db_file w' = db_file w
  /\ writes w' = writes w
  /\ (stored_tokens w = None -> e = lit "Not authenticated" /\ w' = w).
Proof.
  unfold getValidToken, bind, loadDB, loadConfig, Date_now, refreshToken, throw, ret,
    stored_tokens.
  destruct (DB.tokens (default DB.empty (db_file w))) as [tok|]; simpl.
  - destruct (clock w <? default 0 (Tokens.expiry tok) - 60000); simpl;
      [discriminate|].
    unfold post_token.
    destruct (idp w) as [|[dt [[|err access refresh expires_in]|msg]] rest]; simpl;
      try (intros [= <- <-]; repeat split; congruence).
    destruct (truthy_opt err); simpl; [|discriminate].
    intros [= <- <-]. repeat split; congruence.
  - intros [= <- <-]. repeat split.
Qed.

Lemma getValidToken_failure_writes_nothing_witness :
  let w' := mkWorld (db_file offline_world) (config_file offline_world) 80000 [] [] [] []
              [ReqRefresh (Some (lit "R")) (Some (lit "id")) (Some (lit "secret"))] 4
              [] no_files plain_engine in
  getValidToken offline_world = (Throw (lit "getaddrinfo ENOTFOUND"), w')
  /\ db_file w' = db_file offline_world
  /\ writes w' = writes offline_world.
Proof.
  intros w'.
  assert (H : getValidToken offline_world = (Throw (lit "getaddrinfo ENOTFOUND"), w'))
    by (vm_compute; reflexivity).
  split; [exact H|].
  destruct (getValidToken_failure_writes_nothing offline_world w' _ H) as (H1 & H2 & _).
  split; assumption.
Defined.

(** X3. A grant that carries no [expires_in] is stored with an expiry
    that is not a number; the validity check reads it as 0, so the next
    call asks the provider again, however soon it comes. *)
Theorem getValidToken_grant_without_lifetime (w : World) (tok : Tokens.t) (dt : Z)
    (err access refresh : option jsstring) (rest : list (Reply TokenBody)) :
  stored_tokens w = Some tok ->
  expiry_of tok - 60000 <= clock w ->
  idp w = (dt, Resolved (TokenObj err access refresh None)) :: rest ->
  truthy_opt err = false ->
  -60000 <= clock w + dt ->
  fst (getValidToken w) = Return access
  /\ stored_tokens (snd (getValidToken w))
     = Some (Tokens.mk access (Tokens.refresh_token tok) None)
  /\ exists rq, sent (snd (getValidToken (snd (getValidToken w))))
                = rq :: sent (snd (getValidToken w)).
Proof.
  intros Htok Hexp Hidp Herr Hclock.
  rewrite (getValidToken_refreshes w tok dt err access refresh None rest) by assumption.
  cbn [fst snd]. split; [reflexivity|]. split; [reflexivity|].
  match goal with |- context [getValidToken ?w1] =>
    destruct (getValidToken_touches w1) as (_ & Hsent);
    rewrite Hsent; unfold stored_tokens, expiry_of; cbn
  end.
  destruct (clock w + dt <? 0 - 60000) eqn:Hlt; [apply Z.ltb_lt in Hlt; lia|].
  eexists. reflexivity.
Qed.

Lemma getValidToken_grant_without_lifetime_witness :
  let w := no_lifetime_world in
  let tok := Tokens.mk (Some (lit "old")) (Some (lit "R")) (Some 100000) in
  let rest := [(10, Resolved (TokenObj None (Some (lit "newer")) None (Some 3599)))] in
  (stored_tokens w = Some tok
   /\ expiry_of tok - 60000 <= clock w
   /\ idp w = (10, Resolved (TokenObj None (Some (lit "new")) None None)) :: rest
   /\ -60000 <= clock w + 10)
  /\ fst (getValidToken w) = Return (Some (lit "new"))
  /\ stored_tokens (snd (getValidToken w))
     = Some (Tokens.mk (Some (lit "new")) (Some (lit "R")) None)
  /\ exists rq, sent (snd (getValidToken (snd (getValidToken w))))
                = rq :: sent (snd (getValidToken w)).
Proof.
  intros w tok rest.
  assert (H1 : stored_tokens w = Some tok) by reflexivity.
  assert (H2 : expiry_of tok - 60000 <= clock w) by (vm_compute; discriminate).
  assert (H3 : idp w = (10, Resolved (TokenObj None (Some (lit "new")) None None)) :: rest)
    by reflexivity.
  assert (H4 : -60000 <= clock w + 10) by (vm_compute; discriminate).
  split; [exact (conj H1 (conj H2 (conj H3 H4)))|].
  exact (getValidToken_grant_without_lifetime w tok 10 None (Some (lit "new")) None rest
           H1 H2 H3 eq_refl H4).
Defined.

(** ** Scheduler: unknown ids, what is written back, what is kept *)

Lemma find_video_None (videoId : jsstring) (videos : list Video.t) :
  videoId ∉ ids videos -> find_video videoId videos = None.
Proof.
  intros Hnot. unfold find_video. apply list_find_None. apply Forall_forall.
  intros v Hv Hid. apply Hnot. unfold ids. rewrite <- Hid.
  now apply (list_elem_of_fmap_2 Video.id).
Qed.

Section SchedulerProperties.

Variable toLowerCase : jsstring -> jsstring.

(** X4. Scheduling an id that no draft has fails with
    ["Video not found"] before anything is asked or written: the world
    is the one before the call, and the route answers with status 500.
    The id the route schedules is the segment of the path that follows
    [/api/videos/]: the id asked for, when that holds no ['/']. *)
Theorem scheduleVideoPost_unknown_id (videoId : jsstring) (w : World) :
  videoId ∉ ids (store w) ->
  scheduleVideoPost videoId w = (Throw (lit "Video not found"), w)
  /\ (forall rest, scheduled_id rest = videoId ->
      handle toLowerCase (PostSchedule rest) w
      = (respond 500 (P_error (lit "Video not found")), w))
  /\ (47%N ∉ videoId ->
      handle toLowerCase (PostSchedule videoId) w
      = (respond 500 (P_error (lit "Video not found")), w)).
Proof.
  intros Hnot. apply find_video_None in Hnot.
  assert (H : scheduleVideoPost videoId w = (Throw (lit "Video not found"), w)).
  { unfold scheduleVideoPost, bind, loadDB. unfold store in Hnot. simpl.
    now rewrite Hnot. }
  assert (Hroute : forall rest, scheduled_id rest = videoId ->
            handle toLowerCase (PostSchedule rest) w
            = (respond 500 (P_error (lit "Video not found")), w)).
  { intros rest Hrest. unfold handle. rewrite route_schedule, Hrest.
    unfold api_schedule, bind. now rewrite H. }
  split; [exact H|]. split; [exact Hroute|].
  intros Hslash. apply Hroute. now apply first_segment.
Qed.

End SchedulerProperties.

Lemma scheduleVideoPost_unknown_id_witness :
  (lit "42" ∉ ids (store connected_world))
  /\ scheduleVideoPost (lit "42") connected_world
     = (Throw (lit "Video not found"), connected_world)
  /\ handle lower_ascii (PostSchedule (lit "42")) connected_world
     = (respond 500 (P_error (lit "Video not found")), connected_world)
  /\ handle lower_ascii (PostSchedule (lit "42/1730000000000")) connected_world
     = (respond 500 (P_error (lit "Video not found")), connected_world).
Proof.
  assert (H : lit "42" ∉ ids (store connected_world)).
  { intros Hin. vm_compute in Hin. apply list_elem_of_singleton in Hin. discriminate. }
  split; [exact H|].
  destruct (scheduleVideoPost_unknown_id lower_ascii (lit "42") connected_world H)
    as (Hcall & Hroute & Hplain).
  split; [exact Hcall|]. split.
  - apply Hplain. intros Hin. vm_compute in Hin.
    repeat (apply elem_of_cons in Hin as [Hin|Hin]; [discriminate|]).
    now apply not_elem_of_nil in Hin.
  - apply Hroute. vm_compute. reflexivity.
Defined.

(** X5. [scheduleVideoPost] writes back the document it loaded before it
    asked for a token.  When the token had to be refreshed, the record
    that [getValidToken] stored is replaced by the old one: the draft is
    scheduled, the refreshed token is gone, and the next call has to ask
    the provider again. *)
Theorem scheduleVideoPost_discards_refresh (videoId : jsstring) (w : World) (i : nat)
    (v : Video.t) (tok : Tokens.t) (access : jsstring) (expires_in : Z) :
  find_video videoId (store w) = Some (i, v) ->
  stored_tokens w = Some tok ->
  expiry_of tok - 60000 <= clock w ->
  idp_grants w access expires_in ->
  (exists v', fst (scheduleVideoPost videoId w) = Return v'
              /\ Video.status v' = Status.scheduled)
  /\ stored_tokens (snd (getValidToken w))
     = Some (Tokens.mk (Some access) (Tokens.refresh_token tok)
               (Some (idp_resume w + expires_in * 1000)))
  /\ stored_tokens (snd (scheduleVideoPost videoId w)) = Some tok.
Proof.
  intros Hfind Htok Hexp (dt & err & refresh & rest & Hidp & Herr).
  pose proof (getValidToken_refreshes w tok dt err (Some access) refresh (Some expires_in)
                rest Htok Hexp Hidp Herr) as Hget.
  rewrite (scheduleVideoPost_token videoId w _ i v _ Hfind Hget). cbv zeta.
  rewrite Hget. unfold idp_resume. rewrite Hidp. cbn [fst snd].
  split; [eexists; split; reflexivity|]. split; [reflexivity|]. exact Htok.
Qed.

Lemma scheduleVideoPost_discards_refresh_witness :
  let videoId := lit "1730000000000" in
  let tok := Tokens.mk (Some (lit "old")) (Some (lit "R")) (Some 1730000000000) in
  (find_video videoId (store expired_world) = Some (0%nat, cooking_draft)
   /\ stored_tokens expired_world = Some tok
   /\ expiry_of tok - 60000 <= clock expired_world
   /\ idp_grants expired_world (lit "new") 3599)
  /\ (exists v', fst (scheduleVideoPost videoId expired_world) = Return v'
                 /\ Video.status v' = Status.scheduled)
  /\ stored_tokens (snd (getValidToken expired_world))
     = Some (Tokens.mk (Some (lit "new")) (Some (lit "R")) (Some 1730003604200))
  /\ stored_tokens (snd (scheduleVideoPost videoId expired_world)) = Some tok.
Proof.
  intros videoId tok.
  assert (H1 : find_video videoId (store expired_world) = Some (0%nat, cooking_draft))
    by (vm_compute; reflexivity).
  assert (H2 : stored_tokens expired_world = Some tok) by reflexivity.
  assert (H3 : expiry_of tok - 60000 <= clock expired_world) by (vm_compute; discriminate).
  assert (H4 : idp_grants expired_world (lit "new") 3599).
  { exists 200, None, None, []. split; reflexivity. }
  split; [exact (conj H1 (conj H2 (conj H3 H4)))|].
  exact (scheduleVideoPost_discards_refresh videoId expired_world 0 cooking_draft tok
           (lit "new") 3599 H1 H2 H3 H4).
Defined.

(** X6. Whether or not a token is obtained, [scheduleVideoPost] rewrites
    one entry of the draft list and nothing else in it: the other
    entries, their number and their order are as before, and the entry
    keeps its id, topic, tone, length, title, hook, script, hashtags,
    creation time, requested time and emoji.  A draft that is scheduled
    keeps the error message of an earlier failure; a draft that fails
    keeps the schedule time and the metadata of an earlier success. *)
Theorem scheduleVideoPost_rewrites_one_entry (videoId : jsstring) (w : World) (i : nat)
    (v : Video.t) :
  find_video videoId (store w) = Some (i, v) ->
  exists v',
    store (snd (scheduleVideoPost videoId w)) = <[i := v']> (store w)
    /\ same_content v v'
    /\ length (store (snd (scheduleVideoPost videoId w))) = length (store w)
    /\ (forall j, j <> i ->
          store (snd (scheduleVideoPost videoId w)) !! j = store w !! j)
    /\ match fst (scheduleVideoPost videoId w) with
       | Return _ =>
           Video.status v' = Status.scheduled /\ Video.error v' = Video.error v
       | Throw _ =>
           Video.status v' = Status.error
           /\ Video.scheduledAt v' = Video.scheduledAt v
           /\ Video.youtubeMetadata v' = Video.youtubeMetadata v
       end.
Proof.
  intros Hfind.
  destruct (getValidToken w) as [[token|e] w1] eqn:Hget.
  - rewrite (scheduleVideoPost_token videoId w w1 i v token Hfind Hget). cbv zeta.
    cbn [fst snd]. rewrite store_saved. unfold rescheduled_db. cbn [DB.videos DB.with_videos].
    eexists. split; [reflexivity|]. split; [repeat split|].
    split; [apply length_insert|]. split; [|split; reflexivity].
    intros j Hj. now apply list_lookup_insert_ne.
  - rewrite (scheduleVideoPost_no_token videoId w w1 i v e Hfind Hget).
    cbn [fst snd]. rewrite store_saved. unfold rescheduled_db. cbn [DB.videos DB.with_videos].
    eexists. split; [reflexivity|]. split; [repeat split|].
    split; [apply length_insert|]. split; [|repeat split].
    intros j Hj. now apply list_lookup_insert_ne.
Qed.

Lemma scheduleVideoPost_rewrites_one_entry_witness :
  let videoId := lit "1730000000000" in
  let w := unconnected_world in
  let w3 := snd (auth_callback (Some (lit "4/0Ab")) None (snd (scheduleVideoPost videoId w))) in
  let failed := Video.set_error (lit "Not authenticated") cooking_draft in
  find_video videoId (store w3) = Some (0%nat, failed)
  /\ exists v',
    store (snd (scheduleVideoPost videoId w3)) = <[0%nat := v']> (store w3)
    /\ same_content failed v'
    /\ Video.status v' = Status.scheduled
    /\ Video.error v' = Some (lit "Not authenticated").
Proof.
  intros videoId w w3 failed.
  assert (H : find_video videoId (store w3) = Some (0%nat, failed))
    by (vm_compute; reflexivity).
  split; [exact H|].
  destruct (scheduleVideoPost_rewrites_one_entry videoId w3 0 failed H)
    as (v' & Hstore & Hsame & _ & _ & Hcase).
  exists v'. split; [exact Hstore|]. split; [exact Hsame|].
  assert (Hret : exists r, fst (scheduleVideoPost videoId w3) = Return r)
    by (eexists; vm_compute; reflexivity).
  destruct Hret as [r Hr]. rewrite Hr in Hcase. exact Hcase.
Defined.

(** ** Routes: generation, listing, deletion *)

Lemma find_video_head (v : Video.t) (vs : list Video.t) :
  find_video (Video.id v) (v :: vs) = Some (0%nat, v).
Proof.
  unfold find_video. apply list_find_Some. repeat split.
  intros j y _ Hj. lia.
Qed.

Lemma insert_video_head (video : Video.t) (videos : list Video.t) :
  exists older, insert_video video videos = video :: older.
Proof. rewrite insert_video_take. simpl. eauto. Qed.

Lemma delete_elem_of (id : jsstring) (vs : list Video.t) (v : Video.t) :
  v ∈ List.filter (fun v => negb (bool_decide (Video.id v = id))) vs
  <-> v ∈ vs /\ Video.id v <> id.
Proof.
  rewrite !list_elem_of_In, filter_In.
  rewrite negb_true_iff, bool_decide_eq_false. reflexivity.
Qed.

Lemma delete_gone (id : jsstring) (vs : list Video.t) :
  id ∉ ids (List.filter (fun v => negb (bool_decide (Video.id v = id))) vs).
Proof.
  intros Hid. unfold ids in Hid.
  apply (list_elem_of_fmap_1 Video.id) in Hid as (v & Hv & Hmem).
  apply delete_elem_of in Hmem as [_ Hne]. congruence.
Qed.

Lemma delete_absent (id : jsstring) (vs : list Video.t) :
  id ∉ ids vs ->
  List.filter (fun v => negb (bool_decide (Video.id v = id))) vs = vs.
Proof.
  intros Hnot. induction vs as [|x vs IH]; [reflexivity|]. simpl.
  unfold ids in Hnot. simpl in Hnot. apply not_elem_of_cons in Hnot as [Hx Hvs].
  rewrite bool_decide_eq_false_2 by congruence. simpl.
  f_equal. now apply IH.
Qed.

Lemma delete_sublist (id : jsstring) (vs : list Video.t) :
  List.filter (fun v => negb (bool_decide (Video.id v = id))) vs `sublist_of` vs.
Proof.
  induction vs as [|x vs IH]; simpl; [constructor|].
  destruct (negb (bool_decide (Video.id x = id))); now constructor.
Qed.

(** A decimal rendering holds digits and a sign: no ['/'], no letter. *)
Lemma digits_chars (d : Decimal.uint) :
  Forall (fun c => (c < 58)%N /\ c <> 47%N) (lit (NilEmpty.string_of_uint d)).
Proof.
  unfold lit.
  induction d; simpl; try (constructor; [split; [reflexivity | discriminate] | exact IHd]).
  constructor.
Qed.

Lemma toString_chars (n : Z) : Forall (fun c => (c < 58)%N /\ c <> 47%N) (toString n).
Proof.
  unfold toString, NilZero.string_of_int, NilZero.string_of_uint.
  destruct (Z.to_int n) as [d|d]; destruct d; unfold lit; simpl;
    repeat (constructor; [split; [reflexivity | discriminate]|]);
    try apply digits_chars; try constructor.
Qed.

Lemma toString_no_slash (n : Z) : 47%N ∉ toString n.
Proof.
  intros H. pose proof (toString_chars n) as Hall. rewrite Forall_forall in Hall.
  now destruct (Hall _ H) as [_ Hne].
Qed.

(** The last segment of a path below [/api/videos/]. *)
Lemma last_segment (t : jsstring) : 47%N ∉ t -> deleted_id t = t.
Proof.
  intros Ht. unfold deleted_id.
  change (lit "/api/videos/" ++ t) with (join [47%N] [[]; lit "api"; lit "videos"; t]).
  rewrite split_join; [reflexivity | discriminate|].
  repeat constructor; try exact Ht;
    intros H; vm_compute in H;
    repeat (apply elem_of_cons in H as [H|H]; [discriminate|]);
    now apply not_elem_of_nil in H.
Qed.

Lemma toString_not_nil (n : Z) : toString n <> [].
Proof.
  unfold toString, NilZero.string_of_int, NilZero.string_of_uint.
  destruct (Z.to_int n) as [d|d]; destruct d; discriminate.
Qed.

Lemma endsWith_app (suffix s : jsstring) :
  endsWith suffix s = true -> exists pre, s = pre ++ suffix.
Proof.
  unfold endsWith. intros H. apply andb_true_iff in H as [_ H].
  apply bool_decide_eq_true in H. exists (take (length s - length suffix) s).
  rewrite <- H at 2. symmetry. apply take_drop.
Qed.

(** A path that ends in a digit is not the path of an image. *)
Lemma not_image (pre t : jsstring) :
  Forall (fun c => (c < 58)%N /\ c <> 47%N) t -> t <> [] -> is_image (pre ++ t) = false.
Proof.
  intros Hall Hne.
  assert (Hlast : exists c, last (pre ++ t) = Some c /\ (c < 58)%N).
  { destruct (last t) as [c|] eqn:Ht; [|now apply last_None in Ht].
    exists c. rewrite last_app, Ht. split; [reflexivity|].
    rewrite Forall_forall in Hall. now apply Hall, last_Some_elem_of. }
  destruct Hlast as (c & Hc & Hlt).
  unfold is_image.
  destruct (endsWith (lit ".png") (pre ++ t)) eqn:H1;
    [apply endsWith_app in H1 as [p H1]; rewrite H1, last_app in Hc;
     vm_compute in Hc; injection Hc as <-; discriminate|].
  destruct (endsWith (lit ".jpg") (pre ++ t)) eqn:H2;
    [apply endsWith_app in H2 as [p H2]; rewrite H2, last_app in Hc;
     vm_compute in Hc; injection Hc as <-; discriminate|].
  destruct (endsWith (lit ".ico") (pre ++ t)) eqn:H3;
    [apply endsWith_app in H3 as [p H3]; rewrite H3, last_app in Hc;
     vm_compute in Hc; injection Hc as <-; discriminate|].
  reflexivity.
Qed.

Section GenerationProperties.

Variable toLowerCase : jsstring -> jsstring.

Lemma delete_store (rest : jsstring) (w : World) :
  is_image (lit "/api/videos/" ++ rest) = false ->
  fst (handle toLowerCase (DeleteVideo rest) w) = json P_success
  /\ store (snd (handle toLowerCase (DeleteVideo rest) w))
     = List.filter (fun v => negb (bool_decide (Video.id v = deleted_id rest))) (store w)
  /\ stored_tokens (snd (handle toLowerCase (DeleteVideo rest) w)) = stored_tokens w
  /\ stored_channel (snd (handle toLowerCase (DeleteVideo rest) w)) = stored_channel w.
Proof. intros H. unfold handle, route. cbv zeta. rewrite H. repeat split. Qed.

Lemma delete_static (id : jsstring) (w : World) :
  is_image (lit "/api/videos/" ++ id) = true ->
  handle toLowerCase (DeleteVideo id) w
  = (if public w (lit "api/videos/" ++ id)
     then respond 200 (P_file (lit "api/videos/" ++ id)
                         (content_type (lit "/api/videos/" ++ id)))
     else respond 404 (P_text (lit "Not found")),
     w).
Proof.
  intros H. unfold handle, route. cbv zeta. rewrite H. unfold serveFile.
  change (drop 1 (lit "/api/videos/" ++ id)) with (lit "api/videos/" ++ id).
  now destruct (public w (lit "api/videos/" ++ id)).
Qed.

(** X7. A request for a script without a topic (missing, [null],
    [false], [0] or the empty string) is answered with status 400 and
    ["Topic required"]; nothing is asked of the generation service, no
    random number is drawn, nothing is written. *)
Theorem api_generate_requires_topic (body : GenerateBody) (w : World) :
  Json.truthy_opt (g_topic body) = false ->
  handle toLowerCase (PostGenerate body) w
  = (respond 400 (P_error (lit "Topic required")), w).
Proof.
  intros Htopic. unfold handle, route, api_generate. now rewrite Htopic.
Qed.

(** X8. From a request for a script to its schedule, the topic being a
    string that is not empty: the draft that the route returns is stored
    with status [draft], it is the first entry of the list that
    [GET /api/videos] returns next, and, when a token can be obtained,
    scheduling its id returns and stores that draft as [scheduled],
    stamped with the current time, with a description that starts with
    its script. *)
Theorem generate_list_schedule (body : GenerateBody) (w : World) (topic : jsstring) :
  g_topic body = Some (Json.str topic) ->
  topic <> [] ->
  exists video w1 older,
    handle toLowerCase (PostGenerate body) w = (json (P_video video), w1)
    /\ Video.status video = Status.draft
    /\ listed (fst (handle toLowerCase GetVideos w1)) = video :: older
    /\ forall token w2,
         getValidToken w1 = (Return token, w2) ->
         exists v' rest,
           fst (handle toLowerCase (PostSchedule (Video.id video)) w1) = json (P_video v')
           /\ store (snd (handle toLowerCase (PostSchedule (Video.id video)) w1)) !! 0%nat
              = Some v'
           /\ same_content video v'
           /\ Video.status v' = Status.scheduled
           /\ Video.scheduledAt v' = Some (clock w2)
           /\ (Metadata.description <$> Video.youtubeMetadata v')
              = Some (Video.script video ++ rest).
Proof.
  intros Hbody Hne.
  destruct (api_generate_string toLowerCase body w topic Hbody Hne) as [video Hret].
  destruct (api_generate_inserts toLowerCase body w video Hret)
    as (Hstore & Hstatus & _ & _ & Hid).
  destruct (insert_video_head video (store w)) as [older Holder].
  rewrite Holder in Hstore.
  destruct (api_generate toLowerCase body w) as [r w1] eqn:Hgen. cbn [fst snd] in *.
  subst r. exists video, w1, older.
  split; [unfold handle, route; now rewrite Hgen|].
  split; [exact Hstatus|].
  split; [unfold handle, route, api_videos, bind, loadDB, ret, listed; simpl;
          exact Hstore|].
  intros token w2 Hget.
  assert (Hfind : find_video (Video.id video) (store w1) = Some (0%nat, video))
    by (rewrite Hstore; apply find_video_head).
  pose proof (scheduleVideoPost_token _ w1 w2 0 video token Hfind Hget) as Hs.
  cbv zeta in Hs.
  assert (Hseg : scheduled_id (Video.id video) = Video.id video).
  { destruct Hid as [t ->]. apply first_segment, toString_no_slash. }
  unfold handle. rewrite route_schedule, Hseg.
  unfold api_schedule, bind. rewrite Hs. cbn [fst snd].
  eexists _, _. split; [reflexivity|].
  split; [apply rescheduled_lookup with (v := video); now rewrite Hstore|].
  split; [repeat split|]. split; [reflexivity|]. split; [reflexivity|].
  cbn. reflexivity.
Qed.

(** X9. [DELETE /api/videos/<rest>].  When the path ends in [.png],
    [.jpg] or [.ico] the request is taken for one for a static file: it
    is answered with the file or with status 404, and nothing is
    deleted.  Otherwise the answer is success, whether or not a draft
    had the id, which is the last segment of the path ([rest] itself
    when it holds no ['/']).  Afterwards no draft has that id; the
    drafts with other ids are those stored before, in the same order;
    tokens and channel are untouched.  When no draft had the id the list
    is unchanged, so deleting twice is deleting once. *)
Theorem api_delete_removes (rest : jsstring) (w : World) :
  let id := deleted_id rest in
  let w' := snd (handle toLowerCase (DeleteVideo rest) w) in
  (47%N ∉ rest -> id = rest)
  /\ (is_image (lit "/api/videos/" ++ rest) = true ->
      w' = w
      /\ fst (handle toLowerCase (DeleteVideo rest) w) <> json P_success
      /\ (public w (lit "api/videos/" ++ rest) = false ->
          fst (handle toLowerCase (DeleteVideo rest) w)
          = respond 404 (P_text (lit "Not found"))))
  /\ (is_image (lit "/api/videos/" ++ rest) = false ->
      fst (handle toLowerCase (DeleteVideo rest) w) = json P_success
      /\ (id ∉ ids (store w'))
      /\ (store w' `sublist_of` store w)
      /\ (forall v, Video.id v <> id -> (v ∈ store w' <-> v ∈ store w))
      /\ (id ∉ ids (store w) -> store w' = store w)
      /\ stored_tokens w' = stored_tokens w
      /\ stored_channel w' = stored_channel w
      /\ store (snd (handle toLowerCase (DeleteVideo rest) w')) = store w').
Proof.
  cbv zeta. split; [apply last_segment|]. split.
  - intros Himg. rewrite (delete_static rest w Himg). cbn [fst snd].
    split; [reflexivity|]. split; [|now intros ->].
    now destruct (public w (lit "api/videos/" ++ rest)).
  - intros Himg.
    destruct (delete_store rest w Himg) as (Hret & Hst & Htok & Hch).
    destruct (delete_store rest (snd (handle toLowerCase (DeleteVideo rest) w)) Himg)
      as (_ & Hst2 & _).
    rewrite Hst2, Htok, Hch, Hst.
    split; [exact Hret|].
    split; [apply delete_gone|]. split; [apply delete_sublist|].
    split; [intros v Hv; rewrite delete_elem_of; tauto|].
    split; [apply delete_absent|]. split; [reflexivity|]. split; [reflexivity|].
    apply delete_absent, delete_gone.
Qed.

(** X10. Deleting the draft that a request for a script has just stored
    gives back the list as it was, provided the list had room for the
    draft and no stored draft already had its id. *)
Theorem generate_then_delete (body : GenerateBody) (w : World) (topic : jsstring) :
  g_topic body = Some (Json.str topic) ->
  topic <> [] ->
  (length (store w) < 50)%nat ->
  (forall video, fst (handle toLowerCase (PostGenerate body) w) = json (P_video video) ->
                 Video.id video ∉ ids (store w)) ->
  exists video w1,
    handle toLowerCase (PostGenerate body) w = (json (P_video video), w1)
    /\ store w1 = video :: store w
    /\ store (snd (handle toLowerCase (DeleteVideo (Video.id video)) w1)) = store w.
Proof.
  intros Hbody Hne Hroom Hfresh.
  destruct (api_generate_string toLowerCase body w topic Hbody Hne) as [video Hret].
  destruct (api_generate_inserts toLowerCase body w video Hret)
    as (Hstore & _ & _ & _ & t & Hid).
  assert (Hhandle : handle toLowerCase (PostGenerate body) w
                    = (json (P_video video), snd (api_generate toLowerCase body w))).
  { unfold handle, route.
    destruct (api_generate toLowerCase body w) as [[r|e] w1]; cbn [fst snd] in *;
      [now injection Hret as -> | discriminate]. }
  specialize (Hfresh video). rewrite Hhandle in Hfresh. specialize (Hfresh eq_refl).
  exists video, (snd (api_generate toLowerCase body w)).
  assert (Hcons : store (snd (api_generate toLowerCase body w)) = video :: store w).
  { rewrite Hstore, insert_video_take. apply take_ge. simpl. lia. }
  split; [exact Hhandle|]. split; [exact Hcons|].
  destruct (delete_store (Video.id video) (snd (api_generate toLowerCase body w)))
    as (_ & Hdel & _).
  { rewrite Hid. apply not_image; [apply toString_chars | apply toString_not_nil]. }
  rewrite Hdel, Hcons, (last_segment (Video.id video))
    by (rewrite Hid; apply toString_no_slash).
  simpl.
  rewrite bool_decide_eq_true_2 by reflexivity. simpl.
  now apply delete_absent.
Qed.

End GenerationProperties.

Lemma api_generate_requires_topic_witness :
  let body := {| g_topic := Some (Json.number 0); g_tone := Some (Json.str (lit "Calm"));
                 g_length := Some (Json.number 30); g_scheduleFor := None |} in
  (Json.truthy_opt (g_topic empty_body) = false
   /\ Json.truthy_opt (g_topic body) = false)
  /\ handle lower_ascii (PostGenerate empty_body) keyed_world
     = (respond 400 (P_error (lit "Topic required")), keyed_world)
  /\ handle lower_ascii (PostGenerate body) keyed_world
     = (respond 400 (P_error (lit "Topic required")), keyed_world).
Proof.
  intros body.
  assert (H1 : Json.truthy_opt (g_topic empty_body) = false) by reflexivity.
  assert (H2 : Json.truthy_opt (g_topic body) = false) by reflexivity.
  split; [split; assumption|]. split.
  - exact (api_generate_requires_topic lower_ascii empty_body keyed_world H1).
  - exact (api_generate_requires_topic lower_ascii body keyed_world H2).
Defined.

Lemma generate_list_schedule_witness :
  (g_topic cooking_body = Some (Json.str (lit "cooking")) /\ lit "cooking" <> [])
  /\ exists video w1 older,
    handle lower_ascii (PostGenerate cooking_body) connected_world = (json (P_video video), w1)
    /\ Video.status video = Status.draft
    /\ listed (fst (handle lower_ascii GetVideos w1)) = video :: older
    /\ exists v' rest,
         fst (handle lower_ascii (PostSchedule (Video.id video)) w1) = json (P_video v')
         /\ Video.status v' = Status.scheduled
         /\ (Metadata.description <$> Video.youtubeMetadata v')
            = Some (Video.script video ++ rest).
Proof.
  assert (H1 : g_topic cooking_body = Some (Json.str (lit "cooking"))) by reflexivity.
  assert (H2 : lit "cooking" <> []) by discriminate.
  split; [split; assumption|].
  destruct (generate_list_schedule lower_ascii cooking_body connected_world _ H1 H2)
    as (video & w1 & older & Hgen & Hdraft & Hlist & Hsched).
  exists video, w1, older. split; [exact Hgen|]. split; [exact Hdraft|].
  split; [exact Hlist|].
  assert (Hw1 : w1 = snd (handle lower_ascii (PostGenerate cooking_body) connected_world))
    by now rewrite Hgen.
  assert (Hget : getValidToken w1 = (Return (Some (lit "ya29")), w1)).
  { rewrite Hw1. vm_compute. reflexivity. }
  destruct (Hsched _ _ Hget) as (v' & rest & Hret & _ & _ & Hst & _ & Hdesc).
  exists v', rest. split; [exact Hret|]. split; assumption.
Defined.

Lemma api_delete_removes_witness :
  (is_image (lit "/api/videos/42") = false
   /\ is_image (lit "/api/videos/1730000000000") = false
   /\ is_image (lit "/api/videos/1730000000000.png") = true
   /\ (lit "42" ∉ ids (store connected_world)))
  /\ store (snd (handle lower_ascii (DeleteVideo (lit "42")) connected_world))
     = store connected_world
  /\ (lit "1730000000000"
        ∉ ids (store (snd (handle lower_ascii (DeleteVideo (lit "1730000000000"))
                            connected_world))))
  /\ snd (handle lower_ascii (DeleteVideo (lit "1730000000000.png")) connected_world)
     = connected_world.
Proof.
  assert (H1 : is_image (lit "/api/videos/42") = false) by (vm_compute; reflexivity).
  assert (H2 : is_image (lit "/api/videos/1730000000000") = false)
    by (vm_compute; reflexivity).
  assert (H3 : is_image (lit "/api/videos/1730000000000.png") = true)
    by (vm_compute; reflexivity).
  assert (H : lit "42" ∉ ids (store connected_world)).
  { intros Hin. vm_compute in Hin. apply list_elem_of_singleton in Hin. discriminate. }
  split; [exact (conj H1 (conj H2 (conj H3 H)))|]. split; [|split].
  - destruct (api_delete_removes lower_ascii (lit "42") connected_world) as (_ & _ & Hdel).
    destruct (Hdel H1) as (_ & _ & _ & _ & Hsame & _).
    exact (Hsame H).
  - destruct (api_delete_removes lower_ascii (lit "1730000000000") connected_world)
      as (_ & _ & Hdel).
    destruct (Hdel H2) as (_ & Hgone & _).
    exact Hgone.
  - destruct (api_delete_removes lower_ascii (lit "1730000000000.png") connected_world)
      as (_ & Hstatic & _).
    exact (proj1 (Hstatic H3)).
Defined.

Lemma generate_then_delete_witness :
  (g_topic cooking_body = Some (Json.str (lit "cooking"))
   /\ lit "cooking" <> []
   /\ (length (store fresh_world) < 50)%nat
   /\ (forall video,
         fst (handle lower_ascii (PostGenerate cooking_body) fresh_world)
         = json (P_video video) ->
         Video.id video ∉ ids (store fresh_world)))
  /\ exists video w1,
    handle lower_ascii (PostGenerate cooking_body) fresh_world = (json (P_video video), w1)
    /\ store w1 = video :: store fresh_world
    /\ store (snd (handle lower_ascii (DeleteVideo (Video.id video)) w1))
       = store fresh_world.
Proof.
  assert (H1 : g_topic cooking_body = Some (Json.str (lit "cooking"))) by reflexivity.
  assert (H2 : lit "cooking" <> []) by discriminate.
  assert (H3 : (length (store fresh_world) < 50)%nat) by (simpl; lia).
  assert (H4 : forall video,
             fst (handle lower_ascii (PostGenerate cooking_body) fresh_world)
             = json (P_video video) ->
             Video.id video ∉ ids (store fresh_world))
    by (intros video _; apply not_elem_of_nil).
  split; [exact (conj H1 (conj H2 (conj H3 H4)))|].
  exact (generate_then_delete lower_ascii cooking_body fresh_world _ H1 H2 H3 H4).
Defined.

(** ** Routes: connecting and disconnecting *)

Section ConnectionProperties.

Variable toLowerCase : jsstring -> jsstring.

(** X11. [POST /auth/disconnect] removes the token record and the
    channel and keeps the drafts, without asking anyone.  Afterwards no
    token can be obtained, [GET /api/channel] answers 401, and a second
    disconnect leaves the document as it is. *)
Theorem auth_disconnect_clears (w : World) :
  fst (handle toLowerCase AuthDisconnect w) = json P_success
  /\ stored_tokens (snd (handle toLowerCase AuthDisconnect w)) = None
  /\ stored_channel (snd (handle toLowerCase AuthDisconnect w)) = None
  /\ store (snd (handle toLowerCase AuthDisconnect w)) = store w
  /\ sent (snd (handle toLowerCase AuthDisconnect w)) = sent w
  /\ fst (getValidToken (snd (handle toLowerCase AuthDisconnect w)))
     = Throw (lit "Not authenticated")
  /\ fst (handle toLowerCase GetChannel (snd (handle toLowerCase AuthDisconnect w)))
     = respond 401 (P_error (lit "Not connected"))
  /\ db_file (snd (handle toLowerCase AuthDisconnect
                     (snd (handle toLowerCase AuthDisconnect w))))
     = db_file (snd (handle toLowerCase AuthDisconnect w)).
Proof. repeat split. Qed.

End ConnectionProperties.

(** X12. A callback with a code that the provider grants stores exactly
    the record the provider sent, whatever was stored before: the access
    token, the refresh token (none, when the grant has none) and the
    arrival time plus [expires_in] seconds.  The drafts are kept.  The
    channel becomes the one listed, or none when the listing is empty;
    when the listing fails the exchange still succeeds and the channel
    stored before stays. *)
Theorem auth_callback_stores_grant (code error : option jsstring) (w : World) (dt : Z)
    (err access refresh : option jsstring) (expires_in : option Z)
    (rest : list (Reply TokenBody)) :
  truthy_opt error = false ->
  truthy_opt code = true ->
  idp w = (dt, Resolved (TokenObj err access refresh expires_in)) :: rest ->
  truthy_opt err = false ->
  fst (auth_callback code error w) = Return (html (P_location (lit "/?auth=success")))
  /\ stored_tokens (snd (auth_callback code error w))
     = Some (Tokens.mk access refresh (expiry_from (clock w + dt) expires_in))
  /\ store (snd (auth_callback code error w)) = store w
  /\ stored_channel (snd (auth_callback code error w))
     = match youtube w with
       | (_, Resolved (ch :: _)) :: _ => Some (channel_of ch)
       | (_, Resolved []) :: _ => None
       | _ => stored_channel w
       end.
Proof.
  intros Herror Hcode Hidp Herr.
  destruct (auth_callback_granted code error w dt err access refresh expires_in rest
              Herror Hcode Hidp Herr) as (H1 & H2 & H3 & _ & H5).
  repeat split; assumption.
Qed.

Lemma auth_callback_stores_grant_witness :
  let code := Some (lit "4/0Ab") in
  (truthy_opt None = false
   /\ truthy_opt code = true
   /\ idp reconnect_world
      = [(300, Resolved (TokenObj None (Some (lit "ya29")) None (Some 3599)))])
  /\ fst (auth_callback code None reconnect_world)
     = Return (html (P_location (lit "/?auth=success")))
  /\ stored_tokens (snd (auth_callback code None reconnect_world))
     = Some (Tokens.mk (Some (lit "ya29")) None (Some 1730003599300))
  /\ store (snd (auth_callback code None reconnect_world)) = store reconnect_world
  /\ stored_channel (snd (auth_callback code None reconnect_world))
     = stored_channel reconnect_world.
Proof.
  intros code.
  split; [repeat split|].
  exact (auth_callback_stores_grant code None reconnect_world 300 None (Some (lit "ya29"))
           None (Some 3599) [] eq_refl eq_refl eq_refl eq_refl).
Defined.

(** X13. Right after such a callback the access token is served without
    a refresh, provided the grant outlives the 60-second buffer by more
    than the time the channel listing took. *)
Theorem auth_callback_then_token (code error : option jsstring) (w : World) (dt : Z)
    (err refresh : option jsstring) (access : jsstring) (expires_in : Z)
    (rest : list (Reply TokenBody)) :
  truthy_opt error = false ->
  truthy_opt code = true ->
  idp w = (dt, Resolved (TokenObj err (Some access) refresh (Some expires_in))) :: rest ->
  truthy_opt err = false ->
  youtube_latency w < expires_in * 1000 - 60000 ->
  getValidToken (snd (auth_callback code error w))
  = (Return (Some access), snd (auth_callback code error w)).
Proof.
  intros Herror Hcode Hidp Herr Hlife.
  destruct (auth_callback_granted code error w dt err (Some access) refresh
              (Some expires_in) rest Herror Hcode Hidp Herr)
    as (_ & Htok & _ & Hclock & _).
  apply (getValidToken_fresh _ _ Htok). rewrite Hclock. unfold expiry_of. cbn. lia.
Qed.

Lemma auth_callback_then_token_witness :
  let code := Some (lit "4/0Ab") in
  (truthy_opt code = true
   /\ idp reconnect_world
      = [(300, Resolved (TokenObj None (Some (lit "ya29")) None (Some 3599)))]
   /\ youtube_latency reconnect_world < 3599 * 1000 - 60000)
  /\ getValidToken (snd (auth_callback code None reconnect_world))
     = (Return (Some (lit "ya29")), snd (auth_callback code None reconnect_world)).
Proof.
  intros code.
  assert (H : youtube_latency reconnect_world < 3599 * 1000 - 60000)
    by (vm_compute; reflexivity).
  split; [repeat split; exact H|].
  exact (auth_callback_then_token code None reconnect_world 300 None None (lit "ya29")
           3599 [] eq_refl eq_refl eq_refl eq_refl H).
Defined.

(** X14. A callback that carries an [error], or no [code], is answered
    at once: no request is sent and nothing is written.  A callback
    whose code the provider refuses sends the one exchange request and
    writes nothing.  In the first and the last case the page holds the
    reason exactly as it was received, between the quotes of a script. *)
Theorem auth_callback_refused (code error : option jsstring) (w : World) :
  (forall e, error = Some e -> e <> [] ->
     auth_callback code error w
     = (Return (html (P_location (lit "/?auth=error&reason=" ++ e))), w)
     /\ page_of (html (P_location (lit "/?auth=error&reason=" ++ e)))
        = lit "<script>window.location='/?auth=error&reason=" ++ e ++ lit "'</script>")
  /\ (truthy_opt error = false -> truthy_opt code = false ->
      auth_callback code error w
      = (Return (html (P_location (lit "/?auth=error&reason=no_code"))), w))
  /\ (forall dt e access refresh expires_in rest,
        truthy_opt error = false -> truthy_opt code = true ->
        idp w = (dt, Resolved (TokenObj (Some e) access refresh expires_in)) :: rest ->
        e <> [] ->
        fst (auth_callback code error w)
        = Return (html (P_location (lit "/?auth=error&reason=" ++ e)))
        /\ db_file (snd (auth_callback code error w)) = db_file w
        /\ writes (snd (auth_callback code error w)) = writes w
        /\ sent (snd (auth_callback code error w))
           = ReqExchange (default [] code) (Config.clientId (config w))
               (Config.clientSecret (config w)) :: sent w).
Proof.
  split; [|split].
  - intros e -> He. split.
    + unfold auth_callback. destruct e; [congruence | reflexivity].
    + unfold page_of, redirect_page. cbn [payload html].
      now rewrite <- !app_assoc.
  - intros Herror Hcode. unfold auth_callback. now rewrite Herror, Hcode.
  - intros dt e access refresh expires_in rest Herror Hcode Hidp He.
    unfold auth_callback. rewrite Herror, Hcode. cbn [negb].
    unfold bind, loadConfig, exchangeCode, post_token. rewrite Hidp. cbn [settle].
    destruct e; [congruence|]. repeat split.
Qed.

Lemma auth_callback_refused_witness :
  let e := lit "';alert(1);'" in
  (Some e = Some e /\ e <> [])
  /\ auth_callback None (Some e) reconnect_world
     = (Return (html (P_location (lit "/?auth=error&reason=" ++ e))), reconnect_world)
  /\ page_of (html (P_location (lit "/?auth=error&reason=" ++ e)))
     = lit "<script>window.location='/?auth=error&reason=';alert(1);''</script>".
Proof.
  intros e.
  assert (H : e <> []) by discriminate.
  split; [split; [reflexivity | exact H]|].
  destruct (auth_callback_refused None (Some e) reconnect_world) as (Hfirst & _).
  destruct (Hfirst e eq_refl H) as [Hcall Hpage].
  split; [exact Hcall|]. rewrite Hpage. vm_compute. reflexivity.
Defined.

(** ** Routes: credentials and status *)

Lemma drop_while_clean (p : N -> bool) (l : jsstring) :
  match drop_while p l with [] => True | c :: _ => p c = false end.
Proof.
  induction l as [|c l IH]; simpl; [exact I|].
  destruct (p c) eqn:Hc; [exact IH | exact Hc].
Qed.

Lemma drop_while_fixed (p : N -> bool) (l : jsstring) :
  match l with [] => True | c :: _ => p c = false end -> drop_while p l = l.
Proof. destruct l as [|c l]; simpl; [reflexivity | now intros ->]. Qed.

(** A trimmed string starts and ends with something that is not white
    space, so trimming it again changes nothing. *)
Lemma trim_trim (s : jsstring) : trim (trim s) = trim s.
Proof.
  unfold trim, trimEnd, trimStart.
  set (a := drop_while is_space s).
  set (b := drop_while is_space (rev a)).
  assert (Hhead : match rev b with [] => True | c :: _ => is_space c = false end).
  { destruct (rev b) as [|c r] eqn:Hrb; [exact I|].
    pose proof (drop_while_clean is_space s) as Ha. fold a in Ha.
    pose proof (take_drop_while is_space (rev a)) as Hsplit. fold b in Hsplit.
    apply (f_equal (@rev N)) in Hsplit.
    rewrite rev_involutive, rev_app_distr, Hrb in Hsplit.
    rewrite Hsplit in Ha. exact Ha. }
  rewrite (drop_while_fixed is_space (rev b) Hhead), rev_involutive.
  rewrite (drop_while_fixed is_space b); [reflexivity|].
  apply drop_while_clean.
Qed.

Section SetupProperties.

Variable toLowerCase : jsstring -> jsstring.






End SetupProperties.



(** ** Channel *)

(** X17. [getChannelInfo] sends one request with the token it was given
    and writes nothing.  It returns no channel exactly when the listing
    is empty; the channel it returns is made from the first item, and
    its handle is never empty: the custom URL when there is one, ["@"]
    followed by the title otherwise. *)
Theorem getChannelInfo_channel (token : option jsstring) (w : World) :
  db_file (snd (getChannelInfo token w)) = db_file w
  /\ writes (snd (getChannelInfo token w)) = writes w
  /\ sent (snd (getChannelInfo token w)) = ReqChannel token :: sent w
  /\ (fst (getChannelInfo token w) = Return None
      <-> exists dt rest, youtube w = (dt, Resolved []) :: rest)
  /\ (forall ch, fst (getChannelInfo token w) = Return (Some ch) ->
        Channel.handle ch <> []
        /\ exists dt item items rest,
             youtube w = (dt, Resolved (item :: items)) :: rest
             /\ ch = channel_of item
             /\ (Channel.handle ch = lit "@" ++ ch_title item
                 \/ ch_customUrl item = Some (Channel.handle ch))).
Proof.
  rewrite getChannelInfo_result. unfold get_channels.
  destruct (youtube w) as [|[dt [[|item items]|e]] rest]; cbn [fst snd db_file writes sent].
  - repeat split; try discriminate. intros (dt & rest & H). discriminate.
  - repeat split; try discriminate. intros _. eauto.
  - split; [reflexivity|]. split; [reflexivity|]. split; [reflexivity|]. split.
    + split; [discriminate|]. intros (dt' & rest' & H). discriminate.
    + intros ch [= <-]. unfold channel_of. cbn [Channel.handle].
      destruct (ch_customUrl item) as [[|c url]|] eqn:Hurl; cbn [truthy_opt truthy default];
        (split; [discriminate|]); exists dt, item, items, rest;
        (split; [reflexivity|]); rewrite ?Hurl; cbn [truthy_opt truthy default];
        (split; [reflexivity|]); auto.
  - repeat split; try discriminate. intros (dt' & rest' & H). discriminate.
Qed.

Section ChannelProperties.

Variable toLowerCase : jsstring -> jsstring.

(** X18. [GET /api/channel] answers 401 without asking anyone when the
    process is not connected.  When it is, the drafts are never touched;
    an answer with status 200 carries the channel that is then stored,
    and the token record written with it is the one loaded before the
    call, so a token refreshed on the way is not kept; an answer with
    status 500 leaves the stored channel as it was. *)
Theorem api_channel_outcomes (w : World) :
  (stored_tokens w = None ->
   handle toLowerCase GetChannel w = (respond 401 (P_error (lit "Not connected")), w))
  /\ (forall tok, stored_tokens w = Some tok ->
        store (snd (handle toLowerCase GetChannel w)) = store w
        /\ ((exists ch,
               fst (handle toLowerCase GetChannel w) = json (P_channel ch)
               /\ stored_channel (snd (handle toLowerCase GetChannel w)) = ch
               /\ stored_tokens (snd (handle toLowerCase GetChannel w)) = Some tok)
            \/ (exists e,
                  fst (handle toLowerCase GetChannel w) = respond 500 (P_error e)
                  /\ stored_channel (snd (handle toLowerCase GetChannel w))
                     = stored_channel w))).
Proof.
  split.
  - intros Hnone. unfold handle, route, api_channel, bind, loadDB. unfold stored_tokens in Hnone.
    cbn. now rewrite Hnone.
  - intros tok Htok.
    destruct (handle toLowerCase GetChannel w) as [r w'] eqn:H. cbn [fst snd].
    unfold handle, route, api_channel, bind at 1, loadDB at 1 in H.
    unfold stored_tokens in Htok. cbn [fst snd] in H. rewrite Htok in H.
    unfold try_catch, bind in H.
    pose proof (getValidToken_effect w) as [Hst _].
    pose proof (getValidToken_touches w) as [Hch _].
    destruct (getValidToken w) as [[token|e] w1]; cbn [snd] in Hst, Hch.
    + pose proof (getChannelInfo_effect token w1) as [Hdb2 _].
      destruct (getChannelInfo token w1) as [[ch|e] w2]; cbn [snd] in Hdb2;
        injection H as <- <-.
      * split; [reflexivity|]. left. exists ch. repeat split. exact Htok.
      * unfold store, stored_channel in *. cbn [db_file]. rewrite Hdb2.
        split; [exact Hst|]. right. exists e. split; [reflexivity | exact Hch].
    + injection H as <- <-. split; [exact Hst|]. right. exists e.
      split; [reflexivity | exact Hch].
Qed.

End ChannelProperties.

Lemma getChannelInfo_channel_witness :
  let item := {| ch_id := Some (lit "UC1"); ch_title := lit "Cook"; ch_customUrl := None;
                 ch_thumbnail := None; ch_subscriberCount := Some (lit "12");
                 ch_viewCount := None; ch_videoCount := None |} in
  let w := mkWorld None None 0 [] [(5, Resolved [item])] [] [] [] 0 [] no_files
             plain_engine in
  fst (getChannelInfo (Some (lit "ya29")) w) = Return (Some (channel_of item))
  /\ Channel.handle (channel_of item) <> []
  /\ Channel.handle (channel_of item) = lit "@Cook".
Proof.
  intros item w.
  assert (H : fst (getChannelInfo (Some (lit "ya29")) w) = Return (Some (channel_of item)))
    by reflexivity.
  split; [exact H|].
  destruct (getChannelInfo_channel (Some (lit "ya29")) w) as (_ & _ & _ & _ & Hch).
  destruct (Hch _ H) as [Hne _]. split; [exact Hne|]. vm_compute. reflexivity.
Defined.

Lemma api_channel_outcomes_witness :
  (stored_tokens fresh_world = None
   /\ handle lower_ascii GetChannel fresh_world
      = (respond 401 (P_error (lit "Not connected")), fresh_world))
  /\ stored_tokens expired_world
     = Some (Tokens.mk (Some (lit "old")) (Some (lit "R")) (Some 1730000000000))
  /\ store (snd (handle lower_ascii GetChannel expired_world)) = store expired_world.
Proof.
  destruct (api_channel_outcomes lower_ascii fresh_world) as [H401 _].
  destruct (api_channel_outcomes lower_ascii expired_world) as [_ Hconn].
  split; [split; [reflexivity | exact (H401 eq_refl)]|].
  split; [reflexivity|]. exact (proj1 (Hconn _ eq_refl)).
Defined.

(** ** Script generator: random picks, words, tags *)

Lemma pick_elem {A} (r : Q) (xs : list A) (d : A) :
  unit_interval r -> xs <> [] -> pick r xs d ∈ xs.
Proof.
  intros [Hlo Hhi] Hne. unfold pick.
  set (n := Z.of_nat (length xs)).
  assert (Hn : 0 < n) by (destruct xs; [congruence | unfold n; simpl; lia]).
  assert (H0 : 0 <= Qfloor (r * inject_Z n)).
  { rewrite <- (Qfloor_Z 0). apply Qfloor_resp_le.
    apply Qmult_le_0_compat; [exact Hlo|].
    change (inject_Z 0 <= inject_Z n)%Q. rewrite <- Zle_Qle. lia. }
  assert (H1 : Qfloor (r * inject_Z n) < n).
  { rewrite Zlt_Qlt. eapply Qle_lt_trans; [apply Qfloor_le|].
    rewrite <- (Qmult_1_l (inject_Z n)) at 2.
    apply Qmult_lt_compat_r; [|exact Hhi].
    change (inject_Z 0 < inject_Z n)%Q. rewrite <- Zlt_Qlt. exact Hn. }
  apply list_elem_of_In, nth_In. unfold n in *. lia.
Qed.

(** X19. An index computed as [Math.floor(r * xs.length)] from a number
    [r] in [0, 1) is within the array: the pick is one of its elements,
    and never the value that stands for [undefined]. *)
Theorem pick_in_range {A} (r : Q) (xs : list A) (d : A) :
  unit_interval r -> xs <> [] ->
  pick r xs d ∈ xs
  /\ exists i, (i < length xs)%nat /\ xs !! i = Some (pick r xs d).
Proof.
  intros Hr Hne. pose proof (pick_elem r xs d Hr Hne) as Hin.
  split; [exact Hin|].
  apply list_elem_of_lookup in Hin as [i Hi]. exists i.
  split; [now apply lookup_lt_Some in Hi | exact Hi].
Qed.

Lemma pick_in_range_witness :
  (unit_interval (7 # 8) /\ emojis <> [])
  /\ (pick (7 # 8) emojis [] ∈ emojis)
  /\ exists i, (i < length emojis)%nat /\ emojis !! i = Some (pick (7 # 8) emojis []).
Proof.
  assert (H1 : unit_interval (7 # 8)) by (split; [unfold Qle | unfold Qlt]; simpl; lia).
  assert (H2 : emojis <> []) by discriminate.
  split; [split; assumption|].
  exact (pick_in_range (7 # 8) emojis [] H1 H2).
Defined.

Lemma lit_length (s : string) : length (lit s) = String.length s.
Proof.
  unfold lit. rewrite length_map. induction s as [|a s IH]; simpl; [reflexivity|].
  now rewrite IH.
Qed.

Ltac not_empty :=
  let E := fresh "E" in
  intros E; apply (f_equal (@length N)) in E;
  rewrite ?length_app, ?lit_length in E; simpl in E; lia.

Lemma hooks_not_empty (topic h : jsstring) : h ∈ hooks topic -> h <> [].
Proof.
  unfold hooks. intros H.
  repeat (apply elem_of_cons in H as [->|H]; [not_empty|]).
  now apply not_elem_of_nil in H.
Qed.

Lemma titles_not_empty (words t : jsstring) : t ∈ titles words -> t <> [].
Proof.
  unfold titles. intros H.
  repeat (apply elem_of_cons in H as [->|H]; [not_empty|]).
  now apply not_elem_of_nil in H.
Qed.

(** X20. The words of the title: [topic.split(' ').slice(0, 4).join(' ')]
    is the beginning of the topic, holds at most four words, and is the
    whole topic when the topic has no more than four. *)
Theorem titleWords_prefix (topic : jsstring) :
  (titleWords topic `prefix_of` topic)
  /\ (length (split 32 (titleWords topic)) <= 4)%nat
  /\ ((length (split 32 topic) <= 4)%nat -> titleWords topic = topic).
Proof.
  unfold titleWords. change (lit " ") with [32%N].
  split; [apply join_take_split|]. split.
  - rewrite split_join.
    + rewrite length_take. lia.
    + pose proof (split_not_nil 32 topic). now destruct (split 32 topic).
    + apply Forall_take, split_tokens.
  - intros Hlen. rewrite take_ge by exact Hlen. apply join_split.
Qed.

Lemma titleWords_prefix_witness :
  let topic := lit "how to cook rice in ten minutes" in
  (titleWords topic `prefix_of` topic)
  /\ titleWords topic = lit "how to cook rice"
  /\ ((length (split 32 (lit "rice")) <= 4)%nat /\ titleWords (lit "rice") = lit "rice").
Proof.
  intros topic.
  split; [exact (proj1 (titleWords_prefix topic))|].
  split; [vm_compute; reflexivity|].
  assert (H : (length (split 32 (lit "rice")) <= 4)%nat) by (vm_compute; lia).
  split; [exact H|].
  exact (proj2 (proj2 (titleWords_prefix (lit "rice"))) H).
Defined.

Section LocalProperties.

Variable toLowerCase : jsstring -> jsstring.

Lemma localGenerate_result (topic : jsstring) (tone length : Json.t) (w : World) :
  fair w ->
  exists g title w',
    localGenerate toLowerCase (Json.str topic) tone length w = (Return g, w')
    /\ Generated.hook g ∈ hooks topic
    /\ Generated.title g = Json.str title
    /\ title ∈ titles (titleWords topic)
    /\ Generated.script g = script_of (Generated.hook g) topic
    /\ Generated.hashtags g = local_hashtags toLowerCase topic
    /\ mkWorld (db_file w) (config_file w) (clock w) (idp w) (youtube w) (claude w)
               (drop 2 (entropy w)) (sent w) (writes w)
            (drift w) (public w) (engine w) = w'.
Proof.
  intros Hfair. unfold fair in Hfair.
  assert (H0 : unit_interval 0) by (split; [unfold Qle | unfold Qlt]; simpl; lia).
  assert (Hh : hooks topic <> []) by discriminate.
  assert (Ht : titles (titleWords topic) <> []) by discriminate.
  unfold localGenerate, bind, template, receiver, Math_random, ret. cbn [ToString].
  destruct (entropy w) as [|r1 [|r2 rs]] eqn:He; cbn [entropy]; rewrite ?He;
    eexists _, _, _; (split; [reflexivity|]);
    cbn [Generated.hook Generated.title Generated.script Generated.hashtags].
  - split; [now apply pick_elem|]. split; [reflexivity|]. split; [now apply pick_elem|].
    split; [reflexivity|]. split; [reflexivity|]. destruct w; cbn in *. now subst.
  - apply Forall_cons in Hfair as [Hr1 _].
    split; [now apply pick_elem|]. split; [reflexivity|]. split; [now apply pick_elem|].
    split; [reflexivity|]. split; [reflexivity|]. reflexivity.
  - apply Forall_cons in Hfair as [Hr1 Hfair]. apply Forall_cons in Hfair as [Hr2 _].
    split; [now apply pick_elem|]. split; [reflexivity|]. split; [now apply pick_elem|].
    split; [reflexivity|]. split; [reflexivity|]. reflexivity.
Qed.

(** X21. With random numbers in [0, 1) and a string for a topic,
    [localGenerate] returns one of its five hooks, one of its four
    titles built on the first four words of the topic, the script that
    opens with that hook, and the hashtags made of the topic without
    white space, in lower case, and four fixed tags; none of the four
    fields is empty.  It draws two random numbers, sends nothing and
    writes nothing.  Tone and length, of whatever kind, play no part. *)
Theorem localGenerate_fields (topic : jsstring) (tone length : Json.t) (w : World) :
  fair w ->
  exists g title,
    fst (localGenerate toLowerCase (Json.str topic) tone length w) = Return g
    /\ (Generated.hook g ∈ hooks topic)
    /\ Generated.title g = Json.str title
    /\ (title ∈ titles (titleWords topic))
    /\ Generated.script g = script_of (Generated.hook g) topic
    /\ Generated.hashtags g = local_hashtags toLowerCase topic
    /\ title <> [] /\ Generated.hook g <> []
    /\ Generated.script g <> [] /\ Generated.hashtags g <> []
    /\ entropy (snd (localGenerate toLowerCase (Json.str topic) tone length w))
       = drop 2 (entropy w)
    /\ sent (snd (localGenerate toLowerCase (Json.str topic) tone length w)) = sent w
    /\ db_file (snd (localGenerate toLowerCase (Json.str topic) tone length w)) = db_file w
    /\ writes (snd (localGenerate toLowerCase (Json.str topic) tone length w)) = writes w.
Proof.
  intros Hfair.
  destruct (localGenerate_result topic tone length w Hfair)
    as (g & title & w' & -> & Hhook & Htitle & Hin & Hscript & Htags & <-).
  exists g, title. cbn [fst snd entropy sent db_file writes].
  split; [reflexivity|]. split; [exact Hhook|]. split; [exact Htitle|].
  split; [exact Hin|]. split; [exact Hscript|]. split; [exact Htags|].
  split; [now apply titles_not_empty in Hin|].
  split; [now apply hooks_not_empty in Hhook|].
  split; [rewrite Hscript; unfold script_of; not_empty|].
  split; [rewrite Htags; unfold local_hashtags; not_empty|].
  repeat split.
Qed.

End LocalProperties.

Lemma localGenerate_fields_witness :
  let topic := lit "Home Cooking" in
  fair keyed_world
  /\ exists g,
    fst (localGenerate lower_ascii (Json.str topic) Json.null (Json.number 60) keyed_world)
    = Return g
    /\ Generated.title g = Json.str (lit "Stop Making This Home Cooking Mistake")
    /\ Generated.hashtags g = lit "#homecooking #shorts #viral #trending #fyp"
    /\ Generated.hook g <> [].
Proof.
  intros topic.
  assert (H : fair keyed_world).
  { repeat constructor; unfold Qle, Qlt; simpl; lia. }
  split; [exact H|].
  destruct (localGenerate_fields lower_ascii topic Json.null (Json.number 60)
              keyed_world H)
    as (g & title & Hret & _ & _ & _ & _ & _ & _ & Hhook & _).
  exists g. split; [exact Hret|].
  assert (Hg : Return g
               = fst (localGenerate lower_ascii (Json.str topic) Json.null (Json.number 60)
                        keyed_world)) by now rewrite Hret.
  vm_compute in Hg. injection Hg as ->.
  split; [vm_compute; reflexivity|]. split; [vm_compute; reflexivity | exact Hhook].
Defined.

(** ** Tags and parsed fields *)

Lemma elem_of_drop_while (p : N -> bool) (x : N) (l : jsstring) :
  x ∈ drop_while p l -> x ∈ l.
Proof.
  induction l as [|c l IH]; simpl; [trivial|].
  destruct (p c); [|trivial]. intros H. right. now apply IH.
Qed.

Lemma elem_of_trim (x : N) (s : jsstring) : x ∈ trim s -> x ∈ s.
Proof.
  unfold trim, trimEnd, trimStart. intros H.
  apply list_elem_of_In, in_rev in H. apply list_elem_of_In, elem_of_drop_while in H.
  apply list_elem_of_In, in_rev in H. apply list_elem_of_In in H.
  now apply elem_of_drop_while in H.
Qed.

Lemma tokens_clean (parts : list jsstring) :
  Forall (fun p => 35%N ∉ p) parts ->
  Forall (fun t => (35%N ∉ t) /\ trim t = t /\ t <> [])
         (map trim (List.filter (fun t => truthy (trim t)) parts)).
Proof.
  intros Htok. apply Forall_map. apply List.Forall_forall. intros t Ht.
  apply filter_In in Ht as [Hin Htruthy].
  rewrite List.Forall_forall in Htok. specialize (Htok t Hin).
  split; [intros H; apply Htok; now apply elem_of_trim|].
  split; [apply trim_trim|].
  intros Hnil. now rewrite Hnil in Htruthy.
Qed.

(** X22. The tags of the metadata: no tag holds a ['#'], no tag starts
    or ends with white space, no tag is empty. *)
Theorem youtubeMetadata_tags_clean (video : Video.t) :
  Forall (fun t => (35%N ∉ t) /\ trim t = t /\ t <> [])
         (Metadata.tags (youtubeMetadata_of video)).
Proof.
  unfold youtubeMetadata_of. cbn [Metadata.tags].
  apply tokens_clean, split_tokens.
Qed.




Lemma labelled_cases (cs : list (N -> bool)) (capture : jsstring -> jsstring)
    (text d : jsstring) :
  labelled cs capture text d = d
  \/ exists c r, is_space c = false /\ labelled cs capture text d = trim (capture (c :: r)).
Proof.
  unfold labelled. destruct (after_label cs text) as [after|]; [|now left].
  destruct (drop_while is_space after) as [|c r] eqn:Hrest; [now left|].
  right. exists c, r. split; [now apply drop_while_head in Hrest | reflexivity].
Qed.

Lemma take_while_single_line (s : jsstring) : single_line (take_while is_dot s).
Proof.
  unfold single_line. induction s as [|c s IH]; simpl; [constructor|].
  destruct (is_dot c) eqn:Hc; [|constructor].
  constructor; [|exact IH]. unfold is_dot in Hc. now apply negb_true_iff in Hc.
Qed.

Lemma trim_single_line (s : jsstring) : single_line s -> single_line (trim s).
Proof.
  unfold single_line. rewrite !Forall_forall. intros H x Hx.
  apply H. now apply elem_of_trim.
Qed.

Lemma line_shape (label : string) (text d : jsstring) :
  labelled_line label text d = d
  \/ (extracted (labelled_line label text d) /\ single_line (labelled_line label text d)).
Proof.
  unfold labelled_line.
  destruct (labelled_cases (Re.ci_lit label) (take_while is_dot) text d)
    as [-> | (c & r & Hc & ->)]; [now left | right].
  split; [split|].
  - intros Hnil. pose proof (not_space_is_dot c Hc) as Hdot.
    simpl in Hnil. rewrite Hdot in Hnil.
    pose proof (trim_keeps_head c (take_while is_dot r) Hc) as Ht.
    now rewrite Hnil in Ht.
  - apply trim_trim.
  - apply trim_single_line, take_while_single_line.
Qed.

Lemma block_shape (text d : jsstring) :
  labelled_block text d = d \/ extracted (labelled_block text d).
Proof.
  unfold labelled_block.
  destruct (labelled_cases (Re.ci_lit "SCRIPT:") block_capture text d)
    as [-> | (c & r & Hc & ->)]; [now left | right].
  split; [|apply trim_trim].
  intros Hnil. pose proof (trim_keeps_head c (until_hashtags r) Hc) as Ht.
  simpl in Hnil. now rewrite Hnil in Ht.
Qed.

Lemma parse_as_labelled (text : jsstring) (topic : Json.t) :
  parseGeneratedScript text topic
  = Generated.mk (labelled_title text topic)
                 (labelled_line "HOOK:" text [])
                 (labelled_block text text)
                 (labelled_line "HASHTAGS:" text (lit "#shorts #viral #trending")).
Proof.
  unfold parseGeneratedScript, labelled_title, re_title, re_hook, re_hashtags.
  now rewrite title_or_labelled, !line_field, block_field.
Qed.

Lemma title_shape (text : jsstring) (topic : Json.t) :
  labelled_title text topic = topic
  \/ exists title, labelled_title text topic = Json.str title
                   /\ extracted title /\ single_line title.
Proof.
  unfold labelled_title.
  destruct (line_shape "TITLE:" text []) as [-> | H]; [now left|].
  destruct (labelled_line "TITLE:" text []) as [|c r] eqn:Ht; [now left|].
  right. eauto.
Qed.

(** X23. Every field [parseGeneratedScript] returns is either its
    default or a string found in the text, which is then not empty and
    has no white space around it; a title, hook or hashtags found in the
    text holds no line break.  So the title is not empty unless the
    topic is (it is truthy when the topic is), the script is not empty
    unless the text is, and the hashtags are never empty. *)
Theorem parseGeneratedScript_shape (text : jsstring) (topic : Json.t) :
  let g := parseGeneratedScript text topic in
  (Generated.title g = topic
   \/ (exists title, Generated.title g = Json.str title
                     /\ extracted title /\ single_line title))
  /\ (Generated.hook g = []
      \/ (extracted (Generated.hook g) /\ single_line (Generated.hook g)))
  /\ (Generated.script g = text \/ extracted (Generated.script g))
  /\ (Generated.hashtags g = lit "#shorts #viral #trending"
      \/ (extracted (Generated.hashtags g) /\ single_line (Generated.hashtags g)))
  /\ (Json.truthy topic = true -> Json.truthy (Generated.title g) = true)
  /\ (text <> [] -> Generated.script g <> [])
  /\ Generated.hashtags g <> [].
Proof.
  cbv zeta. rewrite parse_as_labelled.
  cbn [Generated.title Generated.hook Generated.script Generated.hashtags].
  pose proof (title_shape text topic) as Ht.
  pose proof (line_shape "HOOK:" text []) as Hh.
  pose proof (block_shape text text) as Hs.
  pose proof (line_shape "HASHTAGS:" text (lit "#shorts #viral #trending")) as Hg.
  split; [exact Ht|]. split; [exact Hh|]. split; [exact Hs|]. split; [exact Hg|].
  split; [|split].
  - intros Hne. destruct Ht as [-> | (title & -> & [H _] & _)]; [assumption|].
    now destruct title.
  - intros Hne. destruct Hs as [-> | [H _]]; assumption.
  - destruct Hg as [-> | [[H _] _]]; [discriminate | assumption].
Qed.

Lemma parse_not_empty (text topic : jsstring) :
  topic <> [] -> text <> [] ->
  (exists title, Generated.title (parseGeneratedScript text (Json.str topic)) = Json.str title
                 /\ title <> [])
  /\ Generated.script (parseGeneratedScript text (Json.str topic)) <> []
  /\ Generated.hashtags (parseGeneratedScript text (Json.str topic)) <> [].
Proof.
  intros Htopic Htext. rewrite parse_as_labelled.
  cbn [Generated.title Generated.script Generated.hashtags].
  split; [|split].
  - destruct (title_shape text (Json.str topic)) as [-> | (title & -> & [H _] & _)];
      eauto.
  - destruct (block_shape text text) as [-> | [H _]]; assumption.
  - destruct (line_shape "HASHTAGS:" text (lit "#shorts #viral #trending"))
      as [-> | [[H _] _]]; [discriminate | assumption].
Qed.

Section GeneratedDrafts.

Variable toLowerCase : jsstring -> jsstring.

Lemma generation_sends_iff (topic tone length : Json.t) (w : World) :
  generation_sends topic tone length w = true
  <-> api_key w <> []
      /\ legal_header_value (api_key w) = true
      /\ is_Some (ToString (engine w) length)
      /\ is_Some (ToString (engine w) topic)
      /\ is_Some (ToString (engine w) tone).
Proof.
  unfold generation_sends, generation_content.
  rewrite !andb_true_iff, bool_decide_eq_true.
  destruct (ToString (engine w) length) as [l|], (ToString (engine w) topic) as [t|],
    (ToString (engine w) tone) as [n|], (api_key w) as [|c k]; cbn [truthy];
    split; intros H; repeat split; try (apply H); try (eexists; reflexivity);
    try discriminate;
    try (destruct H as [[H1 H2] H3]; first [discriminate | now apply is_Some_None in H2]);
    try (destruct H as (H1 & H2 & H3 & H4 & H5);
         first [congruence | now apply is_Some_None in H3 | now apply is_Some_None in H4
               | now apply is_Some_None in H5]).
Qed.

(** X24. [generateScript] writes neither document and asks neither the
    identity provider nor the video platform, whatever it is given and
    whether it returns or throws.  It sends one request, carrying the
    configured key and the message built from topic, tone and length,
    exactly when a key is configured, that key can be sent as a header
    (it holds nothing but tabs and the code units 0x20 to 0x7e and 0x80
    to 0xff) and the three values convert to strings; otherwise nothing
    leaves the process. *)
Theorem generateScript_frame (topic tone length : Json.t) (w : World) :
  db_file (snd (generateScript toLowerCase topic tone length w)) = db_file w
  /\ config_file (snd (generateScript toLowerCase topic tone length w)) = config_file w
  /\ writes (snd (generateScript toLowerCase topic tone length w)) = writes w
  /\ idp (snd (generateScript toLowerCase topic tone length w)) = idp w
  /\ youtube (snd (generateScript toLowerCase topic tone length w)) = youtube w
  /\ sent (snd (generateScript toLowerCase topic tone length w))
     = (if generation_sends topic tone length w
        then generation_request topic tone length w :: sent w
        else sent w)
  /\ (generation_sends topic tone length w = true
      <-> api_key w <> []
          /\ legal_header_value (api_key w) = true
          /\ is_Some (ToString (engine w) length)
          /\ is_Some (ToString (engine w) topic)
          /\ is_Some (ToString (engine w) tone)).
Proof.
  assert (Hatt : db_file (after_attempt topic tone length w) = db_file w
                 /\ config_file (after_attempt topic tone length w) = config_file w
                 /\ writes (after_attempt topic tone length w) = writes w
                 /\ idp (after_attempt topic tone length w) = idp w
                 /\ youtube (after_attempt topic tone length w) = youtube w
                 /\ sent (after_attempt topic tone length w)
                    = (if generation_sends topic tone length w
                       then generation_request topic tone length w :: sent w
                       else sent w)).
  { unfold after_attempt. destruct (generation_sends topic tone length w);
      [|repeat split].
    unfold post_messages. destruct (claude w) as [|[dt r] rest]; repeat split. }
  split; [|split; [|split; [|split; [|split; [|split;
    [|apply generation_sends_iff]]]]]];
    rewrite generateScript_eq;
    (destruct (if generation_sends topic tone length w then delivered w else None)
       as [text|]; cbn [snd];
     [|destruct (localGenerate_touches toLowerCase topic tone length
                   (after_attempt topic tone length w)) as [n ->];
       cbn [db_file config_file writes idp youtube sent]]);
    apply Hatt.
Qed.

Lemma fair_drop (n : nat) (w w' : World) :
  fair w -> entropy w' = drop n (entropy w) -> fair w'.
Proof. unfold fair. intros H ->. now apply Forall_drop. Qed.

Lemma fair_hd (w : World) : fair w -> unit_interval (hd 0%Q (entropy w)).
Proof.
  unfold fair. intros H. destruct (entropy w) as [|r rs]; cbn [hd].
  - split; [unfold Qle | unfold Qlt]; simpl; lia.
  - now apply Forall_cons in H as [H _].
Qed.

Lemma fair_after_attempt (topic tone length : Json.t) (w : World) :
  fair w -> fair (after_attempt topic tone length w).
Proof.
  unfold after_attempt, fair. destruct (generation_sends topic tone length w); [|trivial].
  unfold post_messages. now destruct (claude w) as [|[dt r] rest].
Qed.

Lemma delivered_not_nil (w : World) (text : jsstring) : delivered w = Some text -> text <> [].
Proof.
  unfold delivered.
  destruct (claude w) as [|[dt [[[|c t]|]|msg]] rest]; try discriminate.
  now intros [= <-].
Qed.

(** Given a string that is not empty for a topic, the script has a
    title, a script and hashtags that are not empty. *)
Lemma generateScript_result (topic : jsstring) (tone length : Json.t) (w : World) :
  fair w -> topic <> [] ->
  exists g w1 title,
    generateScript toLowerCase (Json.str topic) tone length w = (Return g, w1)
    /\ Generated.title g = Json.str title /\ title <> []
    /\ Generated.script g <> []
    /\ Generated.hashtags g <> []
    /\ fair w1.
Proof.
  intros Hfair Htopic. rewrite generateScript_eq.
  pose proof (fair_after_attempt (Json.str topic) tone length w Hfair) as Hf.
  destruct (if generation_sends (Json.str topic) tone length w then delivered w else None)
    as [text|] eqn:Hd.
  - assert (Htext : text <> []).
    { destruct (generation_sends (Json.str topic) tone length w); [|discriminate].
      now apply (delivered_not_nil w). }
    destruct (parse_not_empty text topic Htopic Htext) as ((title & Ht & Hne) & H2 & H3).
    eexists _, _, title. split; [reflexivity|]. repeat split; assumption.
  - destruct (localGenerate_result toLowerCase topic tone length _ Hf)
      as (g & title & w1 & Heq & Hhook & Htitle & Hin & Hscript & Htags & Hw1).
    exists g, w1, title. split; [exact Heq|]. split; [exact Htitle|].
    split; [now apply titles_not_empty in Hin|].
    split; [rewrite Hscript; unfold script_of; not_empty|].
    split; [rewrite Htags; unfold local_hashtags; not_empty|].
    subst w1. now apply (fair_drop 2 (after_attempt (Json.str topic) tone length w)).
Qed.

(** X25. The draft a request for a script creates, when the topic is a
    string that is not empty and the random numbers are in [0, 1): it
    carries the topic as given; the tone, the length and the requested
    time of the body as [JSON.stringify] writes them, of whatever kind
    ([null] included, and [null] for a number that is not finite), with
    ["Engaging"] and 60 for a tone and a length that are missing and
    [null] for a requested time that is missing or falsy; a title
    that is a string, a script and hashtags that are not empty; one of
    the ten emoji.  Its id is the decimal rendering of the clock read
    first, its creation time the clock read next, which is not earlier
    when the clock does not run backwards.  Its status is [draft] and it
    has neither schedule time, nor error, nor metadata. *)
Theorem api_generate_draft (body : GenerateBody) (w : World) (topic : jsstring) :
  g_topic body = Some (Json.str topic) ->
  topic <> [] ->
  fair w ->
  exists video,
    fst (handle toLowerCase (PostGenerate body) w) = json (P_video video)
    /\ Video.topic video = Json.str topic
    /\ Video.tone video
       = Json.written (default (Json.str (lit "Engaging")) (g_tone body))
    /\ Video.length video = Json.written (default (Json.number 60) (g_length body))
    /\ Video.scheduledFor video = Json.written (Json.or_null (g_scheduleFor body))
    /\ (exists title, Video.title video = Json.str title /\ title <> [])
    /\ Video.script video <> []
    /\ Video.hashtags video <> []
    /\ (Video.emoji video ∈ emojis)
    /\ (exists now, Video.id video = toString now
                    /\ (latencies_ok w ->
                        clock w <= now /\ now <= Video.createdAt video))
    /\ Video.createdAt video = clock (snd (handle toLowerCase (PostGenerate body) w))
    /\ Video.status video = Status.draft
    /\ Video.scheduledAt video = None
    /\ Video.error video = None
    /\ Video.youtubeMetadata video = None.
Proof.
  intros Hbody Htopic Hfair.
  assert (Htruthy : Json.truthy_opt (g_topic body) = true).
  { rewrite Hbody. now destruct topic. }
  destruct (generateScript_result topic (default (Json.str (lit "Engaging")) (g_tone body))
              (default (Json.number 60) (g_length body)) w Hfair Htopic)
    as (g & w1 & title & Hg & Ht & Hne & Hs & Hh & Hfair1).
  pose proof (generateScript_effect toLowerCase (Json.str topic)
                (default (Json.str (lit "Engaging")) (g_tone body))
                (default (Json.number 60) (g_length body)) w) as [_ Hlater].
  rewrite Hg in Hlater. cbn [snd] in Hlater.
  assert (Hg' : generateScript toLowerCase (default Json.null (g_topic body))
                  (default (Json.str (lit "Engaging")) (g_tone body))
                  (default (Json.number 60) (g_length body)) w = (Return g, w1))
    by now rewrite Hbody.
  destruct (api_generate_returns toLowerCase body w w1 g Htruthy Hg')
    as (w' & Heq & _ & Hclock & _).
  unfold handle, route. rewrite Heq. cbn [fst snd].
  eexists. split; [reflexivity|]. unfold draft_of.
  cbn [Video.topic Video.tone Video.length Video.title Video.script Video.hashtags
       Video.emoji Video.id Video.createdAt Video.status Video.scheduledAt Video.error
       Video.youtubeMetadata Video.scheduledFor].
  split; [now rewrite Hbody|]. split; [reflexivity|]. split; [reflexivity|].
  split; [reflexivity|]. split; [rewrite Ht; eauto|]. split; [exact Hs|].
  split; [exact Hh|].
  split; [apply pick_elem; [now apply fair_hd | discriminate]|].
  split; [exists (clock w1); split; [reflexivity|]|].
  { intros Hok. destruct (Hlater Hok) as [Hok1 Hc].
    pose proof (hd_drift w1 Hok1). lia. }
  split; [now rewrite Hclock|]. repeat split.
Qed.

End GeneratedDrafts.

Lemma api_generate_draft_witness :
  let body := {| g_topic := Some (Json.str (lit "cooking")); g_tone := Some Json.null;
                 g_length := None; g_scheduleFor := Some (Json.boolean false) |} in
  (g_topic body = Some (Json.str (lit "cooking")) /\ lit "cooking" <> []
   /\ fair keyed_world)
  /\ exists video,
    fst (handle lower_ascii (PostGenerate body) keyed_world) = json (P_video video)
    /\ Video.tone video = Json.null
    /\ Video.length video = Json.number 60
    /\ Video.scheduledFor video = Json.null
    /\ Video.script video <> []
    /\ Video.hashtags video = lit "#cooking #shorts #viral #trending #fyp"
    /\ Video.id video = lit "1730000001500".
Proof.
  intros body.
  assert (H1 : g_topic body = Some (Json.str (lit "cooking"))) by reflexivity.
  assert (H2 : lit "cooking" <> []) by discriminate.
  assert (H3 : fair keyed_world).
  { repeat constructor; unfold Qle, Qlt; simpl; lia. }
  split; [exact (conj H1 (conj H2 H3))|].
  destruct (api_generate_draft lower_ascii body keyed_world _ H1 H2 H3)
    as (video & Hret & _ & Htone & Hlen & Hfor & _ & Hs & _).
  exists video. split; [exact Hret|]. split; [exact Htone|]. split; [exact Hlen|].
  split; [exact Hfor|]. split; [exact Hs|].
  assert (Hv : json (P_video video)
               = fst (handle lower_ascii (PostGenerate body) keyed_world))
    by now rewrite Hret.
  vm_compute in Hv. injection Hv as ->.
  split; vm_compute; reflexivity.
Defined.

(** ** The service worker *)

Lemma is_prefix_spec (p s : jsstring) :
  Sw.is_prefix p s = true <-> exists post, s = p ++ post.
Proof.
  revert s. induction p as [|a p IH]; intros s; simpl.
  - split; [intros _; now exists s | reflexivity].
  - destruct s as [|b s].
    + split; [discriminate | intros [post H]; discriminate].
    + rewrite andb_true_iff, N.eqb_eq, IH. split.
      * intros [-> [post ->]]. now exists post.
      * intros [post [= -> ->]]. split; [reflexivity | now exists post].
Qed.

Lemma includes_spec (p s : jsstring) :
  Sw.includes p s = true <-> exists pre post, s = pre ++ p ++ post.
Proof.
  induction s as [|c s IH].
  - simpl. rewrite orb_false_r, is_prefix_spec. split.
    + intros [post H]. now exists [], post.
    + intros (pre & post & H). destruct pre; [now exists post|discriminate].
  - cbn [Sw.includes]. rewrite orb_true_iff, is_prefix_spec, IH. split.
    + intros [[post H] | (pre & post & ->)].
      * now exists [], post.
      * now exists (c :: pre), post.
    + intros (pre & post & H). destruct pre as [|x pre].
      * left. now exists post.
      * right. injection H as _ ->. now exists pre, post.
Qed.

(** X26. The fetch handler of the worker leaves a request alone, so that
    it is never answered from a cache, exactly when its URL holds
    ["/api/"] or ["/auth/"] somewhere; every other request it answers
    itself. *)
Theorem on_fetch_bypass (net : Sw.Network) (cs : Sw.CacheStorage) (url : jsstring) :
  (Sw.on_fetch net cs url = Sw.PassThrough
   <-> (exists pre post, url = pre ++ lit "/api/" ++ post)
       \/ (exists pre post, url = pre ++ lit "/auth/" ++ post))
  /\ (Sw.on_fetch net cs url <> Sw.PassThrough ->
      exists r, Sw.on_fetch net cs url = Sw.Respond r).
Proof.
  unfold Sw.on_fetch. rewrite <- !includes_spec, <- orb_true_iff.
  destruct (Sw.includes (lit "/api/") url || Sw.includes (lit "/auth/") url).
  - split; [tauto | congruence].
  - split; [split; [discriminate | discriminate] | eauto].
Qed.

Lemma lookup_app (url : jsstring) (c c' : Sw.Cache) :
  Sw.lookup url (c ++ c')
  = match Sw.lookup url c with Some p => Some p | None => Sw.lookup url c' end.
Proof.
  induction c as [|[u p] c IH]; simpl; [reflexivity|].
  now destruct (bool_decide (u = url)).
Qed.

Lemma lookup_removed (url u : jsstring) (c : Sw.Cache) :
  Sw.lookup url (List.filter (fun e => negb (bool_decide (fst e = u))) c)
  = if bool_decide (u = url) then None else Sw.lookup url c.
Proof.
  induction c as [|[u' p] c IH]; simpl; [now destruct (bool_decide (u = url))|].
  destruct (bool_decide (u' = u)) eqn:Hu; simpl.
  - apply bool_decide_eq_true in Hu as ->. rewrite IH.
    now destruct (bool_decide (u = url)).
  - rewrite IH. destruct (bool_decide (u' = url)) eqn:Hurl; [|reflexivity].
    apply bool_decide_eq_true in Hurl as ->. apply bool_decide_eq_false in Hu.
    now rewrite bool_decide_eq_false_2 by congruence.
Qed.

Lemma lookup_put (url u : jsstring) (page : Sw.Page) (c : Sw.Cache) :
  Sw.lookup url (Sw.put u page c)
  = if bool_decide (u = url) then Some page else Sw.lookup url c.
Proof.
  unfold Sw.put. rewrite lookup_app, lookup_removed. simpl.
  destruct (bool_decide (u = url)); [reflexivity|]. now destruct (Sw.lookup url c).
Qed.

Lemma has_cache_open (name : jsstring) (cs : Sw.CacheStorage) :
  Sw.has_cache name (Sw.open name cs) = true.
Proof.
  unfold Sw.open. destruct (Sw.has_cache name cs) eqn:H; [exact H|].
  unfold Sw.has_cache. rewrite existsb_app. simpl.
  rewrite bool_decide_eq_true_2 by reflexivity. apply orb_true_r.
Qed.

(** What the caches named [name] serve once the others are gone. *)
Lemma match_all_current (url : jsstring) (f : Sw.Cache -> Sw.Cache)
    (cs : Sw.CacheStorage) (page : Sw.Page) :
  Sw.has_cache Sw.CACHE cs = true ->
  (forall c, Sw.lookup url (f c) = Some page) ->
  Sw.match_all url (Sw.activate (Sw.update Sw.CACHE f cs)) = Some page.
Proof.
  intros Hhas Hf. induction cs as [|[n c] cs IH]; [discriminate|].
  unfold Sw.has_cache in Hhas. simpl in Hhas. simpl.
  destruct (bool_decide (n = Sw.CACHE)) eqn:Hn; simpl.
  - rewrite Hn. simpl. now rewrite Hf.
  - rewrite Hn. apply IH. exact Hhas.
Qed.

(** X27. The activate event leaves the caches named ["shortsbot-v2"],
    with what they hold, and no other cache; activating again changes
    nothing. *)
Theorem activate_keeps_current (cs : Sw.CacheStorage) :
  Forall (fun e => fst e = Sw.CACHE) (Sw.activate cs)
  /\ (forall c, (Sw.CACHE, c) ∈ Sw.activate cs <-> (Sw.CACHE, c) ∈ cs)
  /\ (Sw.activate cs `sublist_of` cs)
  /\ Sw.activate (Sw.activate cs) = Sw.activate cs.
Proof.
  unfold Sw.activate. split; [|split; [|split]].
  - apply List.Forall_forall. intros e He. apply filter_In in He as [_ He].
    now apply bool_decide_eq_true in He.
  - intros c. rewrite !list_elem_of_In, filter_In. split; [tauto|].
    intros H. split; [exact H|]. now apply bool_decide_eq_true.
  - induction cs as [|e cs IH]; simpl; [constructor|].
    destruct (bool_decide (fst e = Sw.CACHE)); now constructor.
  - induction cs as [|e cs IH]; simpl; [reflexivity|].
    destruct (bool_decide (fst e = Sw.CACHE)) eqn:He; simpl; [|exact IH].
    rewrite He. now f_equal.
Qed.

Lemma app_inv_head_ne (origin : jsstring) :
  origin ++ lit "/" <> origin ++ lit "/index.html".
Proof. intros H. apply app_inv_head in H. discriminate. Qed.

(** X28. When the network serves both precached URLs with an ok status
    the install event succeeds; once the worker is activated, the two
    URLs are answered with the responses fetched at install, whatever
    the network does then, even when it is down. *)
Theorem install_then_offline (origin : jsstring) (net : Sw.Network)
    (cs : Sw.CacheStorage) (p1 p2 : Sw.Page) :
  net (origin ++ lit "/") = Some p1 -> Sw.ok p1 = true ->
  net (origin ++ lit "/index.html") = Some p2 -> Sw.ok p2 = true ->
  Sw.includes (lit "/api/") (origin ++ lit "/index.html") = false ->
  Sw.includes (lit "/auth/") (origin ++ lit "/index.html") = false ->
  fst (Sw.install origin net cs) = true
  /\ forall net',
       Sw.on_fetch net' (Sw.activate (snd (Sw.install origin net cs))) (origin ++ lit "/")
       = Sw.Respond (Some p1)
       /\ Sw.on_fetch net' (Sw.activate (snd (Sw.install origin net cs)))
            (origin ++ lit "/index.html")
          = Sw.Respond (Some p2).
Proof.
  intros Hn1 Hok1 Hn2 Hok2 Hapi Hauth.
  assert (Hroot : forall pat, Sw.includes pat (origin ++ lit "/index.html") = false ->
                              Sw.includes pat (origin ++ lit "/") = false).
  { intros pat H. destruct (Sw.includes pat (origin ++ lit "/")) eqn:E; [|reflexivity].
    apply includes_spec in E as (pre & post & E).
    assert (Hin : Sw.includes pat (origin ++ lit "/index.html") = true).
    { apply includes_spec. exists pre, (post ++ lit "index.html").
      change (lit "/index.html") with (lit "/" ++ lit "index.html").
      rewrite (app_assoc origin), E. now rewrite <- !app_assoc. }
    congruence. }
  unfold Sw.install, Sw.fetch_ok. rewrite Hn1, Hn2, Hok1, Hok2. cbn [fst snd].
  split; [reflexivity|]. intros net'. unfold Sw.on_fetch.
  rewrite Hapi, Hauth, (Hroot _ Hapi), (Hroot _ Hauth). cbn [orb].
  split.
  - rewrite (match_all_current _ _ _ p1); [reflexivity | apply has_cache_open|].
    intros c. rewrite !lookup_put.
    rewrite bool_decide_eq_false_2 by (intros H; symmetry in H; now apply app_inv_head_ne in H).
    now rewrite bool_decide_eq_true_2.
  - rewrite (match_all_current _ _ _ p2); [reflexivity | apply has_cache_open|].
    intros c. rewrite !lookup_put. now rewrite bool_decide_eq_true_2.
Qed.

Lemma install_then_offline_witness :
  let origin := lit "https://shorts.example" in
  let page := Sw.mkPage true (lit "<html>") in
  (Sw.serving page (origin ++ lit "/") = Some page /\ Sw.ok page = true
   /\ Sw.includes (lit "/api/") (origin ++ lit "/index.html") = false
   /\ Sw.includes (lit "/auth/") (origin ++ lit "/index.html") = false)
  /\ fst (Sw.install origin (Sw.serving page) [(lit "shortsbot-v1", [])]) = true
  /\ Sw.on_fetch Sw.offline
       (Sw.activate (snd (Sw.install origin (Sw.serving page) [(lit "shortsbot-v1", [])])))
       (origin ++ lit "/")
     = Sw.Respond (Some page).
Proof.
  intros origin page.
  assert (H1 : Sw.includes (lit "/api/") (origin ++ lit "/index.html") = false)
    by (vm_compute; reflexivity).
  assert (H2 : Sw.includes (lit "/auth/") (origin ++ lit "/index.html") = false)
    by (vm_compute; reflexivity).
  split; [repeat split; assumption|].
  destruct (install_then_offline origin (Sw.serving page) [(lit "shortsbot-v1", [])]
              page page eq_refl eq_refl eq_refl eq_refl H1 H2) as [Hok Hfetch].
  split; [exact Hok|]. exact (proj1 (Hfetch Sw.offline)).
Defined.

Lemma match_all_app (url : jsstring) (cs cs' : Sw.CacheStorage) :
  Sw.match_all url (cs ++ cs')
  = match Sw.match_all url cs with Some p => Some p | None => Sw.match_all url cs' end.
Proof.
  induction cs as [|[n c] cs IH]; simpl; [reflexivity|].
  now destruct (Sw.lookup url c).
Qed.

(** X29. When one of the two precached URLs cannot be fetched, or comes
    back with a status that is not ok, the install event fails and stores
    no response: every URL is answered from the caches as before. *)
Theorem install_failure_stores_nothing (origin : jsstring) (net : Sw.Network)
    (cs : Sw.CacheStorage) :
  Sw.fetch_ok net (origin ++ lit "/") = None
  \/ Sw.fetch_ok net (origin ++ lit "/index.html") = None ->
  fst (Sw.install origin net cs) = false
  /\ forall url, Sw.match_all url (snd (Sw.install origin net cs)) = Sw.match_all url cs.
Proof.
  intros Hfail.
  assert (Hopen : forall url, Sw.match_all url (Sw.open Sw.CACHE cs) = Sw.match_all url cs).
  { intros url. unfold Sw.open. destruct (Sw.has_cache Sw.CACHE cs); [reflexivity|].
    rewrite match_all_app. simpl. now destruct (Sw.match_all url cs). }
  unfold Sw.install.
  destruct (Sw.fetch_ok net (origin ++ lit "/")) as [p1|];
    destruct (Sw.fetch_ok net (origin ++ lit "/index.html")) as [p2|];
    cbn [fst snd]; try (split; [reflexivity | exact Hopen]).
  destruct Hfail; discriminate.
Qed.

Lemma install_failure_stores_nothing_witness :
  let origin := lit "https://shorts.example" in
  let cs := [(lit "shortsbot-v1", [(origin ++ lit "/", Sw.mkPage true (lit "old"))])] in
  (Sw.fetch_ok (Sw.serving (Sw.mkPage false (lit "502"))) (origin ++ lit "/") = None)
  /\ fst (Sw.install origin (Sw.serving (Sw.mkPage false (lit "502"))) cs) = false
  /\ Sw.match_all (origin ++ lit "/")
       (snd (Sw.install origin (Sw.serving (Sw.mkPage false (lit "502"))) cs))
     = Some (Sw.mkPage true (lit "old")).
Proof.
  intros origin cs.
  assert (H : Sw.fetch_ok (Sw.serving (Sw.mkPage false (lit "502"))) (origin ++ lit "/")
              = None) by reflexivity.
  split; [exact H|].
  destruct (install_failure_stores_nothing origin
              (Sw.serving (Sw.mkPage false (lit "502"))) cs (or_introl H)) as [Hfalse Hsame].
  split; [exact Hfalse|]. rewrite Hsame. vm_compute. reflexivity.
Defined.
